(** * Storefront cart (script.js): a shallow embedding and its properties

    The page script keeps one process-wide cart (an array of line items),
    persists it as JSON text under the localStorage key 'cart', renders it
    with its totals on the cart page, and filters catalog records fetched
    from a product API.

    Layout of this development:
    - JavaScript strings as sequences of UTF-16 code units;
    - JavaScript numbers as IEEE 754 binary64 values ([spec_float] of the
      standard library, precision 53, maximal exponent 1024), with the
      built-ins the script calls on them: [parseFloat], [toFixed],
      Number-to-String conversion;
    - JSON values with [JSON_stringify] and [JSON_parse];
    - localStorage, the cart engine ([addToCart] and the cart page's click
      handlers), [renderCart], the two catalog listings and the contact
      form;
    - the properties, the last part relating the totals the script
      computes on Numbers to exact decimal arithmetic. *)

From Stdlib Require Import String Ascii ZArith NArith PArith List Bool Lia.
From Stdlib Require Import SpecFloat.
Import ListNotations.
Local Open Scope Z_scope.
Local Set Warnings "-register-all".

(** ** JavaScript strings *)

(** A string is a sequence of UTF-16 code units. *)
Definition jsstring := list N.

(** [js "abc"] is the JavaScript string with the code units of the literal. *)
Definition js (s : string) : jsstring :=
  map N_of_ascii (list_ascii_of_string s).

(** Strict equality [===] on two strings: same code units. *)
Fixpoint str_eqb (a b : jsstring) : bool :=
  match a, b with
  | [], [] => true
  | x :: a', y :: b' => (x =? y)%N && str_eqb a' b'
  | _, _ => false
  end.

Infix "===" := str_eqb (at level 65, no associativity).

Definition is_nil {A : Type} (l : list A) : bool :=
  match l with [] => true | _ :: _ => false end.

(** Longest prefix whose elements all satisfy [p], and what follows it. *)
Fixpoint span {A : Type} (p : A -> bool) (l : list A) : list A * list A :=
  match l with
  | [] => ([], [])
  | x :: r =>
      if p x then let (a, b) := span p r in (x :: a, b) else ([], l)
  end.

Fixpoint starts_with (pre s : jsstring) : option jsstring :=
  match pre, s with
  | [], _ => Some s
  | c :: pre', d :: s' => if (c =? d)%N then starts_with pre' s' else None
  | _ :: _, [] => None
  end.

(** *** Decimal digits *)

Definition is_digit (c : N) : bool := ((48 <=? c) && (c <=? 57))%N.

Definition digit_value (c : N) : N := (c - 48)%N.

Definition digits_value (ds : jsstring) : N :=
  fold_left (fun acc c => 10 * acc + digit_value c)%N ds 0%N.

Fixpoint digits_from (fuel : nat) (n : N) (acc : jsstring) : jsstring :=
  match fuel with
  | O => acc
  | S fuel' =>
      let acc' := (48 + n mod 10)%N :: acc in
      if (n <? 10)%N then acc' else digits_from fuel' (n / 10)%N acc'
  end.

(** The digits of the decimal representation of [n], most significant
    first; ["0"] for zero.  A number has at most [log2 n + 1] digits. *)
Definition decimal_digits (n : N) : jsstring :=
  digits_from (S (N.to_nat (N.log2 n))) n [].

Definition ndigits (n : N) : Z := Z.of_nat (length (decimal_digits n)).

(** ** JavaScript numbers: IEEE 754 binary64 *)

Definition Number := spec_float.

Definition prec : Z := 53.
Definition emax : Z := 1024.

Definition NaN : Number := S754_nan.
Definition nadd : Number -> Number -> Number := SFadd prec emax.
Definition nmul : Number -> Number -> Number := SFmul prec emax.
Definition nsub : Number -> Number -> Number := SFsub prec emax.
Definition ngtb (x y : Number) : bool := SFltb y x.

(** The Number value for an integer (exact up to 2^53 in magnitude,
    rounded to nearest, ties to even, beyond). *)
Definition Z2Num (z : Z) : Number := binary_normalize prec emax z 0 false.

(** The integer a Number stands for, when it stands for one. *)
Definition Num2Z (x : Number) : option Z :=
  match x with
  | S754_zero _ => Some 0
  | S754_finite s m e =>
      let sign := if s then -1 else 1 in
      if 0 <=? e then Some (sign * (Zpos m * 2 ^ e))
      else if Zpos m mod 2 ^ (- e) =? 0 then Some (sign * (Zpos m / 2 ^ (- e)))
      else None
  | _ => None
  end.

Definition Number_eqb (x y : Number) : bool :=
  match x, y with
  | S754_zero s, S754_zero s' => Bool.eqb s s'
  | S754_infinity s, S754_infinity s' => Bool.eqb s s'
  | S754_nan, S754_nan => true
  | S754_finite s m e, S754_finite s' m' e' =>
      Bool.eqb s s' && (m =? m')%positive && (e =? e')
  | _, _ => false
  end.

(** The Number value of the decimal [s * 10^p], [s >= 0]: the mathematical
    value rounded once to nearest, ties to even.  [10^p] is split as
    [2^p * 5^p], so that the power of two goes to the exponent. *)
Definition decimal_to_number (s : N) (p : Z) : Number :=
  match s with
  | N0 => S754_zero false
  | Npos m =>
      if 0 <=? p then binary_normalize prec emax (Zpos m * 5 ^ p) p false
      else SFdiv prec emax (S754_finite false m p)
                           (S754_finite false (Z.to_pos (5 ^ (- p))) 0)
  end.

(** *** Numeric text *)

(** The characters a JSON number is written with: digits, [-], [+], [.],
    [e], [E]. *)
Definition is_num_char (c : N) : bool :=
  (is_digit c || (c =? 45) || (c =? 43) || (c =? 46) || (c =? 101) || (c =? 69))%N.

(** An exponent part that runs to the end of the text: empty, or
    [e] or [E], an optional sign and one digit at least. *)
Definition exponent_part (t : jsstring) : option Z :=
  match t with
  | [] => Some 0
  | c :: r =>
      if ((c =? 101) || (c =? 69))%N then
        let '(neg, ds) :=
          match r with
          | 43%N :: d => (false, d)
          | 45%N :: d => (true, d)
          | _ => (false, r)
          end in
        if negb (is_nil ds) && forallb is_digit ds then
          Some (if neg then - Z.of_N (digits_value ds) else Z.of_N (digits_value ds))
        else None
      else None
  end.

(** A fraction at the head of the text: nothing, or a point and one digit
    at least.  The digits and what follows them. *)
Definition fraction_digits (t : jsstring) : option (jsstring * jsstring) :=
  match t with
  | [] => Some ([], [])
  | c :: r =>
      if (c =? 46)%N then
        let (f, r') := span is_digit r in
        if is_nil f then None else Some (f, r')
      else Some ([], t)
  end.

(** A whole text as an unsigned JSON number: [int frac? exp?], where [int]
    has no superfluous leading zero and [frac] has a digit at least. *)
Definition json_unsigned (t : jsstring) : option Number :=
  let (int, r1) := span is_digit t in
  match int with
  | [] => None
  | d :: ds =>
      if (d =? 48)%N && negb (is_nil ds) then None
      else
        match fraction_digits r1 with
        | None => None
        | Some (frac, r2) =>
            match exponent_part r2 with
            | Some ex =>
                Some (decimal_to_number (digits_value (int ++ frac))
                        (ex - Z.of_nat (length frac)))
            | None => None
            end
        end
  end.

(** A whole text as a JSON number; the minus sign negates the Number the
    unsigned literal stands for. *)
Definition json_number (t : jsstring) : option Number :=
  match t with
  | c :: r =>
      if (c =? 45)%N then option_map SFopp (json_unsigned r) else json_unsigned t
  | [] => None
  end.

(** The number token at the head of a JSON text: the longest run of number
    characters, which must be a JSON number as a whole.  (In a JSON text a
    number can only be followed by white space, [,], [\]], [}] or the end,
    so a shorter match could not be continued.) *)
Definition lex_number (s : jsstring) : option (Number * jsstring) :=
  let (tok, rest) := span is_num_char s in
  match json_number tok with
  | Some x => Some (x, rest)
  | None => None
  end.

(** *** parseFloat *)

(** White space and line terminators skipped by [parseFloat]. *)
Definition is_str_whitespace (c : N) : bool :=
  ((9 <=? c) && (c <=? 13) || (c =? 32) || (c =? 160) || (c =? 5760)
   || (8192 <=? c) && (c <=? 8202) || (c =? 8232) || (c =? 8233)
   || (c =? 8239) || (c =? 8287) || (c =? 12288) || (c =? 65279))%N.

Definition trim_start (s : jsstring) : jsstring := snd (span is_str_whitespace s).

(** The exponent of the longest decimal-literal prefix: [e] or [E], an
    optional sign and digits; anything else leaves the exponent at 0. *)
Definition prefix_exponent (t : jsstring) : Z :=
  match t with
  | c :: r =>
      if ((c =? 101) || (c =? 69))%N then
        let '(neg, r') :=
          match r with
          | 43%N :: d => (false, d)
          | 45%N :: d => (true, d)
          | _ => (false, r)
          end in
        let ds := fst (span is_digit r') in
        if is_nil ds then 0
        else if neg then - Z.of_N (digits_value ds) else Z.of_N (digits_value ds)
      else 0
  | [] => 0
  end.

(** [parseFloat(string)]: the Number of the longest prefix of the trimmed
    string that is a decimal literal ([Infinity], [digits], [digits.],
    [digits.digits], [.digits], each with an optional sign and, for the
    digit forms, an optional exponent); [NaN] when there is none. *)
Definition parseFloat (s : jsstring) : Number :=
  let t := trim_start s in
  let '(neg, u) :=
    match t with
    | 45%N :: r => (true, r)
    | 43%N :: r => (false, r)
    | _ => (false, t)
    end in
  let v :=
    match starts_with (js "Infinity") u with
    | Some _ => S754_infinity false
    | None =>
        let (int, r1) := span is_digit u in
        let (frac, r2) :=
          match r1 with
          | 46%N :: r => span is_digit r
          | _ => ([], r1)
          end in
        if is_nil int && is_nil frac then NaN
        else decimal_to_number (digits_value (int ++ frac))
               (prefix_exponent r2 - Z.of_nat (length frac))
    end in
  if neg then SFopp v else v.

(** *** Number to String *)

(** The exact value of the finite positive Number [m * 2^e] as a fraction. *)
Definition fraction (m : positive) (e : Z) : Z * Z :=
  if 0 <=? e then (Zpos m * 2 ^ e, 1) else (Zpos m, 2 ^ (- e)).

(** The [n] with [10^(n-1) <= num/den < 10^n], for a positive fraction. *)
Definition decimal_exponent (num den : Z) : Z :=
  if den <=? num then ndigits (Z.to_N (num / den))
  else 1 - ndigits (Z.to_N ((den + num - 1) / num - 1)).

(** The digits [ds] (their number is called k) of a decimal with value
    [0.ds * 10^n], written as Number::toString prescribes. *)
Definition format_digits (ds : jsstring) (n : Z) : jsstring :=
  let k := Z.of_nat (length ds) in
  if (k <=? n) && (n <=? 21) then
    ds ++ repeat 48%N (Z.to_nat (n - k))
  else if (0 <? n) && (n <=? 21) then
    firstn (Z.to_nat n) ds ++ 46%N :: skipn (Z.to_nat n) ds
  else if (-6 <? n) && (n <=? 0) then
    48%N :: 46%N :: repeat 48%N (Z.to_nat (- n)) ++ ds
  else
    let ex := n - 1 in
    let exs := (if ex <? 0 then 45%N else 43%N) :: decimal_digits (Z.to_N (Z.abs ex)) in
    match ds with
    | [] => []
    | [d] => d :: 101%N :: exs
    | d :: rest => d :: 46%N :: rest ++ 101%N :: exs
    end.

(** The k-digit decimals next to [num/den]: with [p = n0 - k], the integers
    below and above [num / (den * 10^p)], the closer one first (the even
    one on a tie), each with its decimal exponent. *)
Definition candidates (num den n0 k : Z) : list (N * Z) :=
  let p := n0 - k in
  let vn := if 0 <=? p then num else num * 10 ^ (- p) in
  let vd := if 0 <=? p then den * 10 ^ p else den in
  let lo := vn / vd in
  let below := (Z.to_N lo, n0) in
  let above :=
    if lo + 1 =? 10 ^ k then (Z.to_N (10 ^ (k - 1)), n0 + 1)
    else (Z.to_N (lo + 1), n0) in
  if vn mod vd =? 0 then [below]
  else
    match 2 * (vn mod vd) ?= vd with
    | Lt => [below; above]
    | Gt => [above; below]
    | Eq => if Z.even lo then [below; above] else [above; below]
    end.

(** Does the text of these digits read back as the Number [m * 2^e]? *)
Definition reads_back (m : positive) (e : Z) (c : N * Z) : bool :=
  match lex_number (format_digits (decimal_digits (fst c)) (snd c)) with
  | Some (x, []) => Number_eqb x (S754_finite false m e)
  | _ => false
  end.

(** The least k from [k] on, [fuel] values tried, with a k-digit decimal
    that reads back, and the closest such decimal. *)
Fixpoint shortest_digits (fuel : nat) (m : positive) (e : Z) (n0 k : Z)
  : option (N * Z) :=
  match fuel with
  | O => None
  | S fuel' =>
      let (num, den) := fraction m e in
      match find (reads_back m e) (candidates num den n0 k) with
      | Some c => Some c
      | None => shortest_digits fuel' m e n0 (k + 1)
      end
  end.

(** The exact decimal value of [m * 2^e], as an integer or as an integer
    with a negative exponent. *)
Definition exact_decimal (m : positive) (e : Z) : jsstring :=
  if 0 <=? e then decimal_digits (Z.to_N (Zpos m * 2 ^ e))
  else decimal_digits (Z.to_N (Zpos m * 5 ^ (- e)))
         ++ 101%N :: 45%N :: decimal_digits (Z.to_N (- e)).

(** Number::toString for a finite positive Number: the shortest decimal
    that reads back as the Number.  Seventeen significant digits always
    suffice for a binary64 value, so the search ends with a result; the
    last branch, which writes the exact value, only makes the definition
    total without relying on that bound. *)
Definition positive_to_string (m : positive) (e : Z) : jsstring :=
  let (num, den) := fraction m e in
  match shortest_digits 17 m e (decimal_exponent num den) 1 with
  | Some (s, n) => format_digits (decimal_digits s) n
  | None => exact_decimal m e
  end.

Definition NumberToString (x : Number) : jsstring :=
  match x with
  | S754_nan => js "NaN"
  | S754_zero _ => js "0"
  | S754_infinity s => if s then js "-Infinity" else js "Infinity"
  | S754_finite s m e =>
      if s then 45%N :: positive_to_string m e else positive_to_string m e
  end.

(** *** toFixed *)

(** The digits of [n] with a decimal point before the last [f] of them,
    zeros added in front so that a digit stands before the point. *)
Definition fixed_digits (n : N) (f : nat) : jsstring :=
  let m := decimal_digits n in
  match f with
  | O => m
  | _ =>
      let m' := repeat 48%N (S f - length m) ++ m in
      let k := length m' in
      firstn (k - f) m' ++ 46%N :: skipn (k - f) m'
  end.

(** [x.toFixed(f)]: [x] rounded to [f] fraction digits, the larger
    neighbour on a tie (on the magnitude; the sign is written in front);
    from 10^21 on, and for a Number that is not finite, Number::toString. *)
Definition toFixed (x : Number) (f : nat) : jsstring :=
  match x with
  | S754_finite s m e =>
      let (num, den) := fraction m e in
      let sign := if s then [45%N] else [] in
      if 10 ^ 21 * den <=? num then sign ++ positive_to_string m e
      else
        let n := (2 * num * 10 ^ Z.of_nat f + den) / (2 * den) in
        sign ++ fixed_digits (Z.to_N n) f
  | S754_zero _ => fixed_digits 0 f
  | _ => NumberToString x
  end.

(** ** JSON *)

(** The values [JSON.parse] produces.  An object is the list of its
    properties in the order of the text. *)
Inductive Value : Type :=
  | JNull
  | JBool (b : bool)
  | JNum (x : Number)
  | JStr (s : jsstring)
  | JArr (elements : list Value)
  | JObj (members : list (jsstring * Value)).

(** ToBoolean: [null], [false], [0], [-0], [NaN] and the empty string are
    falsy, every other value is truthy (arrays and objects too). *)
Definition truthy (v : Value) : bool :=
  match v with
  | JNull => false
  | JBool b => b
  | JNum (S754_zero _) | JNum S754_nan => false
  | JNum _ => true
  | JStr s => negb (is_nil s)
  | JArr _ | JObj _ => true
  end.

(** *** JSON.stringify *)

Definition hex_digit (d : N) : N := (if d <? 10 then 48 + d else 87 + d)%N.

(** [\uXXXX] with lower-case hexadecimal digits. *)
Definition unicode_escape (c : N) : jsstring :=
  [92; 117; hex_digit (c / 4096 mod 16); hex_digit (c / 256 mod 16);
   hex_digit (c / 16 mod 16); hex_digit (c mod 16)]%N.

Definition is_high_surrogate (c : N) : bool := ((55296 <=? c) && (c <=? 56319))%N.
Definition is_low_surrogate (c : N) : bool := ((56320 <=? c) && (c <=? 57343))%N.

(** One code unit that is not a surrogate inside a JSON string. *)
Definition quote_char (c : N) : jsstring :=
  (if c =? 8 then [92; 98]
   else if c =? 9 then [92; 116]
   else if c =? 10 then [92; 110]
   else if c =? 12 then [92; 102]
   else if c =? 13 then [92; 114]
   else if c =? 34 then [92; 34]
   else if c =? 92 then [92; 92]
   else if c <? 32 then unicode_escape c
   else [c])%N.

(** QuoteJSONString between the quotes: a surrogate pair is written as it
    is, a lone surrogate as a [\u] escape. *)
Fixpoint quote_body (s : jsstring) : jsstring :=
  match s with
  | [] => []
  | c :: r =>
      if is_high_surrogate c then
        match r with
        | c2 :: r2 =>
            if is_low_surrogate c2 then c :: c2 :: quote_body r2
            else unicode_escape c ++ quote_body r
        | [] => unicode_escape c
        end
      else if is_low_surrogate c then unicode_escape c ++ quote_body r
      else quote_char c ++ quote_body r
  end.

Definition quote (s : jsstring) : jsstring := 34%N :: quote_body s ++ [34%N].

(** A finite Number is written by Number::toString, [NaN] and the
    infinities as [null]. *)
Definition stringify_number (x : Number) : jsstring :=
  match x with
  | S754_nan | S754_infinity _ => js "null"
  | _ => NumberToString x
  end.

(** [JSON.stringify(value)] without indentation: members and elements are
    separated by a comma, a key from its value by a colon. *)
Fixpoint JSON_stringify (v : Value) : jsstring :=
  match v with
  | JNull => js "null"
  | JBool b => if b then js "true" else js "false"
  | JNum x => stringify_number x
  | JStr s => quote s
  | JArr l =>
      let fix elements (l : list Value) : jsstring :=
        match l with
        | [] => []
        | [x] => JSON_stringify x
        | x :: r => JSON_stringify x ++ 44%N :: elements r
        end in
      91%N :: elements l ++ [93%N]
  | JObj l =>
      let fix members (l : list (jsstring * Value)) : jsstring :=
        match l with
        | [] => []
        | [(k, x)] => quote k ++ 58%N :: JSON_stringify x
        | (k, x) :: r => quote k ++ 58%N :: JSON_stringify x ++ 44%N :: members r
        end in
      123%N :: members l ++ [125%N]
  end.

(** The text between the brackets of an array. *)
Fixpoint stringify_elements (l : list Value) : jsstring :=
  match l with
  | [] => []
  | [x] => JSON_stringify x
  | x :: r => JSON_stringify x ++ 44%N :: stringify_elements r
  end.

(** *** JSON.parse *)

(** JSON white space: tab, line feed, carriage return, space. *)
Definition is_json_ws (c : N) : bool :=
  ((c =? 9) || (c =? 10) || (c =? 13) || (c =? 32))%N.

Definition skip_ws (s : jsstring) : jsstring := snd (span is_json_ws s).

Definition hex_value (c : N) : option N :=
  (if (48 <=? c) && (c <=? 57) then Some (c - 48)
   else if (97 <=? c) && (c <=? 102) then Some (c - 87)
   else if (65 <=? c) && (c <=? 70) then Some (c - 55)
   else None)%N.

(** The code unit of a one-letter escape. *)
Definition unescape (c : N) : option N :=
  (if c =? 34 then Some 34
   else if c =? 92 then Some 92
   else if c =? 47 then Some 47
   else if c =? 98 then Some 8
   else if c =? 102 then Some 12
   else if c =? 110 then Some 10
   else if c =? 114 then Some 13
   else if c =? 116 then Some 9
   else None)%N.

Definition cons_result (c : N) (r : option (jsstring * jsstring))
  : option (jsstring * jsstring) :=
  match r with
  | Some (s, rest) => Some (c :: s, rest)
  | None => None
  end.

(** A string after its opening quote, up to and with the closing quote:
    the string's value and the rest of the text.  A control character
    (below U+0020) must be escaped. *)
Fixpoint parse_string_body (s : jsstring) : option (jsstring * jsstring) :=
  match s with
  | [] => None
  | c :: r =>
      if (c =? 34)%N then Some ([], r)
      else if (c =? 92)%N then
        match r with
        | [] => None
        | e :: r' =>
            if (e =? 117)%N then
              match r' with
              | h1 :: h2 :: h3 :: h4 :: r'' =>
                  match hex_value h1, hex_value h2, hex_value h3, hex_value h4 with
                  | Some a, Some b, Some c', Some d =>
                      cons_result (4096 * a + 256 * b + 16 * c' + d)%N
                        (parse_string_body r'')
                  | _, _, _, _ => None
                  end
              | _ => None
              end
            else
              match unescape e with
              | Some c' => cons_result c' (parse_string_body r')
              | None => None
              end
        end
      else if (c <? 32)%N then None
      else cons_result c (parse_string_body r)
  end.

(** One JSON value at the head of the text (white space skipped first),
    and the rest of the text.  [fuel] bounds the nesting and the number of
    elements and members; [JSON_parse] gives more than a text can use. *)
Fixpoint parse_value (fuel : nat) (s : jsstring) : option (Value * jsstring) :=
  match fuel with
  | O => None
  | S fuel' =>
      match skip_ws s with
      | [] => None
      | c :: r =>
          if (c =? 34)%N then
            match parse_string_body r with
            | Some (str, rest) => Some (JStr str, rest)
            | None => None
            end
          else if (c =? 91)%N then
            match skip_ws r with
            | 93%N :: rest => Some (JArr [], rest)
            | _ =>
                match parse_elements fuel' r with
                | Some (l, rest) => Some (JArr l, rest)
                | None => None
                end
            end
          else if (c =? 123)%N then
            match skip_ws r with
            | 125%N :: rest => Some (JObj [], rest)
            | _ =>
                match parse_members fuel' r with
                | Some (l, rest) => Some (JObj l, rest)
                | None => None
                end
            end
          else if (c =? 110)%N then
            match starts_with (js "ull") r with
            | Some rest => Some (JNull, rest)
            | None => None
            end
          else if (c =? 116)%N then
            match starts_with (js "rue") r with
            | Some rest => Some (JBool true, rest)
            | None => None
            end
          else if (c =? 102)%N then
            match starts_with (js "alse") r with
            | Some rest => Some (JBool false, rest)
            | None => None
            end
          else
            match lex_number (c :: r) with
            | Some (x, rest) => Some (JNum x, rest)
            | None => None
            end
      end
  end

(** The elements of an array after [\[], up to and with the closing [\]]. *)
with parse_elements (fuel : nat) (s : jsstring) : option (list Value * jsstring) :=
  match fuel with
  | O => None
  | S fuel' =>
      match parse_value fuel' s with
      | None => None
      | Some (v, r) =>
          match skip_ws r with
          | 93%N :: rest => Some ([v], rest)
          | 44%N :: r' =>
              match parse_elements fuel' r' with
              | Some (l, rest) => Some (v :: l, rest)
              | None => None
              end
          | _ => None
          end
      end
  end

(** The members of an object after [{], up to and with the closing [}]. *)
with parse_members (fuel : nat) (s : jsstring)
  : option (list (jsstring * Value) * jsstring) :=
  match fuel with
  | O => None
  | S fuel' =>
      match skip_ws s with
      | 34%N :: r =>
          match parse_string_body r with
          | None => None
          | Some (k, r1) =>
              match skip_ws r1 with
              | 58%N :: r2 =>
                  match parse_value fuel' r2 with
                  | None => None
                  | Some (v, r3) =>
                      match skip_ws r3 with
                      | 125%N :: rest => Some ([(k, v)], rest)
                      | 44%N :: r4 =>
                          match parse_members fuel' r4 with
                          | Some (l, rest) => Some ((k, v) :: l, rest)
                          | None => None
                          end
                      | _ => None
                      end
                  end
              | _ => None
              end
          end
      | _ => None
      end
  end.

(** The exception [JSON.parse] throws. *)
Inductive Exception : Type := SyntaxError.

(** What a call returns: a value, or the exception it throws. *)
Inductive Result (A : Type) : Type :=
  | Returns (a : A)
  | Throws (error : Exception).

Arguments Returns {A} a.
Arguments Throws {A} error.

(** [JSON.parse(text)]: the value of the text, which must be one JSON value
    with white space around it at most; a SyntaxError otherwise.  Every
    nested call of the parser reads a character at least, so twice the
    length of the text is fuel enough. *)
Definition JSON_parse (text : jsstring) : Result Value :=
  match parse_value (2 * length text + 2) text with
  | Some (v, rest) =>
      if is_nil (skip_ws rest) then Returns v else Throws SyntaxError
  | None => Throws SyntaxError
  end.

(** ** localStorage *)

(** The stored key-value pairs; keys and values are strings.  Writes are
    taken to succeed (the script does not handle a full store). *)
Definition Storage := list (jsstring * jsstring).

(** [localStorage.getItem(key)]; [None] stands for [null]. *)
Fixpoint getItem (store : Storage) (key : jsstring) : option jsstring :=
  match store with
  | [] => None
  | (k, v) :: r => if k === key then Some v else getItem r key
  end.

(** [localStorage.setItem(key, value)]. *)
Fixpoint setItem (store : Storage) (key value : jsstring) : Storage :=
  match store with
  | [] => [(key, value)]
  | (k, v) :: r =>
      if k === key then (key, value) :: r else (k, v) :: setItem r key value
  end.

(** ** The cart *)

(** A line item, as [addToCart] builds it.  The quantity is an integer
    Number; it is kept as the integer it stands for, which is exact
    between -2^53 and 2^53. *)
Record CartItem : Type := mkItem {
  id : jsstring;
  name : jsstring;
  price : Number;
  image : jsstring;
  quantity : Z
}.

Definition Cart := list CartItem.

(** [quantity++] on a quantity of the data model, an integer from 1 to
    2^53: adding 1 is exact below 2^53; at 2^53 the sum is rounded back to
    2^53.  Lemma [increment_is_addition] below relates it to the addition
    of Numbers on that range.  Above 2^53 the function is not the Number
    operation (which takes 2^53+2 to 2^53+4); the properties keep the
    quantities within the range. *)
Definition increment (q : Z) : Z := if q <? 2 ^ 53 then q + 1 else q.

(** [quantity--], exact for the quantities it is applied to (above 1, up
    to 2^53); see [decrement_is_subtraction].  The test [quantity > 1] is
    the comparison of integers, see [greater_than_one].  Above 2^53 the
    function is not the Number operation. *)
Definition decrement (q : Z) : Z := q - 1.

Definition set_quantity (q : Z) (item : CartItem) : CartItem :=
  {| id := id item; name := name item; price := price item;
     image := image item; quantity := q |}.

(** *** Array methods *)

(** [array.findIndex(p)]: the index of the first element satisfying [p],
    or -1. *)
Fixpoint findIndex {A : Type} (p : A -> bool) (l : list A) : Z :=
  match l with
  | [] => -1
  | x :: r =>
      if p x then 0
      else let i := findIndex p r in if i <? 0 then -1 else i + 1
  end.

(** The array after [array[i] = f(array[i])], for an index within it. *)
Fixpoint update_at {A : Type} (i : nat) (f : A -> A) (l : list A) : list A :=
  match l, i with
  | [], _ => []
  | x :: r, O => f x :: r
  | x :: r, S i' => x :: update_at i' f r
  end.

(** The array after the object [array.find(p)] returned has been changed by
    [f]: [find] returns the first element satisfying [p] itself, not a
    copy, so the change is seen in the array. *)
Fixpoint update_found {A : Type} (p : A -> bool) (f : A -> A) (l : list A) : list A :=
  match l with
  | [] => []
  | x :: r => if p x then f x :: r else x :: update_found p f r
  end.

(** [array.slice(from, to)] for [from], [to] not negative. *)
Definition slice {A : Type} (from to : Z) (l : list A) : list A :=
  skipn (Z.to_nat from) (firstn (Z.to_nat to) l).

(** *** The cart as a JSON value *)

Definition item_value (item : CartItem) : Value :=
  JObj [(js "id", JStr (id item));
        (js "name", JStr (name item));
        (js "price", JNum (price item));
        (js "image", JStr (image item));
        (js "quantity", JNum (Z2Num (quantity item)))].

Definition cart_value (cart : Cart) : Value := JArr (map item_value cart).

(** Property access on an object read from JSON text: of several members
    with one key the last one counts. *)
Fixpoint get (members : list (jsstring * Value)) (key : jsstring) : option Value :=
  match members with
  | [] => None
  | (k, v) :: r =>
      match get r key with
      | Some v' => Some v'
      | None => if k === key then Some v else None
      end
  end.

(** The line item a value is, read property by property. *)
Definition value_item (v : Value) : option CartItem :=
  match v with
  | JObj m =>
      match get m (js "id"), get m (js "name"), get m (js "price"),
            get m (js "image"), get m (js "quantity") with
      | Some (JStr i), Some (JStr n), Some (JNum p), Some (JStr im), Some (JNum q) =>
          match Num2Z q with
          | Some z => Some (mkItem i n p im z)
          | None => None
          end
      | _, _, _, _, _ => None
      end
  | _ => None
  end.

Fixpoint value_items (l : list Value) : option Cart :=
  match l with
  | [] => Some []
  | v :: r =>
      match value_item v, value_items r with
      | Some item, Some items => Some (item :: items)
      | _, _ => None
      end
  end.

Definition value_cart (v : Value) : option Cart :=
  match v with
  | JArr l => value_items l
  | _ => None
  end.

(** *** The page state and its persistence *)

(** The script's [cart] variable and the browser's store. *)
Record State : Type := mkState {
  cart : Cart;
  localStorage : Storage
}.

(** [saveCart()]: the cart's JSON text goes under the key 'cart'.  (The
    item count it also refreshes in the navigation bar is display only.) *)
Definition saveCart (st : State) : State :=
  {| cart := cart st;
     localStorage :=
       setItem (localStorage st) (js "cart") (JSON_stringify (cart_value (cart st))) |}.

(** The script's first statement on the cart,
    [JSON.parse(localStorage.getItem('cart')) || \[\]]: a missing entry is
    [null], which [JSON.parse] reads as the text ["null"]; a falsy value
    is replaced by the empty array; an exception of [JSON.parse] is not
    caught. *)
Definition load (store : Storage) : Result Value :=
  let text :=
    match getItem store (js "cart") with
    | Some s => s
    | None => js "null"
    end in
  match JSON_parse text with
  | Returns v => Returns (if truthy v then v else JArr [])
  | Throws e => Throws e
  end.

(** *** The cart engine *)

(** [addToCart(productId, name, price, image)]; the confirmation message it
    shows is display only. *)
Definition addToCart (productId name price image : jsstring) (st : State) : State :=
  let existingItemIndex := findIndex (fun item => id item === productId) (cart st) in
  let cart' :=
    if existingItemIndex >? -1 then
      update_at (Z.to_nat existingItemIndex)
        (fun item => set_quantity (increment (quantity item)) item) (cart st)
    else
      cart st ++ [ {| id := productId; name := name; price := parseFloat price;
                      image := image; quantity := 1 |} ] in
  saveCart {| cart := cart'; localStorage := localStorage st |}.

(** The click handler of a row's remove button, for the id it reads from
    the button's [data-id]. *)
Definition removeClick (idToRemove : jsstring) (st : State) : State :=
  saveCart {| cart := filter (fun item => negb (id item === idToRemove)) (cart st);
              localStorage := localStorage st |}.

(** The class of a quantity button. *)
Inductive QuantityButton : Type := increase | decrease.

(** The click handler of a row's quantity buttons. *)
Definition quantityClick (button : QuantityButton) (idToUpdate : jsstring)
    (st : State) : State :=
  let found := fun item => id item === idToUpdate in
  match find found (cart st) with
  | Some item =>
      let cart' :=
        match button with
        | increase =>
            update_found found (set_quantity (increment (quantity item))) (cart st)
        | decrease =>
            if quantity item >? 1 then
              update_found found (set_quantity (decrement (quantity item))) (cart st)
            else
              filter (fun i => negb (id i === idToUpdate)) (cart st)
        end in
      saveCart {| cart := cart'; localStorage := localStorage st |}
  | None => st
  end.

(** The click handler of the checkout button. *)
Definition checkoutClick (st : State) : State :=
  if (0 <? length (cart st))%nat then
    saveCart {| cart := []; localStorage := localStorage st |}
  else st.

(** The operations of the cart engine. *)
Inductive Operation : Type :=
  | Add (productId name price image : jsstring)
  | Increment (productId : jsstring)
  | Decrement (productId : jsstring)
  | Remove (productId : jsstring)
  | Clear.

Definition step (st : State) (op : Operation) : State :=
  match op with
  | Add productId name price image => addToCart productId name price image st
  | Increment productId => quantityClick increase productId st
  | Decrement productId => quantityClick decrease productId st
  | Remove productId => removeClick productId st
  | Clear => checkoutClick st
  end.

Definition run (ops : list Operation) (st : State) : State := fold_left step ops st.

(** *** renderCart *)

(** What [renderCart] shows: the CSS display of the empty-cart message, the
    subtotal and total texts, whether the checkout button is disabled, and
    for each row the item's total price text. *)
Record CartView : Type := mkView {
  emptyCartMessage_display : jsstring;
  cartTotalSubtotal : jsstring;
  cartTotal : jsstring;
  checkoutButton_disabled : bool;
  itemTotalPrices : list jsstring
}.

(** The literal [5.00]. *)
Definition SHIPPING_COST : Number := decimal_to_number 500 (-2).

(** The loop over the items: it adds the Number of each item's total price
    text to [subtotal] and appends the item's row. *)
Fixpoint render_items (items : Cart) (subtotal : Number) (rows : list jsstring)
  : Number * list jsstring :=
  match items with
  | [] => (subtotal, rows)
  | item :: rest =>
      let itemTotalPrice := toFixed (nmul (price item) (Z2Num (quantity item))) 2 in
      render_items rest (nadd subtotal (parseFloat itemTotalPrice))
        (rows ++ [itemTotalPrice])
  end.

Definition renderCart (cart : Cart) : CartView :=
  if (length cart =? 0)%nat then
    {| emptyCartMessage_display := js "block";
       cartTotalSubtotal := js "0.00";
       cartTotal := js "0.00";
       checkoutButton_disabled := true;
       itemTotalPrices := [] |}
  else
    let (subtotal, rows) := render_items cart (S754_zero false) [] in
    let total := toFixed (nadd subtotal SHIPPING_COST) 2 in
    {| emptyCartMessage_display := js "none";
       cartTotalSubtotal := toFixed subtotal 2;
       cartTotal := total;
       checkoutButton_disabled := false;
       itemTotalPrices := rows |}.

(** ** The catalog listings *)

(** A record of the product API: an object with optional properties. *)
Definition ProductRecord := list (jsstring * Value).

(** Is the property there with a truthy value?  A missing property is
    [undefined], which is falsy. *)
Definition present (p : ProductRecord) (key : jsstring) : bool :=
  match get p key with
  | Some v => truthy v
  | None => false
  end.

Definition featured_admits (p : ProductRecord) : bool :=
  present p (js "product_name") && present p (js "image_url") && present p (js "brands").

Definition general_admits (p : ProductRecord) : bool :=
  present p (js "product_name") && present p (js "image_url").

(** The records [fetchFeaturedProducts] makes cards of, from the
    [products] array of the response. *)
Definition fetchFeaturedProducts (data_products : list ProductRecord)
  : list ProductRecord :=
  let products := filter featured_admits data_products in
  if (length products =? 0)%nat then [] else slice 0 4 products.

(** The records [fetchAllProducts] makes cards of. *)
Definition fetchAllProducts (data_products : list ProductRecord)
  : list ProductRecord :=
  let products := filter general_admits data_products in
  let productsToDisplay :=
    slice 0 (Z.min (Z.of_nat (length products)) 20) products in
  if (length productsToDisplay =? 0)%nat then [] else productsToDisplay.

(** ** The rest of the script *)

(** *** The item count in the navigation bar *)

(** [totalItems] of [updateCartCount]: the quantities added up from 0, in
    the order of the cart. *)
Definition totalItems (cart : Cart) : Number :=
  fold_left (fun sum item => nadd sum (Z2Num (quantity item))) cart (S754_zero false).

(** [updateCartCount()]: the text the count element gets. *)
Definition updateCartCount (cart : Cart) : jsstring := NumberToString (totalItems cart).

(** The sum of the quantities, as an integer. *)
Definition total_quantity (cart : Cart) : Z :=
  fold_right (fun item sum => quantity item + sum) 0 cart.

(** *** Product cards *)

(** [a || fallback] for a property [a] of a record: the property's value
    when it is there and truthy, the fallback otherwise. *)
Definition or_else (a : option Value) (fallback : Value) : Value :=
  match a with
  | Some v => if truthy v then v else fallback
  | None => fallback
  end.

(** What [createProductCard] works out for a record before it writes the
    card's markup. *)
Record ProductCard : Type := mkCard {
  productName : Value;
  brand : Value;
  imageUrl : Value;
  productId : Value;
  card_price : jsstring
}.

Definition placeholder_image : jsstring :=
  js "https://placehold.co/150x150/e9ecef/495057?text=No+Image".

(** [createProductCard(product)].  Its two random draws are arguments: the
    characters [Math.random().toString(36).substring(2, 11)] gave, and the
    text [getRandomPrice()] returned. *)
Definition createProductCard (product : ProductRecord) (random_id random_price : jsstring)
  : ProductCard :=
  {| productName := or_else (get product (js "product_name")) (JStr (js "Unknown Product"));
     brand := or_else (get product (js "brands")) (JStr (js "Unknown Brand"));
     imageUrl :=
       or_else (get product (js "image_url"))
         (or_else (get product (js "image_small_url")) (JStr placeholder_image));
     productId := or_else (get product (js "code")) (JStr (js "prod-" ++ random_id));
     card_price := random_price |}.

(** *** The target of a click on a remove button *)





(** *** The listings with their fetch *)













(** *** The contact form *)

(** [string.trim()]. *)
Definition trim (s : jsstring) : jsstring := rev (trim_start (rev (trim_start s))).

(** The pieces of a pattern: one given character, or one or more
    characters of a class. *)
Inductive Piece : Type :=
  | One (c : N)
  | Many (class : N -> bool).

(** Does the whole string match the pieces in a row ([^] ... [$])?  For
    [Many], every number of characters is tried. *)
Fixpoint matches (pattern : list Piece) (s : jsstring) : bool :=
  match pattern with
  | [] => is_nil s
  | One c :: rest =>
      match s with
      | d :: s' => (c =? d)%N && matches rest s'
      | [] => false
      end
  | Many class :: rest =>
      (fix many (s : jsstring) : bool :=
         match s with
         | [] => false
         | d :: s' => class d && (many s' || matches rest s')
         end) s
  end.

(** The class [[^\s@]]. *)
Definition not_space_at (c : N) : bool := negb (is_str_whitespace c) && negb (c =? 64)%N.

(** [/^[^\s@]+@[^\s@]+\.[^\s@]+$/]. *)
Definition emailPattern : list Piece :=
  [Many not_space_at; One 64%N; Many not_space_at; One 46%N; Many not_space_at].

(** What [validateForm] leaves: the three error texts and its result. *)
Record Validation : Type := mkValidation {
  nameError : jsstring;
  emailError : jsstring;
  messageError : jsstring;
  isValid : bool
}.

(** [validateForm()] on the values of the three inputs. *)
Definition validateForm (nameInput emailInput messageInput : jsstring) : Validation :=
  let name_empty := trim nameInput === [] in
  let email_empty := trim emailInput === [] in
  let email_bad := negb (matches emailPattern (trim emailInput)) in
  let message_empty := trim messageInput === [] in
  {| nameError := if name_empty then js "Name is required." else [];
     emailError :=
       if email_empty then js "Email is required."
       else if email_bad then js "Please enter a valid email address."
       else [];
     messageError := if message_empty then js "Message is required." else [];
     isValid :=
       negb name_empty && negb (email_empty || email_bad) && negb message_empty |}.

(** The contact page as the handlers see it: the values of the three
    inputs, the values the page gave them at first (to which [reset] brings
    them back), the three error texts and the display of the success
    message. *)
Record ContactForm : Type := mkForm {
  name_value : jsstring;
  email_value : jsstring;
  message_value : jsstring;
  name_default : jsstring;
  email_default : jsstring;
  message_default : jsstring;
  errors : Validation;
  formSuccessMessage_display : jsstring
}.

(** The input handler: [validateForm] writes the three error texts. *)
Definition input (form : ContactForm) : ContactForm :=
  {| name_value := name_value form; email_value := email_value form;
     message_value := message_value form;
     name_default := name_default form; email_default := email_default form;
     message_default := message_default form;
     errors := validateForm (name_value form) (email_value form) (message_value form);
     formSuccessMessage_display := formSuccessMessage_display form |}.

(** [contactForm.reset()]: every input goes back to its first value. *)
Definition reset (form : ContactForm) : ContactForm :=
  {| name_value := name_default form; email_value := email_default form;
     message_value := message_default form;
     name_default := name_default form; email_default := email_default form;
     message_default := message_default form;
     errors := errors form;
     formSuccessMessage_display := formSuccessMessage_display form |}.

Definition show_success (form : ContactForm) : ContactForm :=
  {| name_value := name_value form; email_value := email_value form;
     message_value := message_value form;
     name_default := name_default form; email_default := email_default form;
     message_default := message_default form;
     errors := errors form;
     formSuccessMessage_display := js "block" |}.

(** The submit handler, up to the moment it returns (the timer that hides
    the success message fires later): the form is validated, and a valid
    one shows the success message and is reset. *)
Definition submit (form : ContactForm) : ContactForm :=
  let validated := input form in
  if isValid (errors validated) then reset (show_success validated) else validated.

(** ** The specification's wording, for comparison with the code *)

(** The totals in the decimal arithmetic of the specification: amounts are
    counted in cents, exactly.  [rounded x k] is the value of the Number
    [x] times the integer [k], rounded to the nearest integer, the one
    larger in magnitude on a tie; the value is the fraction the Number
    stands for.  (A Number that is not finite stands for no decimal
    number; it counts as 0.) *)
Definition rounded (x : Number) (k : Z) : Z :=
  match x with
  | S754_finite s m e =>
      let (num, den) := fraction m e in
      let n := (2 * num * k + den) / (2 * den) in
      if s then - n else n
  | _ => 0
  end.

(** An item's price times its quantity, rounded to two decimal places: an
    amount of cents. *)
Definition line_cents (item : CartItem) : Z :=
  rounded (price item) (100 * quantity item).

(** The sum of the rounded line totals. *)
Definition subtotal_cents (cart : Cart) : Z :=
  fold_right (fun item sum => line_cents item + sum) 0 cart.

(** An amount of cents written with two decimal places. *)
Definition decimal_text (cents : Z) : jsstring :=
  if cents <? 0 then 45%N :: fixed_digits (Z.to_N (- cents)) 2
  else fixed_digits (Z.to_N cents) 2.


Definition specified_total (cart : Cart) : jsstring :=
  decimal_text (subtotal_cents cart + 500).


(** The stored text is the serialization of the cart in memory. *)
Definition persisted (st : State) : Prop :=
  getItem (localStorage st) (js "cart") = Some (JSON_stringify (cart_value (cart st))).

(** The stored cart text cannot be parsed. *)
Definition unparseable (store : Storage) : Prop :=
  exists text error,
    getItem store (js "cart") = Some text /\ JSON_parse text = Throws error.

(** The loading contract as the specification words it: an empty cart,
    without raising, whenever the stored value is absent or unparseable. *)
Definition load_as_specified (store : Storage) : Prop :=
  getItem store (js "cart") = None \/ unparseable store ->
  load store = Returns (JArr []).

(** The line items with a given id. *)
Definition items_with (productId : jsstring) (cart : Cart) : Cart :=
  filter (fun item => id item === productId) cart.

(** No two line items share an id, and every quantity is 1 at least (and
    within the range in which integer Numbers are exact). *)
Definition cart_invariant (cart : Cart) : Prop :=
  NoDup (map id cart) /\ Forall (fun item => 1 <= quantity item <= 2 ^ 53) cart.

(** A Number that is a decimal number: finite (a valid binary64 value) and
    not the negative zero. *)
Definition is_decimal (x : Number) : bool :=
  match x with
  | S754_zero s => negb s
  | S754_finite _ m e => bounded prec emax m e
  | _ => false
  end.

(** A line item of the data model: a decimal price, an integer quantity of
    1 at least (up to 2^53, from where on integers are no longer exact). *)
Definition item_storable (item : CartItem) : Prop :=
  is_decimal (price item) = true /\ 1 <= quantity item <= 2 ^ 53.

Definition cart_storable (cart : Cart) : Prop := Forall item_storable cart.

(** A price with two decimal places: the Number of its amount of cents
    (what [parseFloat] makes of the text of such a price). *)
Definition cent_amount (x : Number) : bool :=
  Number_eqb x (decimal_to_number (Z.to_N (rounded x 100)) (-2)).

(** A line item priced in cents, with a quantity of the data model. *)
Definition item_priced (item : CartItem) : Prop :=
  cent_amount (price item) = true /\ 1 <= quantity item <= 2 ^ 53.

Definition cart_priced (cart : Cart) : Prop := Forall item_priced cart.


(** *** Conditions used in the further properties *)

(** Every price an add is called with is the text of a decimal number. *)
Definition prices_decimal (ops : list Operation) : Prop :=
  Forall (fun op =>
            match op with
            | Add _ _ price _ => is_decimal (parseFloat price) = true
            | _ => True
            end) ops.

(** A string of the class [[^\s@]], one character at least. *)
Definition email_part (s : jsstring) : Prop := s <> [] /\ forallb not_space_at s = true.

(** *** Rounding, for the proofs about the totals *)

(** The fraction [N/D] lies in [[m, m+1)], [m] the mantissa of the
    record, and the two bits of the record tell where: at [m], below the
    middle, at the middle, above it. *)
Definition located (mrs : shr_record) (N D : Z) : Prop :=
  0 < D /\ 0 <= shr_m mrs /\
  shr_m mrs * D <= N < (shr_m mrs + 1) * D /\
  match shr_r mrs, shr_s mrs with
  | false, false => N = shr_m mrs * D
  | false, true => shr_m mrs * D < N /\ 2 * N < (2 * shr_m mrs + 1) * D
  | true, false => 2 * N = (2 * shr_m mrs + 1) * D
  | true, true => (2 * shr_m mrs + 1) * D < 2 * N
  end.

(** The value of a Number that is not negative, in units of 2^-1074 (an
    integer for every binary64 value). *)
Definition scaled (x : Number) : Z :=
  match x with
  | S754_finite false m e => Zpos m * 2 ^ (e + 1074)
  | _ => 0
  end.

(** A positive normal Number: a mantissa of 53 bits. *)
Definition normal (x : Number) : Prop :=
  exists m e, x = S754_finite false m e /\ Zpos (digits2_pos m) = 53 /\ -1074 <= e <= 971.

(** Zero or a positive normal Number. *)
Definition regular (x : Number) : Prop := x = S754_zero false \/ normal x.

(** ** Properties *)

(** Linear arithmetic with division and remainder by constants. *)
Ltac dlia := zify; Z.to_euclidean_division_equations; lia.

(** *** The built-ins on known values *)

Example parseFloat_decimal :
  parseFloat (js "3.33") = S754_finite false 7498493379571876 (-51).
Proof. reflexivity. Qed.

Example parseFloat_prefix : parseFloat (js "  12.5px") = parseFloat (js "12.5").
Proof. reflexivity. Qed.

Example parseFloat_no_number : parseFloat (js "abc") = NaN.
Proof. reflexivity. Qed.

Example toString_sum :
  NumberToString (nadd (parseFloat (js "0.1")) (parseFloat (js "0.2")))
  = js "0.30000000000000004".
Proof. vm_compute. reflexivity. Qed.

Example toString_exponent : NumberToString (parseFloat (js "1000000000000000000000")) = js "1e+21".
Proof. vm_compute. reflexivity. Qed.

Example toString_small : NumberToString (parseFloat (js "0.0000001")) = js "1e-7".
Proof. vm_compute. reflexivity. Qed.

Example toFixed_below_half : toFixed (parseFloat (js "1.005")) 2 = js "1.00".
Proof. vm_compute. reflexivity. Qed.

Example toFixed_line_total : toFixed (nmul (parseFloat (js "3.33")) (Z2Num 3)) 2 = js "9.99".
Proof. vm_compute. reflexivity. Qed.

Example toFixed_negative : toFixed (parseFloat (js "-0.004")) 2 = js "-0.00".
Proof. vm_compute. reflexivity. Qed.

Example JSON_parse_null : JSON_parse (js "null") = Returns JNull.
Proof. reflexivity. Qed.

Example JSON_parse_nested :
  JSON_parse (js " [1, [true, null], {}] ")
  = Returns (JArr [JNum (Z2Num 1); JArr [JBool true; JNull]; JObj []]).
Proof. vm_compute. reflexivity. Qed.

Example JSON_parse_trailing_comma : JSON_parse (js "[1,]") = Throws SyntaxError.
Proof. reflexivity. Qed.

Example JSON_stringify_not_finite :
  JSON_stringify (JArr [JNum NaN; JNum (S754_infinity false)]) = js "[null,null]".
Proof. reflexivity. Qed.

Example increment_saturates : increment (2 ^ 53) = 2 ^ 53 /\ increment 1 = 2.
Proof. split; reflexivity. Qed.

(** *** Strings and arrays *)

Lemma str_eqb_eq (a b : jsstring) : a === b = true <-> a = b.
Proof.
  revert b; induction a as [|x a IH]; intros [|y b]; simpl; split;
    try congruence; try reflexivity.
  - intros H. apply andb_true_iff in H as [Hx Hr].
    apply N.eqb_eq in Hx. apply IH in Hr. congruence.
  - intros H. injection H as -> ->.
    rewrite N.eqb_refl. simpl. apply IH. reflexivity.
Qed.

Lemma str_eqb_refl (a : jsstring) : a === a = true.
Proof. apply str_eqb_eq. reflexivity. Qed.

Lemma str_eqb_neq (a b : jsstring) : a === b = false <-> a <> b.
Proof.
  split.
  - intros H E. apply str_eqb_eq in E. congruence.
  - intros H. destruct (a === b) eqn:E; [|reflexivity].
    apply str_eqb_eq in E. contradiction.
Qed.

Lemma findIndex_lower {A : Type} (p : A -> bool) (l : list A) :
  -1 <= findIndex p l.
Proof.
  induction l as [|x r IH]; simpl; [lia|].
  destruct (p x); [lia|].
  destruct (findIndex p r <? 0) eqn:E; lia.
Qed.

(** [findIndex] and [find] agree on whether there is a match. *)
Lemma findIndex_find {A : Type} (p : A -> bool) (l : list A) :
  (findIndex p l >? -1) = match find p l with Some _ => true | None => false end.
Proof.
  induction l as [|x r IH]; simpl; [reflexivity|].
  destruct (p x); [reflexivity|].
  pose proof (findIndex_lower p r) as Hl.
  destruct (find p r).
  - destruct (findIndex p r <? 0) eqn:E; [|lia].
    apply Z.ltb_lt in E. apply Z.gtb_lt in IH. lia.
  - destruct (findIndex p r <? 0) eqn:E; [reflexivity|].
    apply Z.ltb_ge in E.
    assert ((findIndex p r >? -1) = true) by (apply Z.gtb_lt; lia). congruence.
Qed.

(** Writing at the index [findIndex] returns changes the element [find]
    returns. *)
Lemma update_at_findIndex {A : Type} (p : A -> bool) (f : A -> A) (l : list A) :
  (findIndex p l >? -1) = true ->
  update_at (Z.to_nat (findIndex p l)) f l = update_found p f l.
Proof.
  induction l as [|x r IH]; simpl; [reflexivity|].
  destruct (p x) eqn:Hp; [reflexivity|].
  pose proof (findIndex_lower p r) as Hl.
  destruct (findIndex p r <? 0) eqn:E; [discriminate|].
  apply Z.ltb_ge in E. intros _.
  replace (Z.to_nat (findIndex p r + 1)) with (S (Z.to_nat (findIndex p r))) by lia.
  simpl. rewrite IH; [reflexivity|]. apply Z.gtb_lt. lia.
Qed.

Lemma find_none_forall {A : Type} (p : A -> bool) (l : list A) :
  find p l = None -> forall x, In x l -> p x = false.
Proof. intros H x Hx. exact (find_none p l H x Hx). Qed.

Lemma update_found_map {A B : Type} (p : A -> bool) (f : A -> A) (g : A -> B)
    (l : list A) :
  (forall x, g (f x) = g x) -> map g (update_found p f l) = map g l.
Proof.
  intros Hg. induction l as [|x r IH]; simpl; [reflexivity|].
  destruct (p x); simpl; [rewrite Hg; reflexivity|rewrite IH; reflexivity].
Qed.

Lemma update_found_Forall {A : Type} (p : A -> bool) (f : A -> A) (P : A -> Prop)
    (l : list A) :
  (forall x, In x l -> p x = true -> P x -> P (f x)) ->
  Forall P l -> Forall P (update_found p f l).
Proof.
  induction l as [|x r IH]; simpl; intros Hf Hall; [constructor|].
  inversion Hall as [|? ? Hx Hr]; subst.
  destruct (p x) eqn:Hp.
  - constructor; [apply Hf; auto|assumption].
  - constructor; [assumption|]. apply IH; [|assumption].
    intros y Hy. apply Hf. right. exact Hy.
Qed.

Lemma update_found_length {A : Type} (p : A -> bool) (f : A -> A) (l : list A) :
  length (update_found p f l) = length l.
Proof.
  induction l as [|x r IH]; simpl; [reflexivity|].
  destruct (p x); simpl; [reflexivity|rewrite IH; reflexivity].
Qed.

(** After the change the first match is the changed element, as long as
    the change keeps it a match. *)
Lemma find_update_found {A : Type} (p : A -> bool) (f : A -> A) (l : list A) x :
  find p l = Some x -> p (f x) = true -> find p (update_found p f l) = Some (f x).
Proof.
  induction l as [|y r IH]; simpl; [discriminate|].
  destruct (p y) eqn:Hp.
  - intros H Hf. injection H as ->. simpl. rewrite Hf. reflexivity.
  - intros H Hf. simpl. rewrite Hp. apply IH; assumption.
Qed.

Lemma NoDup_map_filter {A B : Type} (g : A -> B) (p : A -> bool) (l : list A) :
  NoDup (map g l) -> NoDup (map g (filter p l)).
Proof.
  induction l as [|x r IH]; simpl; intros H; [constructor|].
  inversion H as [|? ? Hx Hr]; subst.
  destruct (p x); simpl.
  - constructor; [|apply IH; assumption].
    intros Hin. apply Hx. apply in_map_iff in Hin as (y & Hy & Hin).
    apply filter_In in Hin as [Hin _]. apply in_map_iff. exists y. auto.
  - apply IH; assumption.
Qed.

Lemma Forall_filter {A : Type} (P : A -> Prop) (p : A -> bool) (l : list A) :
  Forall P l -> Forall P (filter p l).
Proof.
  intros H. apply Forall_forall. intros x Hx. apply filter_In in Hx as [Hx _].
  rewrite Forall_forall in H. auto.
Qed.

Lemma find_all_false {A : Type} (p : A -> bool) (l : list A) :
  (forall x, In x l -> p x = false) -> find p l = None.
Proof.
  induction l as [|x r IH]; simpl; intros H; [reflexivity|].
  rewrite (H x) by (left; reflexivity). apply IH. intros y Hy. apply H. right. exact Hy.
Qed.

Lemma find_app_none {A : Type} (p : A -> bool) (l l' : list A) :
  find p l = None -> find p (l ++ l') = find p l'.
Proof.
  induction l as [|x r IH]; simpl; [reflexivity|].
  destruct (p x); [discriminate|exact IH].
Qed.

Lemma update_found_app_none {A : Type} (p : A -> bool) (f : A -> A) (l l' : list A) :
  find p l = None -> update_found p f (l ++ l') = l ++ update_found p f l'.
Proof.
  induction l as [|x r IH]; simpl; [reflexivity|].
  destruct (p x); [discriminate|]. intros H. rewrite IH by exact H. reflexivity.
Qed.

Lemma filter_none {A : Type} (p : A -> bool) (l : list A) :
  find p l = None -> filter p l = [].
Proof.
  induction l as [|x r IH]; simpl; [reflexivity|].
  destruct (p x); [discriminate|exact IH].
Qed.

Lemma NoDup_snoc {A : Type} (l : list A) (x : A) :
  NoDup l -> ~ In x l -> NoDup (l ++ [x]).
Proof.
  induction l as [|y r IH]; simpl; intros Hnd Hx.
  - constructor; [intros []|constructor].
  - inversion Hnd as [|? ? Hy Hr]; subst. constructor.
    + intros Hin. apply in_app_or in Hin as [Hin|[->|[]]]; [contradiction|].
      apply Hx. left. reflexivity.
    + apply IH; [assumption|]. intros Hin. apply Hx. right. exact Hin.
Qed.

Lemma firstn_min_length {A : Type} (n : nat) (l : list A) :
  firstn (Nat.min (length l) n) l = firstn n l.
Proof.
  destruct (Nat.le_gt_cases (length l) n) as [H|H].
  - rewrite Nat.min_l by exact H. rewrite firstn_all, firstn_all2 by exact H. reflexivity.
  - rewrite Nat.min_r by lia. reflexivity.
Qed.

(** *** localStorage *)

Lemma getItem_setItem (store : Storage) (key value : jsstring) :
  getItem (setItem store key value) key = Some value.
Proof.
  induction store as [|[k v] r IH]; simpl.
  - rewrite str_eqb_refl. reflexivity.
  - destruct (k === key) eqn:E; simpl.
    + rewrite str_eqb_refl. reflexivity.
    + rewrite E. exact IH.
Qed.

Lemma persisted_saveCart (st : State) : persisted (saveCart st).
Proof. unfold persisted, saveCart. cbn [cart localStorage]. apply getItem_setItem. Qed.

Lemma cart_saveCart (st : State) : cart (saveCart st) = cart st.
Proof. reflexivity. Qed.

(** *** The cart engine *)

(** [addToCart] on the cart: the item [find] returns gets one more, or a
    new item is pushed. *)
Lemma addToCart_cart (productId n p im : jsstring) (st : State) :
  cart (addToCart productId n p im st) =
  match find (fun item => id item === productId) (cart st) with
  | Some _ =>
      update_found (fun item => id item === productId)
        (fun item => set_quantity (increment (quantity item)) item) (cart st)
  | None => cart st ++ [mkItem productId n (parseFloat p) im 1]
  end.
Proof.
  unfold addToCart. rewrite cart_saveCart. cbn [cart].
  pose proof (findIndex_find (fun item => id item === productId) (cart st)) as H.
  destruct (findIndex (fun item => id item === productId) (cart st) >? -1) eqn:E.
  - rewrite update_at_findIndex by exact E.
    destruct (find _ (cart st)); [reflexivity|discriminate].
  - destruct (find _ (cart st)); [discriminate|reflexivity].
Qed.

Lemma increment_range (q : Z) : 1 <= q <= 2 ^ 53 -> 1 <= increment q <= 2 ^ 53.
Proof.
  unfold increment. intros H. destruct (q <? 2 ^ 53) eqn:E; [|lia].
  apply Z.ltb_lt in E. lia.
Qed.

Lemma invariant_update (cart : Cart) (p : CartItem -> bool) (q' : CartItem -> Z) :
  (forall x, In x cart -> p x = true -> 1 <= q' x <= 2 ^ 53) ->
  cart_invariant cart ->
  cart_invariant (update_found p (fun x => set_quantity (q' x) x) cart).
Proof.
  intros Hq [Hnd Hall]. split.
  - rewrite update_found_map by reflexivity. exact Hnd.
  - apply update_found_Forall; [|exact Hall].
    intros x Hx Hp _. cbn [quantity set_quantity]. apply Hq; assumption.
Qed.

Lemma invariant_filter (cart : Cart) (p : CartItem -> bool) :
  cart_invariant cart -> cart_invariant (filter p cart).
Proof.
  intros [Hnd Hall]. split; [apply NoDup_map_filter|apply Forall_filter]; assumption.
Qed.

Lemma step_invariant (st : State) (op : Operation) :
  cart_invariant (cart st) -> cart_invariant (cart (step st op)).
Proof.
  intros Hinv. destruct op as [productId n p im|productId|productId|productId|]; cbn [step].
  - rewrite addToCart_cart.
    destruct (find (fun item => id item === productId) (cart st)) eqn:Hf.
    + apply (invariant_update (cart st) _ (fun x => increment (quantity x))); [|exact Hinv].
      intros x Hx _. apply increment_range.
      destruct Hinv as [_ Hall]. rewrite Forall_forall in Hall. apply Hall. exact Hx.
    + destruct Hinv as [Hnd Hall]. split.
      * rewrite map_app. simpl. apply NoDup_snoc; [exact Hnd|].
        intros Hin. apply in_map_iff in Hin as (x & Hx & Hin).
        pose proof (find_none_forall _ _ Hf x Hin) as Hneq. simpl in Hneq.
        apply str_eqb_neq in Hneq. contradiction.
      * apply Forall_app. split; [exact Hall|]. constructor; [|constructor].
        simpl. lia.
  - unfold quantityClick.
    destruct (find (fun item => id item === productId) (cart st)) as [item|] eqn:Hf;
      [|exact Hinv].
    rewrite cart_saveCart. cbn [cart].
    apply (invariant_update (cart st) _ (fun _ => increment (quantity item))); [|exact Hinv].
    intros _ _ _. apply increment_range.
    destruct Hinv as [_ Hall]. rewrite Forall_forall in Hall. apply Hall.
    apply find_some in Hf. tauto.
  - unfold quantityClick.
    destruct (find (fun item => id item === productId) (cart st)) as [item|] eqn:Hf;
      [|exact Hinv].
    rewrite cart_saveCart. cbn [cart].
    destruct (quantity item >? 1) eqn:Hq.
    + apply (invariant_update (cart st) _ (fun _ => decrement (quantity item))); [|exact Hinv].
      intros _ _ _. unfold decrement. apply Z.gtb_lt in Hq.
      destruct Hinv as [_ Hall]. rewrite Forall_forall in Hall.
      apply find_some in Hf. destruct Hf as [Hin _]. specialize (Hall item Hin).
      simpl in Hall. lia.
    + apply invariant_filter. exact Hinv.
  - unfold removeClick. rewrite cart_saveCart. cbn [cart].
    apply invariant_filter. exact Hinv.
  - unfold checkoutClick. destruct (0 <? length (cart st))%nat; [|exact Hinv].
    rewrite cart_saveCart. cbn [cart]. split; constructor.
Qed.

Lemma run_invariant (ops : list Operation) (st : State) :
  cart_invariant (cart st) -> cart_invariant (cart (run ops st)).
Proof.
  revert st. induction ops as [|op ops IH]; intros st Hinv; simpl; [exact Hinv|].
  apply IH. apply step_invariant. exact Hinv.
Qed.

(** C1. Whatever sequence of add, increment, decrement, remove and clear
    operations is run from an empty cart, no two line items of the
    resulting cart have the same id, and every line item has a quantity of
    1 at least. *)
Theorem cart_ids_unique_quantities_positive (ops : list Operation) (store : Storage) :
  let result := cart (run ops {| cart := []; localStorage := store |}) in
  NoDup (map id result) /\ Forall (fun item => 1 <= quantity item) result.
Proof.
  assert (H : cart_invariant (cart (run ops {| cart := []; localStorage := store |}))).
  { apply run_invariant. split; constructor. }
  destruct H as [Hnd Hall]. split; [exact Hnd|].
  eapply Forall_impl; [|exact Hall]. simpl. intros item Hq. lia.
Qed.

(** C5. On a cart with no line item of that id, add appends a line item
    with quantity 1; a second add with the same id (whatever name, price
    and image it is given) makes the quantity 2, and the cart then holds
    exactly one line item with that id. *)
Theorem add_fresh_then_again (st : State) (productId n p im n' p' im' : jsstring)
    (Hfresh : forall item, In item (cart st) -> id item <> productId) :
  let st1 := addToCart productId n p im st in
  let st2 := addToCart productId n' p' im' st1 in
  cart st1 = cart st ++ [mkItem productId n (parseFloat p) im 1] /\
  cart st2 = cart st ++ [mkItem productId n (parseFloat p) im 2] /\
  items_with productId (cart st2) = [mkItem productId n (parseFloat p) im 2].
Proof.
  assert (Hnone : find (fun item => id item === productId) (cart st) = None).
  { apply find_all_false. intros x Hx. apply str_eqb_neq. apply Hfresh. exact Hx. }
  cbv zeta. rewrite !addToCart_cart. rewrite Hnone.
  rewrite (find_app_none _ _ _ Hnone). cbn [find id]. rewrite str_eqb_refl.
  rewrite (update_found_app_none _ _ _ _ Hnone). cbn [update_found id]. rewrite str_eqb_refl.
  split; [reflexivity|]. split; [reflexivity|].
  unfold items_with. rewrite filter_app, (filter_none _ _ Hnone).
  cbn [filter id app]. rewrite str_eqb_refl. reflexivity.
Qed.

Lemma add_fresh_then_again_witness :
  let st := {| cart := [mkItem (js "Y") (js "Jam") (parseFloat (js "3.33")) (js "v") 3];
               localStorage := [] |} in
  let st2 := addToCart (js "X") (js "T") (js "1") (js "w")
               (addToCart (js "X") (js "Tea") (js "10.00") (js "u") st) in
  items_with (js "X") (cart st2) = [mkItem (js "X") (js "Tea") (parseFloat (js "10.00")) (js "u") 2].
Proof.
  apply (add_fresh_then_again
           {| cart := [mkItem (js "Y") (js "Jam") (parseFloat (js "3.33")) (js "v") 3];
              localStorage := [] |}).
  simpl. intros item [<-|[]]. vm_compute. discriminate.
Defined.

(** C6. Decrement on a line item with quantity 1 removes it from the cart
    altogether (the other line items stay); decrement on a line item with
    quantity 2 leaves it in the cart with quantity 1. *)
Theorem decrement_removes_or_lowers (st : State) (productId : jsstring) (item : CartItem)
    (Hfound : find (fun i => id i === productId) (cart st) = Some item) :
  let st' := quantityClick decrease productId st in
  (quantity item = 1 ->
     cart st' = filter (fun i => negb (id i === productId)) (cart st) /\
     items_with productId (cart st') = []) /\
  (quantity item = 2 ->
     find (fun i => id i === productId) (cart st') = Some (set_quantity 1 item) /\
     length (cart st') = length (cart st)).
Proof.
  cbv zeta. unfold quantityClick. rewrite Hfound, cart_saveCart. cbn [cart].
  split; intros Hq; rewrite Hq.
  - simpl. split; [reflexivity|].
    unfold items_with. clear Hfound.
    induction (cart st) as [|x r IH]; simpl; [reflexivity|].
    destruct (id x === productId) eqn:E; simpl; [|rewrite E]; exact IH.
  - simpl. split; [|apply update_found_length].
    apply (find_update_found _ (set_quantity (decrement 2)) _ item Hfound).
    apply find_some in Hfound. destruct Hfound as [_ Hp]. exact Hp.
Qed.

Lemma decrement_removes_or_lowers_witness :
  (cart (quantityClick decrease (js "X")
           {| cart := [mkItem (js "X") (js "Tea") (Z2Num 10) (js "u") 1;
                       mkItem (js "Y") (js "Jam") (Z2Num 3) (js "v") 2];
              localStorage := [] |})
   = [mkItem (js "Y") (js "Jam") (Z2Num 3) (js "v") 2]) /\
  (find (fun i => id i === js "Y")
     (cart (quantityClick decrease (js "Y")
              {| cart := [mkItem (js "X") (js "Tea") (Z2Num 10) (js "u") 1;
                          mkItem (js "Y") (js "Jam") (Z2Num 3) (js "v") 2];
                 localStorage := [] |}))
   = Some (mkItem (js "Y") (js "Jam") (Z2Num 3) (js "v") 1)).
Proof.
  split.
  - apply (decrement_removes_or_lowers
             {| cart := [mkItem (js "X") (js "Tea") (Z2Num 10) (js "u") 1;
                         mkItem (js "Y") (js "Jam") (Z2Num 3) (js "v") 2];
                localStorage := [] |} (js "X")
             (mkItem (js "X") (js "Tea") (Z2Num 10) (js "u") 1)); reflexivity.
  - apply (decrement_removes_or_lowers
             {| cart := [mkItem (js "X") (js "Tea") (Z2Num 10) (js "u") 1;
                         mkItem (js "Y") (js "Jam") (Z2Num 3) (js "v") 2];
                localStorage := [] |} (js "Y")
             (mkItem (js "Y") (js "Jam") (Z2Num 3) (js "v") 2)); reflexivity.
Defined.

(** C9. Add and remove always end with the save; a click on a quantity
    button does when the cart has the id, and checkout when the cart is
    not empty (otherwise these two leave the state as it was, there is no
    mutation).  After the save the text stored under 'cart' is the
    serialization of the cart in memory.  So whenever an operation changes
    the cart, the stored text is that of the new cart. *)
Theorem mutation_is_persisted (st : State) (op : Operation) :
  match op with
  | Add _ _ _ _ | Remove _ => persisted (step st op)
  | Increment productId | Decrement productId =>
      match find (fun item => id item === productId) (cart st) with
      | Some _ => persisted (step st op)
      | None => step st op = st
      end
  | Clear => if is_nil (cart st) then step st op = st else persisted (step st op)
  end /\
  (cart (step st op) <> cart st -> persisted (step st op)).
Proof.
  assert (H : step st op = st \/ persisted (step st op)).
  { destruct op as [productId n p im|productId|productId|productId|]; cbn [step].
    - right. apply persisted_saveCart.
    - unfold quantityClick. destruct (find _ (cart st)); [right|left; reflexivity].
      apply persisted_saveCart.
    - unfold quantityClick. destruct (find _ (cart st)); [right|left; reflexivity].
      apply persisted_saveCart.
    - right. apply persisted_saveCart.
    - unfold checkoutClick. destruct (0 <? length (cart st))%nat; [right|left; reflexivity].
      apply persisted_saveCart. }
  split.
  - destruct op as [productId n p im|productId|productId|productId|]; cbn [step].
    + apply persisted_saveCart.
    + unfold quantityClick. destruct (find _ (cart st)); [|reflexivity].
      apply persisted_saveCart.
    + unfold quantityClick. destruct (find _ (cart st)); [|reflexivity].
      apply persisted_saveCart.
    + apply persisted_saveCart.
    + unfold checkoutClick. destruct (cart st) as [|item rest]; cbn [is_nil length Nat.ltb Nat.leb].
      * reflexivity.
      * apply persisted_saveCart.
  - intros Hneq. destruct H as [H|H]; [|exact H].
    rewrite H in Hneq. contradiction.
Qed.

(** *** The catalog listings *)

Lemma in_firstn {A : Type} (n : nat) (l : list A) (x : A) :
  In x (firstn n l) -> In x l.
Proof.
  intros H. rewrite <- (firstn_skipn n l). apply in_or_app. left. exact H.
Qed.

Lemma fetchFeaturedProducts_firstn (data_products : list ProductRecord) :
  fetchFeaturedProducts data_products = firstn 4 (filter featured_admits data_products).
Proof.
  unfold fetchFeaturedProducts, slice.
  destruct (filter featured_admits data_products); reflexivity.
Qed.

Lemma fetchAllProducts_firstn (data_products : list ProductRecord) :
  fetchAllProducts data_products = firstn 20 (filter general_admits data_products).
Proof.
  unfold fetchAllProducts, slice. set (products := filter general_admits data_products).
  replace (Z.to_nat (Z.min (Z.of_nat (length products)) 20))
    with (Nat.min (length products) 20) by lia.
  change (Z.to_nat 0) with O. cbn [skipn]. rewrite firstn_min_length.
  destruct (firstn 20 products); reflexivity.
Qed.

(** C8. The featured listing shows the first 4 of the fetched records that
    have name, image and brand, the general listing the first 20 of those
    that have name and image; each filter admits exactly the records with
    these properties.  Hence a record with name and image but without
    brand is never in the featured listing, while the general listing
    admits it (and shows it, when no more than 20 records qualify). *)
Theorem listing_filters (data_products : list ProductRecord) (p : ProductRecord)
    (Hname : present p (js "product_name") = true)
    (Himage : present p (js "image_url") = true)
    (Hbrand : present p (js "brands") = false) :
  fetchFeaturedProducts data_products = firstn 4 (filter featured_admits data_products) /\
  fetchAllProducts data_products = firstn 20 (filter general_admits data_products) /\
  (forall r, In r (filter featured_admits data_products) <->
             In r data_products /\ present r (js "product_name") = true /\
             present r (js "image_url") = true /\ present r (js "brands") = true) /\
  (forall r, In r (filter general_admits data_products) <->
             In r data_products /\ present r (js "product_name") = true /\
             present r (js "image_url") = true) /\
  ~ In p (fetchFeaturedProducts data_products) /\
  (In p data_products -> In p (filter general_admits data_products)) /\
  (In p data_products ->
   (length (filter general_admits data_products) <= 20)%nat ->
   In p (fetchAllProducts data_products)).
Proof.
  assert (Hf : forall r, In r (filter featured_admits data_products) <->
             In r data_products /\ present r (js "product_name") = true /\
             present r (js "image_url") = true /\ present r (js "brands") = true).
  { intros r. rewrite filter_In. unfold featured_admits. rewrite !andb_true_iff. tauto. }
  assert (Hg : forall r, In r (filter general_admits data_products) <->
             In r data_products /\ present r (js "product_name") = true /\
             present r (js "image_url") = true).
  { intros r. rewrite filter_In. unfold general_admits. rewrite !andb_true_iff. tauto. }
  rewrite fetchFeaturedProducts_firstn, fetchAllProducts_firstn.
  split; [reflexivity|]. split; [reflexivity|].
  split; [exact Hf|]. split; [exact Hg|]. split; [|split].
  - intros Hin. apply in_firstn in Hin. apply Hf in Hin. destruct Hin as (_ & _ & _ & Hb).
    congruence.
  - intros Hin. apply Hg. tauto.
  - intros Hin Hlen. rewrite firstn_all2 by exact Hlen. apply Hg. tauto.
Qed.

Lemma listing_filters_witness :
  let p := [(js "product_name", JStr (js "Oat bar")); (js "image_url", JStr (js "i.png"))] in
  let q := [(js "product_name", JStr (js "Crisps")); (js "image_url", JStr (js "c.png"));
            (js "brands", JStr (js "Acme"))] in
  ~ In p (fetchFeaturedProducts [p; q]) /\ In p (fetchAllProducts [p; q]).
Proof.
  pose proof (listing_filters
    [[(js "product_name", JStr (js "Oat bar")); (js "image_url", JStr (js "i.png"))];
     [(js "product_name", JStr (js "Crisps")); (js "image_url", JStr (js "c.png"));
      (js "brands", JStr (js "Acme"))]]
    [(js "product_name", JStr (js "Oat bar")); (js "image_url", JStr (js "i.png"))]
    eq_refl eq_refl eq_refl) as (_ & _ & _ & _ & Hnot & _ & Hin).
  split; [exact Hnot|]. apply Hin; [left; reflexivity|]. vm_compute. lia.
Defined.

(** *** Totals *)

(** C4. For the empty cart the subtotal and the total shown are both 0.00:
    the shipping constant is not added (with it the total would read
    5.00); the checkout button is disabled and the empty-cart message is
    displayed. *)
Theorem empty_cart_view :
  renderCart [] =
    {| emptyCartMessage_display := js "block";
       cartTotalSubtotal := js "0.00";
       cartTotal := js "0.00";
       checkoutButton_disabled := true;
       itemTotalPrices := [] |} /\
  specified_total [] = js "5.00" /\
  cartTotal (renderCart []) <> specified_total [].
Proof.
  split; [reflexivity|]. split; [vm_compute; reflexivity|].
  vm_compute. discriminate.
Qed.

(** *** Scanning *)

Lemma span_split {A : Type} (p : A -> bool) (l a b : list A) :
  span p l = (a, b) -> l = a ++ b /\ forallb p a = true.
Proof.
  revert a b. induction l as [|x r IH]; simpl; intros a b H.
  - injection H as <- <-. split; reflexivity.
  - destruct (p x) eqn:Hp.
    + destruct (span p r) as [a' b'] eqn:E. injection H as <- <-.
      destruct (IH a' b' eq_refl) as [-> Hall]. simpl. rewrite Hp, Hall. split; reflexivity.
    + injection H as <- <-. split; reflexivity.
Qed.

(** A prefix satisfying [p] followed by nothing or by an element that does
    not satisfy it is what [span] splits off. *)
Lemma span_app {A : Type} (p : A -> bool) (a b : list A) :
  forallb p a = true ->
  match b with [] => True | c :: _ => p c = false end ->
  span p (a ++ b) = (a, b).
Proof.
  intros Ha Hb. induction a as [|x r IH]; simpl.
  - destruct b as [|c b']; [reflexivity|]. simpl. rewrite Hb. reflexivity.
  - simpl in Ha. apply andb_true_iff in Ha as [Hx Hr].
    rewrite Hx, (IH Hr). reflexivity.
Qed.

Lemma forallb_digit_num_char (ds : jsstring) :
  forallb is_digit ds = true -> forallb is_num_char ds = true.
Proof.
  induction ds as [|c r IH]; simpl; [reflexivity|].
  intros H. apply andb_true_iff in H as [Hc Hr].
  rewrite (IH Hr). unfold is_num_char. rewrite Hc. reflexivity.
Qed.

(** *** Decimal digits *)

Lemma digits_value_snoc (ds : jsstring) (c : N) :
  digits_value (ds ++ [c]) = (10 * digits_value ds + digit_value c)%N.
Proof. unfold digits_value. rewrite fold_left_app. reflexivity. Qed.

Lemma digits_from_spec (fuel : nat) :
  forall (n : N) (acc : jsstring),
    fuel <> O -> (n < 2 ^ N.of_nat fuel)%N ->
    exists ds,
      digits_from fuel n acc = ds ++ acc /\
      forallb is_digit ds = true /\
      digits_value ds = n /\
      ds <> [] /\
      ((0 < n)%N -> forall d r, ds = d :: r -> d <> 48%N).
Proof.
  induction fuel as [|fuel IH]; intros n acc Hfuel Hn.
  - contradiction.
  - clear Hfuel. cbn [digits_from]. destruct (n <? 10)%N eqn:E.
    + apply N.ltb_lt in E. exists [(48 + n mod 10)%N].
      rewrite (N.mod_small n 10) by exact E.
      split; [reflexivity|]. split.
      { cbn [forallb]. unfold is_digit.
        rewrite andb_true_r. apply andb_true_iff. split; apply N.leb_le; lia. }
      split; [unfold digits_value, digit_value; cbn [fold_left]; lia|].
      split; [discriminate|].
      intros Hpos d r H. assert (Hd : d = (48 + n)%N) by congruence. lia.
    + apply N.ltb_ge in E.
      assert (Hdiv : (n / 10 < 2 ^ N.of_nat fuel)%N).
      { rewrite Nat2N.inj_succ, N.pow_succ_r' in Hn.
        apply N.Div0.div_lt_upper_bound. lia. }
      assert (Hfuel : fuel <> O).
      { intros ->. simpl in Hn. lia. }
      destruct (IH (n / 10)%N ((48 + n mod 10)%N :: acc) Hfuel Hdiv)
        as (ds & Heq & Hall & Hval & Hne & Hhd).
      exists (ds ++ [(48 + n mod 10)%N]).
      rewrite Heq, <- app_assoc. split; [reflexivity|].
      split.
      { rewrite forallb_app, Hall. cbn [forallb andb]. unfold is_digit.
        rewrite andb_true_r. apply andb_true_iff.
        split; apply N.leb_le; dlia. }
      split.
      { rewrite digits_value_snoc, Hval. unfold digit_value. dlia. }
      split; [destruct ds; discriminate|].
      intros _ d r H. destruct ds as [|d' r']; [contradiction|].
      injection H as <- _. apply (Hhd ltac:(apply N.div_str_pos; lia) d' r' eq_refl).
Qed.

Lemma decimal_digits_spec (n : N) :
  forallb is_digit (decimal_digits n) = true /\
  digits_value (decimal_digits n) = n /\
  decimal_digits n <> [] /\
  ((0 < n)%N -> forall d r, decimal_digits n = d :: r -> d <> 48%N).
Proof.
  unfold decimal_digits.
  assert (Hn : (n < 2 ^ N.of_nat (S (N.to_nat (N.log2 n))))%N).
  { rewrite Nat2N.inj_succ, N2Nat.id. destruct n as [|p]; [simpl; lia|].
    apply N.log2_spec. lia. }
  destruct (digits_from_spec (S (N.to_nat (N.log2 n))) n [] ltac:(discriminate) Hn)
    as (ds & Heq & H).
  rewrite Heq, app_nil_r. exact H.
Qed.

(** *** Rounding a value that needs none *)

Lemma iter_pos_iter {A : Type} (f : A -> A) (p : positive) (x : A) :
  iter_pos f p x = Pos.iter f x p.
Proof.
  revert x. induction p as [p IH|p IH|]; intros x; simpl.
  - rewrite !IH, !Pos.iter_swap. reflexivity.
  - rewrite !IH. reflexivity.
  - reflexivity.
Qed.

Lemma digits2_pos_shift (m k : positive) :
  digits2_pos (Pos.iter xO m k) = (digits2_pos m + k)%positive.
Proof.
  induction k as [|k IH] using Pos.peano_ind.
  - simpl. rewrite Pos.add_1_r. reflexivity.
  - rewrite Pos.iter_succ. simpl. rewrite IH, Pos.add_succ_r. reflexivity.
Qed.

Lemma Zpos_shift (m k : positive) :
  Zpos (Pos.iter xO m k) = Zpos m * 2 ^ Zpos k.
Proof.
  induction k as [|k IH] using Pos.peano_ind.
  - simpl. lia.
  - rewrite Pos.iter_succ, Pos2Z.inj_xO, IH, Pos2Z.inj_succ, Z.pow_succ_r by lia. lia.
Qed.

(** Shifting right what was shifted left loses nothing. *)
Lemma shr_shift (m k : positive) :
  Pos.iter shr_1 {| shr_m := Zpos (Pos.iter xO m k); shr_r := false; shr_s := false |} k
  = {| shr_m := Zpos m; shr_r := false; shr_s := false |}.
Proof.
  induction k as [|k IH] using Pos.peano_ind.
  - reflexivity.
  - rewrite Pos.iter_succ at 1. rewrite Pos.iter_succ, <- Pos.iter_swap. simpl. exact IH.
Qed.

Lemma bounded_spec (m : positive) (e : Z) :
  bounded prec emax m e = true ->
  fexp prec emax (Zpos (digits2_pos m) + e) = e /\ e <= emax - prec.
Proof.
  unfold bounded, canonical_mantissa. intros H. apply andb_true_iff in H as [H1 H2].
  apply Z.eqb_eq in H1. apply Z.leb_le in H2. split; assumption.
Qed.

Lemma shr_fexp_canonical (m : positive) (e : Z) :
  bounded prec emax m e = true ->
  shr_fexp prec emax (Zpos m) e loc_Exact
  = ({| shr_m := Zpos m; shr_r := false; shr_s := false |}, e).
Proof.
  intros H. apply bounded_spec in H as [Hf _].
  unfold shr_fexp. cbn [Zdigits2 shr_record_of_loc]. rewrite Hf, Z.sub_diag. reflexivity.
Qed.

(** A canonical mantissa and exponent are returned as they are. *)
Lemma binary_round_aux_canonical (sx : bool) (m : positive) (e : Z) :
  bounded prec emax m e = true ->
  binary_round_aux prec emax sx (Zpos m) e loc_Exact = S754_finite sx m e.
Proof.
  intros H. unfold binary_round_aux. rewrite (shr_fexp_canonical m e H).
  cbn [shr_m loc_of_shr_record round_nearest_even].
  rewrite (shr_fexp_canonical m e H). cbn [shr_m].
  apply bounded_spec in H as [_ Hle]. apply Z.leb_le in Hle. rewrite Hle. reflexivity.
Qed.

Lemma binary_round_aux_shifted (sx : bool) (m k : positive) (e : Z) :
  bounded prec emax m e = true ->
  binary_round_aux prec emax sx (Zpos (Pos.iter xO m k)) (e - Zpos k) loc_Exact
  = S754_finite sx m e.
Proof.
  intros H.
  assert (Hs : shr_fexp prec emax (Zpos (Pos.iter xO m k)) (e - Zpos k) loc_Exact
               = ({| shr_m := Zpos m; shr_r := false; shr_s := false |}, e)).
  { pose proof (bounded_spec m e H) as [Hf _].
    unfold shr_fexp. cbn [Zdigits2 shr_record_of_loc]. rewrite digits2_pos_shift.
    replace (Zpos (digits2_pos m + k) + (e - Zpos k)) with (Zpos (digits2_pos m) + e) by lia.
    rewrite Hf. replace (e - (e - Zpos k)) with (Zpos k) by lia.
    cbn [shr]. rewrite iter_pos_iter, shr_shift. f_equal. lia. }
  unfold binary_round_aux. rewrite Hs.
  cbn [shr_m loc_of_shr_record round_nearest_even].
  rewrite (shr_fexp_canonical m e H). cbn [shr_m].
  apply bounded_spec in H as [_ Hle]. apply Z.leb_le in Hle. rewrite Hle. reflexivity.
Qed.

(** The value [m * 2^e] written with a larger mantissa and a smaller
    exponent is rounded to [m * 2^e]. *)
Lemma binary_round_aux_scaled (sx : bool) (m : positive) (e s : Z) :
  bounded prec emax m e = true -> 0 <= s ->
  binary_round_aux prec emax sx (Zpos m * 2 ^ s) (e - s) loc_Exact = S754_finite sx m e.
Proof.
  intros H Hs. destruct s as [|k|k]; [| |lia].
  - rewrite Z.pow_0_r, Z.mul_1_r, Z.sub_0_r. apply binary_round_aux_canonical. exact H.
  - rewrite <- Zpos_shift. apply binary_round_aux_shifted. exact H.
Qed.

(** The sign given to the rounding is the sign of its result. *)
Lemma binary_round_aux_sign (sx : bool) (mx ex : Z) (lx : location) :
  match binary_round_aux prec emax sx mx ex lx with
  | S754_finite s _ _ => s = sx
  | _ => True
  end.
Proof.
  unfold binary_round_aux.
  destruct (shr_fexp prec emax mx ex lx) as [mrs' e'].
  destruct (shr_fexp prec emax _ e' loc_Exact) as [mrs'' e''].
  destruct (shr_m mrs''); [exact I| |exact I].
  destruct (e'' <=? emax - prec); [reflexivity|exact I].
Qed.

(** An integer [m * 2^e] read as a decimal. *)
Lemma decimal_to_number_integer (m p : positive) (e : Z) :
  bounded prec emax m e = true -> 0 <= e -> Zpos p = Zpos m * 2 ^ e ->
  decimal_to_number (Npos p) 0 = S754_finite false m e.
Proof.
  intros H He Hp. unfold decimal_to_number. cbn [Z.leb Z.compare].
  rewrite Z.pow_0_r, Z.mul_1_r. cbn [binary_normalize]. unfold binary_round.
  pose proof (bounded_spec m e H) as [Hf _].
  destruct e as [|k|k]; [| |lia].
  - rewrite Z.pow_0_r, Z.mul_1_r in Hp. injection Hp as ->.
    rewrite Hf. cbn [shl_align Z.sub Z.add Z.opp]. apply binary_round_aux_canonical. exact H.
  - rewrite <- Zpos_shift in Hp. injection Hp as ->.
    rewrite digits2_pos_shift.
    replace (Zpos (digits2_pos m + k) + 0) with (Zpos (digits2_pos m) + Zpos k) by lia.
    rewrite Hf. unfold shl_align. rewrite Z.sub_0_r.
    pose proof (binary_round_aux_shifted false m k (Zpos k) H) as R.
    rewrite Z.sub_diag in R. exact R.
Qed.

Lemma new_location_exact (nb_steps : Z) : new_location nb_steps 0 = loc_Exact.
Proof.
  unfold new_location, new_location_even, new_location_odd.
  destruct (Z.even nb_steps); reflexivity.
Qed.

(** The division of [m * d] at exponent [e] by [d] is exact. *)
Lemma SFdiv_core_binary_exact (m p d : positive) (e : Z) :
  Zpos p = Zpos m * Zpos d ->
  exists s, 0 <= s /\
    SFdiv_core_binary prec emax (Zpos p) e (Zpos d) 0 = (Zpos m * 2 ^ s, e - s, loc_Exact).
Proof.
  intros Hp. unfold SFdiv_core_binary. cbv zeta.
  set (e' := Z.min (fexp prec emax (Zdigits2 (Zpos p) + e - (Zdigits2 (Zpos d) + 0))) (e - 0)).
  assert (He' : e' <= e) by (unfold e'; lia).
  exists (e - e'). split; [lia|].
  replace (e - 0 - e') with (e - e') by lia.
  assert (Hm : match e - e' with
               | 0 => Zpos p
               | Zpos _ => Z.shiftl (Zpos p) (e - e')
               | Zneg _ => 0
               end = Zpos m * 2 ^ (e - e') * Zpos d).
  { destruct (e - e') as [|k|k] eqn:E; [| |lia].
    - rewrite Z.pow_0_r. lia.
    - rewrite Z.shiftl_mul_pow2 by lia. rewrite Hp. ring. }
  rewrite Hm.
  pose proof (Z.div_mul (Zpos m * 2 ^ (e - e')) (Zpos d) ltac:(lia)) as Hq.
  pose proof (Z.mod_mul (Zpos m * 2 ^ (e - e')) (Zpos d) ltac:(lia)) as Hr.
  unfold Z.div in Hq. unfold Z.modulo in Hr.
  destruct (Z.div_eucl (Zpos m * 2 ^ (e - e') * Zpos d) (Zpos d)) as [q r].
  subst q r. rewrite new_location_exact. f_equal. f_equal. lia.
Qed.

(** A fraction [m * 2^e], [e] negative, read as the decimal
    [(m * 5^-e) * 10^e]. *)
Lemma decimal_to_number_fraction (m p : positive) (e : Z) :
  bounded prec emax m e = true -> e < 0 -> Zpos p = Zpos m * 5 ^ (- e) ->
  decimal_to_number (Npos p) e = S754_finite false m e.
Proof.
  intros H He Hp. unfold decimal_to_number.
  replace (0 <=? e) with false by (symmetry; apply Z.leb_gt; exact He).
  cbn [SFdiv xorb].
  assert (Hd : Zpos (Z.to_pos (5 ^ (- e))) = 5 ^ (- e)).
  { apply Z2Pos.id. apply Z.pow_pos_nonneg; lia. }
  rewrite <- Hd in Hp.
  destruct (SFdiv_core_binary_exact m p (Z.to_pos (5 ^ (- e))) e Hp) as (s & Hs & Heq).
  rewrite Heq. apply binary_round_aux_scaled; assumption.
Qed.

Lemma Z_to_N_pos (z : Z) : 0 < z -> exists p, Z.to_N z = Npos p /\ Zpos p = z.
Proof. destruct z as [|p|p]; try lia. intros _. exists p. split; reflexivity. Qed.

(** *** Integer Numbers *)

Lemma digits2_pos_bounds (q : positive) :
  2 ^ (Zpos (digits2_pos q) - 1) <= Zpos q < 2 ^ Zpos (digits2_pos q).
Proof.
  induction q as [q IH|q IH|]; cbn [digits2_pos].
  - rewrite Pos2Z.inj_succ, Z.pow_succ_r by lia.
    replace (Z.succ (Zpos (digits2_pos q)) - 1) with (Z.succ (Zpos (digits2_pos q) - 1)) by lia.
    rewrite Z.pow_succ_r by lia. lia.
  - rewrite Pos2Z.inj_succ, Z.pow_succ_r by lia.
    replace (Z.succ (Zpos (digits2_pos q)) - 1) with (Z.succ (Zpos (digits2_pos q) - 1)) by lia.
    rewrite Z.pow_succ_r by lia. lia.
  - simpl. lia.
Qed.

(** The Number of a positive integer below 2^53: the integer shifted to
    53 bits. *)
Lemma Z2Num_canonical (p : positive) :
  Zpos p < 2 ^ 53 ->
  exists m e,
    Z2Num (Zpos p) = S754_finite false m e /\
    bounded prec emax m e = true /\
    e = Zpos (digits2_pos p) - 53 /\ -52 <= e <= 0 /\
    Zpos m = Zpos p * 2 ^ (- e).
Proof.
  intros Hp. pose proof (digits2_pos_bounds p) as [Hlo Hhi].
  assert (Hd : Zpos (digits2_pos p) <= 53).
  { destruct (Z_le_gt_dec (Zpos (digits2_pos p)) 53) as [H|H]; [exact H|].
    assert (2 ^ 53 <= 2 ^ (Zpos (digits2_pos p) - 1)) by (apply Z.pow_le_mono_r; lia).
    lia. }
  unfold Z2Num. cbn [binary_normalize]. unfold binary_round.
  assert (Hfexp : fexp prec emax (Zpos (digits2_pos p) + 0) = Zpos (digits2_pos p) - 53).
  { unfold fexp, emin, prec, emax. lia. }
  rewrite Hfexp. unfold shl_align.
  destruct (Zpos (digits2_pos p) - 53 - 0) as [|k|k] eqn:E; [|lia|].
  - assert (Hb : bounded prec emax p 0 = true).
    { unfold bounded, canonical_mantissa. apply andb_true_iff.
      split; [apply Z.eqb_eq|apply Z.leb_le]; unfold fexp, emin, prec, emax; lia. }
    exists p, 0. rewrite (binary_round_aux_canonical false p 0 Hb).
    repeat split; try assumption; lia.
  - assert (Hb : bounded prec emax (Pos.iter xO p k) (Zpos (digits2_pos p) - 53) = true).
    { unfold bounded, canonical_mantissa. rewrite digits2_pos_shift. apply andb_true_iff.
      split; [apply Z.eqb_eq|apply Z.leb_le]; unfold fexp, emin, prec, emax; lia. }
    exists (Pos.iter xO p k), (Zpos (digits2_pos p) - 53).
    rewrite (binary_round_aux_canonical false _ _ Hb).
    repeat split; try assumption; try lia.
    rewrite Zpos_shift. f_equal. f_equal. lia.
Qed.

(** An integer quantity is a decimal Number, and the Number stands for it. *)
Lemma Z2Num_exact (q : Z) :
  1 <= q <= 2 ^ 53 ->
  is_decimal (Z2Num q) = true /\ Num2Z (Z2Num q) = Some q.
Proof.
  intros Hq. destruct (Z.eq_dec q (2 ^ 53)) as [->|Hneq]; [split; reflexivity|].
  destruct q as [|p|p]; try lia.
  destruct (Z2Num_canonical p ltac:(lia)) as (m & e & -> & Hb & _ & He & Hm).
  split; [exact Hb|]. cbn [Num2Z]. rewrite Hm.
  destruct (Z.eq_dec e 0) as [->|Hne].
  - cbn [Z.leb Z.compare Z.opp]. rewrite !Z.pow_0_r. f_equal. lia.
  - replace (0 <=? e) with false by (symmetry; apply Z.leb_gt; lia).
    rewrite Z.mod_mul, Z.div_mul by (apply Z.pow_nonzero; lia).
    cbn [Z.eqb]. f_equal; lia.
Qed.

Lemma shl_align_value (m : positive) (e e' : Z) :
  e' <= e -> Zpos (fst (shl_align m e e')) = Zpos m * 2 ^ (e - e').
Proof.
  intros H. unfold shl_align. destruct (e' - e) as [|k|k] eqn:E; [|lia|].
  - replace (e - e') with 0 by lia. cbn [fst]. lia.
  - cbn [fst]. rewrite Zpos_shift. f_equal. f_equal. lia.
Qed.

(** An integer up to 2^53 times 2^52, at exponent -52, is normalized to
    the Number of the integer. *)
Lemma binary_normalize_scaled (z : Z) :
  1 <= z <= 2 ^ 53 ->
  binary_normalize prec emax (z * 2 ^ 52) (-52) false = Z2Num z.
Proof.
  intros Hz. destruct (Z.eq_dec z (2 ^ 53)) as [->|Hneq]; [reflexivity|].
  destruct z as [|p|p]; try lia.
  destruct (Z2Num_canonical p ltac:(lia)) as (m & e & -> & Hb & Hd & He & Hm).
  rewrite <- Zpos_shift. cbn [binary_normalize]. unfold binary_round.
  rewrite digits2_pos_shift.
  assert (Hfexp : fexp prec emax (Zpos (digits2_pos p + 52) + -52) = e).
  { unfold fexp, emin, prec, emax. lia. }
  rewrite Hfexp. unfold shl_align.
  pose proof (binary_round_aux_scaled false m e (e + 52) Hb ltac:(lia)) as R.
  replace (e - (e + 52)) with (-52) in R by lia.
  replace (Zpos m * 2 ^ (e + 52)) with (Zpos (Pos.iter xO p 52)) in R.
  2:{ rewrite Zpos_shift, Hm, <- Z.mul_assoc, <- Z.pow_add_r by lia.
      f_equal. f_equal. lia. }
  destruct (e - -52) as [|k|k] eqn:E; [exact R|exact R|lia].
Qed.

(** *** Quantities as Numbers *)

(** The script computes on Numbers; for the integers from 1 to 2^53 the
    integer operations of this development are those computations. *)
Lemma increment_is_addition (q : Z) :
  1 <= q <= 2 ^ 53 -> nadd (Z2Num q) (Z2Num 1) = Z2Num (increment q).
Proof.
  intros Hq. destruct (Z.eq_dec q (2 ^ 53)) as [->|Hneq]; [reflexivity|].
  unfold increment. replace (q <? 2 ^ 53) with true by (symmetry; apply Z.ltb_lt; lia).
  rewrite <- (binary_normalize_scaled (q + 1)) by lia.
  destruct q as [|p|p]; try lia.
  destruct (Z2Num_canonical p ltac:(lia)) as (m & e & -> & Hb & Hd & He & Hm).
  change (Z2Num 1) with (S754_finite false 4503599627370496 (-52)).
  unfold nadd. cbn [SFadd cond_Zopp]. rewrite Z.min_r by lia.
  rewrite !shl_align_value by lia. f_equal.
  rewrite Hm, <- Z.mul_assoc, <- Z.pow_add_r by lia.
  replace (- e + (e - -52)) with 52 by lia. replace (-52 - -52) with 0 by lia.
  change (Zpos 4503599627370496) with (2 ^ 52). lia.
Qed.

Lemma decrement_is_subtraction (q : Z) :
  1 < q <= 2 ^ 53 -> nsub (Z2Num q) (Z2Num 1) = Z2Num (decrement q).
Proof.
  intros Hq. destruct (Z.eq_dec q (2 ^ 53)) as [->|Hneq]; [reflexivity|].
  unfold decrement.
  rewrite <- (binary_normalize_scaled (q - 1)) by lia.
  destruct q as [|p|p]; try lia.
  destruct (Z2Num_canonical p ltac:(lia)) as (m & e & -> & Hb & Hd & He & Hm).
  change (Z2Num 1) with (S754_finite false 4503599627370496 (-52)).
  unfold nsub. cbn [SFsub cond_Zopp]. rewrite Z.min_r by lia.
  rewrite !shl_align_value by lia. f_equal.
  rewrite Hm, <- Z.mul_assoc, <- Z.pow_add_r by lia.
  replace (- e + (e - -52)) with 52 by lia. replace (-52 - -52) with 0 by lia.
  change (Zpos 4503599627370496) with (2 ^ 52). lia.
Qed.

Lemma greater_than_one (q : Z) :
  1 <= q <= 2 ^ 53 -> ngtb (Z2Num q) (Z2Num 1) = (q >? 1).
Proof.
  intros Hq. destruct (Z.eq_dec q (2 ^ 53)) as [->|Hneq]; [reflexivity|].
  destruct (Z.eq_dec q 1) as [->|Hne1]; [reflexivity|].
  destruct q as [|p|p]; try lia.
  destruct (Z2Num_canonical p ltac:(lia)) as (m & e & -> & Hb & Hd & He & Hm).
  pose proof (digits2_pos_bounds p) as [_ Hhi].
  assert (Hdig : 2 <= Zpos (digits2_pos p)).
  { destruct (Z_le_gt_dec 2 (Zpos (digits2_pos p))) as [H|H]; [exact H|].
    assert (Zpos (digits2_pos p) = 1) as H1 by lia. rewrite H1 in Hhi. lia. }
  change (Z2Num 1) with (S754_finite false 4503599627370496 (-52)).
  unfold ngtb, SFltb. cbn [SFcompare].
  replace (-52 ?= e) with Lt by (symmetry; apply Z.compare_lt_iff; lia).
  symmetry. apply Z.gtb_lt. lia.
Qed.

(** C10. Add with an id the cart already has changes the quantity of that
    line item only: its name, price and image stay as they were, whatever
    name, price and image the call passes, and every line item of the cart
    keeps its id, name, price and image.  The quantity is a quantity of
    the data model, an integer from 1 to 2^53, the range in which
    [increment] is the [quantity++] of Numbers: the new quantity is the
    Number sum of the old one and 1, which is plus 1 below 2^53. *)
Theorem add_existing_keeps_fields (st : State) (productId n p im : jsstring)
    (item : CartItem)
    (Hfound : find (fun i => id i === productId) (cart st) = Some item)
    (Hquantity : 1 <= quantity item <= 2 ^ 53) :
  let st' := addToCart productId n p im st in
  find (fun i => id i === productId) (cart st')
    = Some (mkItem (id item) (name item) (price item) (image item)
              (increment (quantity item))) /\
  Z2Num (increment (quantity item)) = nadd (Z2Num (quantity item)) (Z2Num 1) /\
  (quantity item < 2 ^ 53 -> increment (quantity item) = quantity item + 1) /\
  map (fun i => (id i, name i, price i, image i)) (cart st')
    = map (fun i => (id i, name i, price i, image i)) (cart st) /\
  cart st' = update_found (fun i => id i === productId)
               (set_quantity (increment (quantity item))) (cart st).
Proof.
  cbv zeta. rewrite addToCart_cart, Hfound.
  split; [|split; [|split; [|split]]].
  - apply (find_update_found _ (fun i => set_quantity (increment (quantity i)) i) _ item Hfound).
    apply find_some in Hfound. destruct Hfound as [_ Hp]. exact Hp.
  - symmetry. apply increment_is_addition. exact Hquantity.
  - unfold increment. intros H. apply Z.ltb_lt in H. rewrite H. reflexivity.
  - apply update_found_map. reflexivity.
  - clear n p im. revert Hfound. induction (cart st) as [|x r IH]; simpl; [discriminate|].
    destruct (id x === productId).
    + intros H. injection H as ->. reflexivity.
    + intros H. rewrite IH by exact H. reflexivity.
Qed.

Lemma add_existing_keeps_fields_witness :
  find (fun i => id i === js "X")
    (cart (addToCart (js "X") (js "Other") (js "99.99") (js "z")
             {| cart := [mkItem (js "X") (js "Tea") (Z2Num 10) (js "u") 1];
                localStorage := [] |}))
  = Some (mkItem (js "X") (js "Tea") (Z2Num 10) (js "u") 2).
Proof.
  apply (add_existing_keeps_fields
           {| cart := [mkItem (js "X") (js "Tea") (Z2Num 10) (js "u") 1];
              localStorage := [] |} (js "X") (js "Other") (js "99.99") (js "z")
           (mkItem (js "X") (js "Tea") (Z2Num 10) (js "u") 1)).
  - reflexivity.
  - simpl. lia.
Defined.

(** *** Numbers and their text *)

Lemma Number_eqb_eq (x y : Number) : Number_eqb x y = true -> x = y.
Proof.
  destruct x as [s|s| |s m e], y as [s'|s'| |s' m' e']; simpl; intros H;
    try discriminate H.
  - apply Bool.eqb_prop in H. congruence.
  - apply Bool.eqb_prop in H. congruence.
  - reflexivity.
  - apply andb_true_iff in H as [H He]. apply andb_true_iff in H as [Hs Hm].
    apply Bool.eqb_prop in Hs. apply Pos.eqb_eq in Hm. apply Z.eqb_eq in He. congruence.
Qed.

Lemma decimal_to_number_sign (s : N) (p : Z) :
  match decimal_to_number s p with
  | S754_finite sg _ _ => sg = false
  | _ => True
  end.
Proof.
  unfold decimal_to_number. destruct s as [|m]; [exact I|].
  destruct (0 <=? p) eqn:Hp.
  - apply Z.leb_le in Hp.
    assert (Hpos : 0 < Zpos m * 5 ^ p) by (apply Z.mul_pos_pos; [lia|apply Z.pow_pos_nonneg; lia]).
    destruct (Zpos m * 5 ^ p) as [|z|z]; try lia.
    cbn [binary_normalize]. unfold binary_round.
    destruct (shl_align z p _) as [mz ez]. apply binary_round_aux_sign.
  - cbn [SFdiv xorb].
    destruct (SFdiv_core_binary prec emax (Zpos m) p _ 0) as [[mz ez] lz].
    apply binary_round_aux_sign.
Qed.

Lemma json_unsigned_sign (t : jsstring) (y : Number) :
  json_unsigned t = Some y -> forall m e, y <> S754_finite true m e.
Proof.
  unfold json_unsigned. intros H m e Hy.
  destruct (span is_digit t) as [int r1].
  destruct int as [|d ds]; [discriminate|].
  destruct ((d =? 48)%N && negb (is_nil ds)); [discriminate|].
  destruct (fraction_digits r1) as [[frac r2]|]; [|discriminate].
  destruct (exponent_part r2) as [ex|]; [|discriminate].
  injection H as H. subst y.
  match type of Hy with
  | decimal_to_number ?s ?p = _ => pose proof (decimal_to_number_sign s p) as Hs
  end.
  rewrite Hy in Hs. discriminate.
Qed.

(** A text that is a number as a whole is still read as that number when
    something that cannot continue a number follows it. *)
Lemma lex_number_extend (t rest : jsstring) (x : Number) :
  lex_number t = Some (x, []) ->
  match rest with [] => True | c :: _ => is_num_char c = false end ->
  lex_number (t ++ rest) = Some (x, rest).
Proof.
  unfold lex_number. intros H Hrest.
  destruct (span is_num_char t) as [tok r] eqn:E.
  destruct (json_number tok) as [y|] eqn:J; [|discriminate].
  injection H as -> ->.
  apply span_split in E as [-> Hall]. rewrite app_nil_r.
  rewrite (span_app _ _ _ Hall Hrest), J. reflexivity.
Qed.

Lemma lex_number_whole (t : jsstring) (x : Number) :
  lex_number t = Some (x, []) ->
  forallb is_num_char t = true /\ json_number t = Some x.
Proof.
  unfold lex_number. intros H.
  destruct (span is_num_char t) as [tok r] eqn:E.
  destruct (json_number tok) as [y|] eqn:J; [|discriminate].
  injection H as -> ->.
  apply span_split in E as [-> Hall]. rewrite app_nil_r. split; assumption.
Qed.

Lemma whole_lex_number (t : jsstring) (x : Number) :
  forallb is_num_char t = true -> json_number t = Some x ->
  lex_number t = Some (x, []).
Proof.
  intros Hall J. unfold lex_number.
  rewrite <- (app_nil_r t) at 1. rewrite (span_app is_num_char t [] Hall I), J. reflexivity.
Qed.

Lemma digit_not_minus (d : N) : is_digit d = true -> (d =? 45)%N = false.
Proof.
  unfold is_digit. intros H. apply andb_true_iff in H as [H1 H2].
  apply N.leb_le in H1. apply N.eqb_neq. lia.
Qed.

Lemma shortest_digits_reads_back (fuel : nat) (m : positive) (e n0 k : Z) (c : N * Z) :
  shortest_digits fuel m e n0 k = Some c -> reads_back m e c = true.
Proof.
  revert k. induction fuel as [|fuel IH]; intros k; simpl; [discriminate|].
  destruct (fraction m e) as [num den].
  destruct (find (reads_back m e) (candidates num den n0 k)) as [c'|] eqn:F.
  - intros H. injection H as <-. apply find_some in F. tauto.
  - apply IH.
Qed.

Lemma json_number_digits (n : N) (tail : jsstring) :
  json_number (decimal_digits n ++ tail) = json_unsigned (decimal_digits n ++ tail).
Proof.
  destruct (decimal_digits_spec n) as (Hall & _ & Hne & _).
  destruct (decimal_digits n) as [|d r]; [contradiction|].
  cbn [forallb] in Hall. apply andb_true_iff in Hall as [Hd _].
  cbn [app json_number]. rewrite (digit_not_minus d Hd). reflexivity.
Qed.

Lemma json_unsigned_integer (n : N) :
  (0 < n)%N -> json_unsigned (decimal_digits n) = Some (decimal_to_number n 0).
Proof.
  intros Hn. destruct (decimal_digits_spec n) as (Hall & Hval & Hne & Hhd).
  assert (Hspan : span is_digit (decimal_digits n) = (decimal_digits n, [])).
  { rewrite <- (app_nil_r (decimal_digits n)) at 1.
    apply (span_app is_digit (decimal_digits n) [] Hall I). }
  unfold json_unsigned. rewrite Hspan.
  destruct (decimal_digits n) as [|d r] eqn:E; [contradiction|].
  pose proof (Hhd Hn d r eq_refl) as Hd. apply N.eqb_neq in Hd. rewrite Hd.
  cbn [andb fraction_digits exponent_part]. rewrite app_nil_r, Hval. reflexivity.
Qed.

Lemma json_unsigned_exponent (n k : N) :
  (0 < n)%N ->
  json_unsigned (decimal_digits n ++ 101%N :: 45%N :: decimal_digits k)
  = Some (decimal_to_number n (- Z.of_N k)).
Proof.
  intros Hn. destruct (decimal_digits_spec n) as (Hall & Hval & Hne & Hhd).
  destruct (decimal_digits_spec k) as (Hallk & Hvalk & Hnek & _).
  assert (Hspan : span is_digit (decimal_digits n ++ 101%N :: 45%N :: decimal_digits k)
                  = (decimal_digits n, 101%N :: 45%N :: decimal_digits k)).
  { apply span_app; [exact Hall|reflexivity]. }
  unfold json_unsigned. rewrite Hspan.
  destruct (decimal_digits n) as [|d r] eqn:E; [contradiction|].
  pose proof (Hhd Hn d r eq_refl) as Hd. apply N.eqb_neq in Hd. rewrite Hd.
  cbn [andb fraction_digits exponent_part N.eqb Pos.eqb orb].
  rewrite Hallk. destruct (decimal_digits k) as [|dk rk] eqn:Ek; [contradiction|].
  cbn [is_nil negb andb]. rewrite app_nil_r, Hval, Hvalk.
  cbn [length Z.of_nat]. rewrite Z.sub_0_r. reflexivity.
Qed.

(** The exact decimal of a Number reads back as the Number. *)
Lemma exact_decimal_reads (m : positive) (e : Z) :
  bounded prec emax m e = true ->
  lex_number (exact_decimal m e) = Some (S754_finite false m e, []).
Proof.
  intros H. unfold exact_decimal. destruct (0 <=? e) eqn:He.
  - apply Z.leb_le in He.
    destruct (Z_to_N_pos (Zpos m * 2 ^ e)) as (p & -> & Hp).
    { apply Z.mul_pos_pos; [lia|apply Z.pow_pos_nonneg; lia]. }
    destruct (decimal_digits_spec (Npos p)) as (Hall & _).
    apply whole_lex_number; [apply forallb_digit_num_char; exact Hall|].
    rewrite <- (app_nil_r (decimal_digits (Npos p))), json_number_digits, app_nil_r.
    rewrite json_unsigned_integer by lia. f_equal.
    apply (decimal_to_number_integer m p e); assumption.
  - apply Z.leb_gt in He.
    destruct (Z_to_N_pos (Zpos m * 5 ^ (- e))) as (p & -> & Hp).
    { apply Z.mul_pos_pos; [lia|apply Z.pow_pos_nonneg; lia]. }
    destruct (decimal_digits_spec (Npos p)) as (Hall & _).
    destruct (decimal_digits_spec (Z.to_N (- e))) as (Halle & _).
    apply whole_lex_number.
    + rewrite forallb_app. cbn [forallb].
      rewrite (forallb_digit_num_char _ Hall), (forallb_digit_num_char _ Halle). reflexivity.
    + rewrite json_number_digits, json_unsigned_exponent by lia. f_equal.
      replace (- Z.of_N (Z.to_N (- e))) with e by lia.
      apply (decimal_to_number_fraction m p e); assumption.
Qed.

(** Number::toString of a finite positive Number reads back as it. *)
Lemma positive_to_string_reads (m : positive) (e : Z) :
  bounded prec emax m e = true ->
  lex_number (positive_to_string m e) = Some (S754_finite false m e, []).
Proof.
  intros H. unfold positive_to_string. destruct (fraction m e) as [num den].
  destruct (shortest_digits 17 m e (decimal_exponent num den) 1) as [[s n]|] eqn:S.
  - apply shortest_digits_reads_back in S. unfold reads_back in S. cbn [fst snd] in S.
    destruct (lex_number (format_digits (decimal_digits s) n)) as [[x [|c r]]|];
      try discriminate.
    apply Number_eqb_eq in S. rewrite S. reflexivity.
  - apply exact_decimal_reads. exact H.
Qed.

(** The text of a decimal Number reads back as the Number. *)
Lemma NumberToString_reads (x : Number) :
  is_decimal x = true -> lex_number (NumberToString x) = Some (x, []).
Proof.
  destruct x as [s|s| |s m e]; cbn [is_decimal]; intros H; try discriminate.
  - destruct s; [discriminate|reflexivity].
  - pose proof (positive_to_string_reads m e H) as R.
    cbn [NumberToString]. destruct s; [|exact R].
    apply lex_number_whole in R as [Hall J].
    apply whole_lex_number; [cbn [forallb]; rewrite Hall; reflexivity|].
    cbn [json_number N.eqb Pos.eqb].
    assert (Hu : json_unsigned (positive_to_string m e) = Some (S754_finite false m e)).
    { destruct (positive_to_string m e) as [|c r]; [discriminate|].
      cbn [json_number] in J. destruct (c =? 45)%N; [|exact J].
      destruct (json_unsigned r) as [y|] eqn:U; [|discriminate].
      cbn [option_map] in J. injection J as J.
      destruct y as [sy|sy| |sy my ey]; try discriminate.
      destruct sy; [|discriminate].
      exfalso. exact (json_unsigned_sign r _ U my ey eq_refl). }
    rewrite Hu. reflexivity.
Qed.

Lemma stringify_number_decimal (x : Number) :
  is_decimal x = true -> stringify_number x = NumberToString x.
Proof. destruct x; try discriminate; reflexivity. Qed.

(** *** Strings and their JSON text *)

Lemma hex_value_digit (d : N) : (d < 16)%N -> hex_value (hex_digit d) = Some d.
Proof.
  intros Hd. unfold hex_value, hex_digit. destruct (d <? 10)%N eqn:E.
  - apply N.ltb_lt in E.
    replace ((48 <=? 48 + d) && (48 + d <=? 57))%N with true
      by (symmetry; apply andb_true_iff; split; apply N.leb_le; lia).
    f_equal. lia.
  - apply N.ltb_ge in E.
    replace ((48 <=? 87 + d) && (87 + d <=? 57))%N with false
      by (symmetry; apply andb_false_iff; right; apply N.leb_gt; lia).
    replace ((97 <=? 87 + d) && (87 + d <=? 102))%N with true
      by (symmetry; apply andb_true_iff; split; apply N.leb_le; lia).
    f_equal. lia.
Qed.

Lemma parse_unicode_escape (c : N) (rest : jsstring) :
  (c < 65536)%N ->
  parse_string_body (unicode_escape c ++ rest) = cons_result c (parse_string_body rest).
Proof.
  intros Hc. unfold unicode_escape. cbn [app parse_string_body N.eqb Pos.eqb].
  rewrite !hex_value_digit by dlia. f_equal. dlia.
Qed.

Lemma parse_literal (c : N) (rest : jsstring) :
  (32 <= c)%N -> c <> 34%N -> c <> 92%N ->
  parse_string_body (c :: rest) = cons_result c (parse_string_body rest).
Proof.
  intros H32 H34 H92. cbn [parse_string_body].
  apply N.eqb_neq in H34, H92. rewrite H34, H92.
  replace (c <? 32)%N with false by (symmetry; apply N.ltb_ge; exact H32).
  reflexivity.
Qed.

Lemma parse_quote_char (c : N) (rest : jsstring) :
  parse_string_body (quote_char c ++ rest) = cons_result c (parse_string_body rest).
Proof.
  unfold quote_char.
  destruct (N.eqb_spec c 8) as [->|H8]; [reflexivity|].
  destruct (N.eqb_spec c 9) as [->|H9]; [reflexivity|].
  destruct (N.eqb_spec c 10) as [->|H10]; [reflexivity|].
  destruct (N.eqb_spec c 12) as [->|H12]; [reflexivity|].
  destruct (N.eqb_spec c 13) as [->|H13]; [reflexivity|].
  destruct (N.eqb_spec c 34) as [->|H34]; [reflexivity|].
  destruct (N.eqb_spec c 92) as [->|H92]; [reflexivity|].
  destruct (N.ltb_spec c 32) as [H32|H32].
  - apply parse_unicode_escape. lia.
  - apply parse_literal; assumption.
Qed.

Lemma surrogate_range (c : N) :
  is_high_surrogate c = true \/ is_low_surrogate c = true ->
  (32 <= c < 65536)%N /\ c <> 34%N /\ c <> 92%N.
Proof.
  unfold is_high_surrogate, is_low_surrogate.
  rewrite !andb_true_iff, !N.leb_le. lia.
Qed.

Lemma parse_quote_body_bounded (n : nat) :
  forall (s rest : jsstring), (length s <= n)%nat ->
    parse_string_body (quote_body s ++ 34%N :: rest) = Some (s, rest).
Proof.
  induction n as [|n IH]; intros s rest Hlen.
  - destruct s; [reflexivity|simpl in Hlen; lia].
  - destruct s as [|c r]; [reflexivity|]. cbn [length] in Hlen.
    assert (Hr : parse_string_body (quote_body r ++ 34%N :: rest) = Some (r, rest))
      by (apply IH; lia).
    cbn [quote_body].
    destruct (is_high_surrogate c) eqn:Hh.
    + destruct (surrogate_range c (or_introl Hh)) as (Hc & H34 & H92).
      destruct r as [|c2 r2].
      * rewrite parse_unicode_escape by lia. reflexivity.
      * destruct (is_low_surrogate c2) eqn:Hl.
        -- destruct (surrogate_range c2 (or_intror Hl)) as (Hc2 & H34' & H92').
           cbn [app]. rewrite !parse_literal by lia.
           rewrite (IH r2 rest) by (cbn [length] in Hlen; lia). reflexivity.
        -- rewrite <- app_assoc, parse_unicode_escape, Hr by lia. reflexivity.
    + destruct (is_low_surrogate c) eqn:Hl.
      * destruct (surrogate_range c (or_intror Hl)) as (Hc & _).
        rewrite <- app_assoc, parse_unicode_escape, Hr by lia. reflexivity.
      * rewrite <- app_assoc, parse_quote_char, Hr. reflexivity.
Qed.

(** A quoted string reads back as the string. *)
Lemma parse_quote_body (s rest : jsstring) :
  parse_string_body (quote_body s ++ 34%N :: rest) = Some (s, rest).
Proof. apply (parse_quote_body_bounded (length s)). lia. Qed.

(** *** Reading the text of a cart *)

Lemma skip_ws_head (c : N) (t : jsstring) :
  is_json_ws c = false -> skip_ws (c :: t) = c :: t.
Proof. intros H. unfold skip_ws. cbn [span]. rewrite H. reflexivity. Qed.

Lemma num_char_plain (c : N) :
  is_num_char c = true ->
  is_json_ws c = false /\ (c =? 34)%N = false /\ (c =? 91)%N = false /\
  (c =? 123)%N = false /\ (c =? 110)%N = false /\ (c =? 116)%N = false /\
  (c =? 102)%N = false.
Proof.
  unfold is_num_char, is_digit, is_json_ws.
  rewrite !orb_true_iff, andb_true_iff, !N.leb_le, !N.eqb_eq. intros H.
  rewrite !orb_false_iff, !N.eqb_neq. lia.
Qed.

Lemma parse_value_string (fuel : nat) (s rest : jsstring) :
  parse_value (S fuel) (quote s ++ rest) = Some (JStr s, rest).
Proof.
  unfold quote. cbn [app parse_value].
  rewrite skip_ws_head by reflexivity. cbn [N.eqb Pos.eqb].
  rewrite <- app_assoc. cbn [app]. rewrite parse_quote_body. reflexivity.
Qed.

Lemma parse_value_number (fuel : nat) (x : Number) (rest : jsstring) :
  is_decimal x = true ->
  match rest with [] => True | c :: _ => is_num_char c = false end ->
  parse_value (S fuel) (stringify_number x ++ rest) = Some (JNum x, rest).
Proof.
  intros Hx Hrest. rewrite (stringify_number_decimal x Hx).
  pose proof (NumberToString_reads x Hx) as R.
  pose proof (lex_number_extend _ rest x R Hrest) as L.
  apply lex_number_whole in R as [Hall J].
  destruct (NumberToString x) as [|c r]; [discriminate|].
  cbn [forallb] in Hall. apply andb_true_iff in Hall as [Hc _].
  destruct (num_char_plain c Hc) as (Hws & H1 & H2 & H3 & H4 & H5 & H6).
  cbn [app] in *. cbn [parse_value]. rewrite (skip_ws_head c _ Hws).
  rewrite H1, H2, H3, H4, H5, H6, L. reflexivity.
Qed.

Lemma parse_members_cons (fuel : nat) (k vtext more : jsstring) (v : Value)
    (l : list (jsstring * Value)) (rest : jsstring) :
  parse_value fuel (vtext ++ 44%N :: more) = Some (v, 44%N :: more) ->
  parse_members fuel more = Some (l, rest) ->
  parse_members (S fuel) (quote k ++ 58%N :: vtext ++ 44%N :: more)
  = Some ((k, v) :: l, rest).
Proof.
  intros Hv Hm. unfold quote. cbn [app parse_members].
  rewrite skip_ws_head by reflexivity.
  rewrite <- app_assoc. cbn [app]. rewrite parse_quote_body.
  rewrite skip_ws_head by reflexivity. rewrite Hv.
  rewrite skip_ws_head by reflexivity. rewrite Hm. reflexivity.
Qed.

Lemma parse_members_last (fuel : nat) (k vtext : jsstring) (v : Value) (rest : jsstring) :
  parse_value fuel (vtext ++ 125%N :: rest) = Some (v, 125%N :: rest) ->
  parse_members (S fuel) (quote k ++ 58%N :: vtext ++ 125%N :: rest)
  = Some ([(k, v)], rest).
Proof.
  intros Hv. unfold quote. cbn [app parse_members].
  rewrite skip_ws_head by reflexivity.
  rewrite <- app_assoc. cbn [app]. rewrite parse_quote_body.
  rewrite skip_ws_head by reflexivity. rewrite Hv.
  rewrite skip_ws_head by reflexivity. reflexivity.
Qed.

Lemma parse_value_object (fuel : nat) (k more : jsstring)
    (l : list (jsstring * Value)) (rest : jsstring) :
  parse_members fuel (quote k ++ more) = Some (l, rest) ->
  parse_value (S fuel) (123%N :: quote k ++ more) = Some (JObj l, rest).
Proof.
  intros Hm. cbn [parse_value]. rewrite skip_ws_head by reflexivity.
  cbn [N.eqb Pos.eqb]. unfold quote in *. cbn [app] in *.
  rewrite skip_ws_head by reflexivity. rewrite Hm. reflexivity.
Qed.

(** The text of a line item. *)
Lemma item_text (item : CartItem) :
  JSON_stringify (item_value item) =
  123%N :: quote (js "id") ++ 58%N :: quote (id item) ++ 44%N ::
           quote (js "name") ++ 58%N :: quote (name item) ++ 44%N ::
           quote (js "price") ++ 58%N :: stringify_number (price item) ++ 44%N ::
           quote (js "image") ++ 58%N :: quote (image item) ++ 44%N ::
           quote (js "quantity") ++ 58%N ::
             stringify_number (Z2Num (quantity item)) ++ [125%N].
Proof.
  cbn [item_value JSON_stringify]. rewrite <- !app_assoc. cbn [app].
  repeat (f_equal; rewrite <- ?app_assoc; cbn [app]). 
Qed.

(** The text of a line item of the data model reads back as the item. *)
Lemma parse_item (fuel : nat) (item : CartItem) (rest : jsstring) :
  (7 <= fuel)%nat -> item_storable item ->
  parse_value fuel (JSON_stringify (item_value item) ++ rest)
  = Some (item_value item, rest).
Proof.
  intros Hf [Hp Hq]. destruct (Z2Num_exact _ Hq) as [Hqd _].
  replace fuel with (S (S (S (S (S (S (S (fuel - 7)))))))) by lia.
  rewrite item_text. cbn [app]. repeat (rewrite <- app_assoc; cbn [app]).
  unfold item_value. apply parse_value_object.
  apply parse_members_cons; [apply parse_value_string|].
  apply parse_members_cons; [apply parse_value_string|].
  apply parse_members_cons; [apply parse_value_number; [exact Hp|reflexivity]|].
  apply parse_members_cons; [apply parse_value_string|].
  apply parse_members_last. apply parse_value_number; [exact Hqd|reflexivity].
Qed.

Lemma stringify_array (l : list Value) :
  JSON_stringify (JArr l) = 91%N :: stringify_elements l ++ [93%N].
Proof.
  reflexivity.
Qed.

Lemma parse_elements_items (items : Cart) :
  forall (fuel : nat) (rest : jsstring),
    items <> [] -> cart_storable items -> (length items + 7 <= fuel)%nat ->
    parse_elements fuel (stringify_elements (map item_value items) ++ 93%N :: rest)
    = Some (map item_value items, rest).
Proof.
  induction items as [|x r IH]; intros fuel rest Hne Hall Hfuel; [contradiction|].
  inversion Hall as [|? ? Hx Hr]; subst.
  destruct fuel as [|fuel]; [simpl in Hfuel; lia|]. cbn [length] in Hfuel.
  destruct r as [|y r].
  - cbn [map stringify_elements parse_elements].
    rewrite parse_item by (assumption || lia).
    rewrite skip_ws_head by reflexivity. reflexivity.
  - change (stringify_elements (map item_value (x :: y :: r)))
      with (JSON_stringify (item_value x) ++ 44%N :: stringify_elements (map item_value (y :: r))).
    rewrite <- app_assoc. cbn [app parse_elements].
    rewrite parse_item by (assumption || cbn [length] in *; lia).
    rewrite skip_ws_head by reflexivity.
    rewrite IH by (try discriminate; try assumption; cbn [length] in *; lia).
    reflexivity.
Qed.

Lemma stringify_elements_length (items : Cart) :
  (length items <= length (stringify_elements (map item_value items)))%nat.
Proof.
  induction items as [|x r IH]; [simpl; lia|].
  destruct r as [|y r].
  - cbn [map stringify_elements]. rewrite item_text. cbn [length]. lia.
  - change (stringify_elements (map item_value (x :: y :: r)))
      with (JSON_stringify (item_value x) ++ 44%N :: stringify_elements (map item_value (y :: r))).
    rewrite length_app. cbn [length] in *. lia.
Qed.

(** The text of a cart of the data model is parsed to the cart's value. *)
Lemma JSON_parse_stringify_cart (cart : Cart) :
  cart_storable cart ->
  JSON_parse (JSON_stringify (cart_value cart)) = Returns (cart_value cart).
Proof.
  intros Hall. destruct cart as [|x r]; [reflexivity|].
  unfold cart_value. rewrite stringify_array. unfold JSON_parse.
  set (items := x :: r) in *.
  set (E := stringify_elements (map item_value items)).
  assert (Hfuel : exists f, (2 * length (91%N :: E ++ [93%N]) + 2 = S f /\
                            length items + 7 <= f)%nat).
  { pose proof (stringify_elements_length items) as HE. fold E in HE.
    assert (Hlen : (10 <= length E)%nat).
    { unfold E, items. destruct r as [|y r].
      - cbn [map stringify_elements]. rewrite item_text. cbn [length].
        repeat (rewrite length_app; cbn [length]). lia.
      - change (stringify_elements (map item_value (x :: y :: r)))
          with (JSON_stringify (item_value x) ++ 44%N ::
                stringify_elements (map item_value (y :: r))).
        rewrite length_app, item_text. cbn [length].
        repeat (rewrite length_app; cbn [length]). lia. }
    cbn [length]. rewrite length_app. cbn [length].
    exists (2 * S (length E + 1) + 1)%nat. split; lia. }
  destruct Hfuel as (f & -> & Hf).
  assert (Hhead : exists tl, E = 123%N :: tl).
  { unfold E, items. destruct r as [|y r].
    - cbn [map stringify_elements]. rewrite item_text. eexists. reflexivity.
    - change (stringify_elements (map item_value (x :: y :: r)))
        with (JSON_stringify (item_value x) ++ 44%N ::
              stringify_elements (map item_value (y :: r))).
      rewrite item_text. eexists. reflexivity. }
  pose proof (parse_elements_items items f [] ltac:(discriminate) Hall Hf) as P.
  fold E in P. destruct Hhead as (tl & HE). rewrite HE in *.
  cbn [parse_value]. rewrite skip_ws_head by reflexivity. cbn [N.eqb Pos.eqb].
  cbn [app] in *. rewrite skip_ws_head by reflexivity. rewrite P. reflexivity.
Qed.

(** *** Saving and loading *)

Lemma value_item_value (item : CartItem) :
  1 <= quantity item <= 2 ^ 53 -> value_item (item_value item) = Some item.
Proof.
  intros Hq. destruct (Z2Num_exact _ Hq) as [_ Hz].
  unfold value_item, item_value.
  change (get _ (js "id")) with (Some (JStr (id item))).
  change (get _ (js "name")) with (Some (JStr (name item))).
  change (get _ (js "price")) with (Some (JNum (price item))).
  change (get _ (js "image")) with (Some (JStr (image item))).
  change (get _ (js "quantity")) with (Some (JNum (Z2Num (quantity item)))).
  cbv iota beta. rewrite Hz. destruct item; reflexivity.
Qed.

Lemma value_cart_value (cart : Cart) :
  cart_storable cart -> value_cart (cart_value cart) = Some cart.
Proof.
  unfold value_cart, cart_value. induction 1 as [|x r [_ Hq] Hr IH]; [reflexivity|].
  cbn [map value_items]. rewrite (value_item_value x Hq), IH. reflexivity.
Qed.

Lemma load_saveCart (st : State) :
  cart_storable (cart st) ->
  load (localStorage (saveCart st)) = Returns (cart_value (cart st)).
Proof.
  intros H. unfold load, saveCart. cbn [localStorage cart].
  rewrite getItem_setItem, (JSON_parse_stringify_cart _ H). reflexivity.
Qed.

(** C7. For every cart of the data model (each price a decimal number,
    each quantity an integer from 1 up to 2^53), saving the cart and then
    loading yields the value of that cart: read back item by item, it is
    the original cart, equal in id, name, price, image and quantity. *)
Theorem save_load_roundtrip (st : State) (Hmodel : cart_storable (cart st)) :
  load (localStorage (saveCart st)) = Returns (cart_value (cart st)) /\
  value_cart (cart_value (cart st)) = Some (cart st).
Proof.
  split; [apply load_saveCart|apply value_cart_value]; exact Hmodel.
Qed.

Lemma save_load_roundtrip_witness :
  let st := addToCart (js "Y") (js "Jam") (js "3.33") (js "v.png")
              (addToCart (js "X") (js "Tea") (js "10.00") (js "u.png")
                 {| cart := []; localStorage := [] |}) in
  load (localStorage (saveCart st)) = Returns (cart_value (cart st)).
Proof.
  apply (save_load_roundtrip
           (addToCart (js "Y") (js "Jam") (js "3.33") (js "v.png")
              (addToCart (js "X") (js "Tea") (js "10.00") (js "u.png")
                 {| cart := []; localStorage := [] |}))).
  repeat constructor; vm_compute; congruence.
Defined.

(** C2, as the specification words it, fails for a stored text that is not
    JSON: [JSON.parse] throws a SyntaxError, which nothing catches, so no
    empty cart is returned. *)
Lemma load_unparseable_counterexample : ~ load_as_specified [(js "cart", js "{")].
Proof.
  unfold load_as_specified. intros H.
  assert (Hload : load [(js "cart", js "{")] = Returns (JArr [])).
  { apply H. right. exists (js "{"), SyntaxError. split; reflexivity. }
  vm_compute in Hload. discriminate.
Qed.

(** C2, amended. Loading returns the previously saved cart (of the data
    model), and returns an empty cart, without raising, when nothing is
    stored; when the stored text cannot be parsed, the exception of
    [JSON.parse] escapes and no cart is returned. *)
Theorem load_contract (st : State) (store : Storage)
    (Hmodel : cart_storable (cart st)) :
  load (localStorage (saveCart st)) = Returns (cart_value (cart st)) /\
  (getItem store (js "cart") = None -> load store = Returns (JArr [])) /\
  (forall text error,
     getItem store (js "cart") = Some text -> JSON_parse text = Throws error ->
     load store = Throws error).
Proof.
  split; [apply load_saveCart; exact Hmodel|]. split.
  - intros Hnone. unfold load. rewrite Hnone. reflexivity.
  - intros text error Hsome Hthrows. unfold load. rewrite Hsome, Hthrows. reflexivity.
Qed.

Lemma load_contract_witness :
  let st := addToCart (js "X") (js "Tea") (js "10.00") (js "u.png")
              {| cart := []; localStorage := [] |} in
  load (localStorage (saveCart st)) = Returns (cart_value (cart st)) /\
  load [] = Returns (JArr []) /\
  load [(js "cart", js "{")] = Throws SyntaxError.
Proof.
  assert (Hmodel : cart_storable
            (cart (addToCart (js "X") (js "Tea") (js "10.00") (js "u.png")
                     {| cart := []; localStorage := [] |}))).
  { repeat constructor; vm_compute; congruence. }
  destruct (load_contract _ [] Hmodel) as (Hsaved & Habsent & _).
  destruct (load_contract _ [(js "cart", js "{")] Hmodel) as (_ & _ & Hthrows).
  split; [exact Hsaved|]. split; [apply Habsent; reflexivity|].
  apply (Hthrows (js "{") SyntaxError); reflexivity.
Defined.

(** ** Further properties *)

(** *** How the cart operations compose *)

Lemma filter_update_found {A : Type} (p q : A -> bool) (f : A -> A) (l : list A) :
  (forall x, p x = true -> q x = false /\ q (f x) = false) ->
  filter q (update_found p f l) = filter q l.
Proof.
  intros H. induction l as [|x r IH]; simpl; [reflexivity|].
  destruct (p x) eqn:Hp.
  - destruct (H x Hp) as [Hq Hqf]. simpl. rewrite Hq, Hqf. reflexivity.
  - simpl. destruct (q x); rewrite IH; reflexivity.
Qed.

Lemma filter_twice {A : Type} (q : A -> bool) (l : list A) :
  filter q (filter q l) = filter q l.
Proof.
  induction l as [|x r IH]; simpl; [reflexivity|].
  destruct (q x) eqn:Hq; simpl; [rewrite Hq, IH|rewrite IH]; reflexivity.
Qed.

(** Changing the found element by a function of it, or by that function's
    value at the element [find] returns, is the same. *)
Lemma update_found_found {A : Type} (p : A -> bool) (f : A -> A -> A) (l : list A) (x : A) :
  find p l = Some x ->
  update_found p (fun y => f y y) l = update_found p (f x) l.
Proof.
  induction l as [|y r IH]; simpl; [discriminate|].
  destruct (p y).
  - intros H. injection H as ->. reflexivity.
  - intros H. rewrite IH by exact H. reflexivity.
Qed.

Lemma update_found_twice {A : Type} (p : A -> bool) (f g : A -> A) (l : list A) :
  (forall x, p x = true -> p (f x) = true) ->
  update_found p g (update_found p f l) = update_found p (fun x => g (f x)) l.
Proof.
  intros H. induction l as [|y r IH]; simpl; [reflexivity|].
  destruct (p y) eqn:Hp; simpl.
  - rewrite (H y Hp). reflexivity.
  - rewrite Hp, IH. reflexivity.
Qed.

Lemma update_found_same {A : Type} (p : A -> bool) (f : A -> A) (l : list A) (x : A) :
  find p l = Some x -> f x = x -> update_found p f l = l.
Proof.
  induction l as [|y r IH]; simpl; [discriminate|].
  destruct (p y).
  - intros H Hf. injection H as ->. rewrite Hf. reflexivity.
  - intros H Hf. rewrite IH by assumption. reflexivity.
Qed.

Lemma set_quantity_same (item : CartItem) : set_quantity (quantity item) item = item.
Proof. destruct item; reflexivity. Qed.


Lemma getItem_setItem_other (store : Storage) (key k v : jsstring) :
  key <> k -> getItem (setItem store k v) key = getItem store key.
Proof.
  intros Hne. induction store as [|[k0 w] r IH]; simpl.
  - replace (k === key) with false; [reflexivity|].
    symmetry. apply str_eqb_neq. congruence.
  - destruct (k0 === k) eqn:E; simpl.
    + apply str_eqb_eq in E. subst k0.
      replace (k === key) with false; [reflexivity|].
      symmetry. apply str_eqb_neq. congruence.
    + destruct (k0 === key); [reflexivity|exact IH].
Qed.

(** X1. An add, an increase, a decrease or a remove for one id leaves the
    line items of every other id as they were, in their order. *)
Theorem other_items_untouched (st : State) (productId n p im : jsstring) :
  let others := filter (fun item => negb (id item === productId)) in
  others (cart (addToCart productId n p im st)) = others (cart st) /\
  others (cart (quantityClick increase productId st)) = others (cart st) /\
  others (cart (quantityClick decrease productId st)) = others (cart st) /\
  others (cart (removeClick productId st)) = others (cart st).
Proof.
  cbv zeta.
  assert (Hupd : forall q : CartItem -> Z,
             filter (fun item => negb (id item === productId))
               (update_found (fun item => id item === productId)
                  (fun item => set_quantity (q item) item) (cart st))
             = filter (fun item => negb (id item === productId)) (cart st)).
  { intros q. apply filter_update_found. intros x Hx. cbn [id set_quantity].
    rewrite Hx. split; reflexivity. }
  split; [|split; [|split]].
  - rewrite addToCart_cart.
    destruct (find (fun item => id item === productId) (cart st)); [apply Hupd|].
    rewrite filter_app. cbn [filter id]. rewrite str_eqb_refl. cbn [negb].
    apply app_nil_r.
  - unfold quantityClick.
    destruct (find (fun item => id item === productId) (cart st)) as [item|]; [|reflexivity].
    rewrite cart_saveCart. cbn [cart]. apply (Hupd (fun _ => increment (quantity item))).
  - unfold quantityClick.
    destruct (find (fun item => id item === productId) (cart st)) as [item|]; [|reflexivity].
    rewrite cart_saveCart. cbn [cart]. destruct (quantity item >? 1).
    + apply (Hupd (fun _ => decrement (quantity item))).
    + apply filter_twice.
  - unfold removeClick. rewrite cart_saveCart. cbn [cart]. apply filter_twice.
Qed.

(** X2. For an id the cart has, add does what a click on the row's
    increase button does: the same cart and the same stored text, whatever
    name, price and image the add is given. *)
Theorem add_existing_is_increase (st : State) (productId n p im : jsstring)
    (item : CartItem)
    (Hfound : find (fun i => id i === productId) (cart st) = Some item) :
  addToCart productId n p im st = quantityClick increase productId st.
Proof.
  unfold addToCart, quantityClick.
  pose proof (findIndex_find (fun i => id i === productId) (cart st)) as H.
  rewrite Hfound in *. rewrite H, update_at_findIndex by exact H.
  rewrite (update_found_found _ (fun x y => set_quantity (increment (quantity x)) y)
             _ item Hfound).
  reflexivity.
Qed.

Lemma add_existing_is_increase_witness :
  let st := {| cart := [mkItem (js "X") (js "Tea") (Z2Num 10) (js "u") 4];
               localStorage := [] |} in
  addToCart (js "X") (js "Other") (js "1.50") (js "z") st
  = quantityClick increase (js "X") st.
Proof.
  apply (add_existing_is_increase
           {| cart := [mkItem (js "X") (js "Tea") (Z2Num 10) (js "u") 4];
              localStorage := [] |} (js "X") (js "Other") (js "1.50") (js "z")
           (mkItem (js "X") (js "Tea") (Z2Num 10) (js "u") 4)).
  reflexivity.
Defined.

(** X3. On a line item the cart has, an increase followed by a decrease
    gives back the cart as it was (for a quantity from 1, below 2^53), and
    so does a decrease followed by an increase (for a quantity above 1, up
    to 2^53). *)
Theorem quantity_clicks_cancel (st : State) (productId : jsstring) (item : CartItem)
    (Hfound : find (fun i => id i === productId) (cart st) = Some item)
    (Hq : 1 <= quantity item <= 2 ^ 53) :
  (quantity item < 2 ^ 53 ->
   cart (quantityClick decrease productId (quantityClick increase productId st))
   = cart st) /\
  (1 < quantity item ->
   cart (quantityClick increase productId (quantityClick decrease productId st))
   = cart st).
Proof.
  pose proof (find_some _ _ Hfound) as [_ Hp]. cbv beta in Hp.
  split; intros Hq'.
  - assert (Hnext : find (fun i => id i === productId)
                      (cart (quantityClick increase productId st))
                    = Some (set_quantity (increment (quantity item)) item)).
    { unfold quantityClick at 1. rewrite Hfound, cart_saveCart. cbn [cart].
      apply find_update_found; [exact Hfound|exact Hp]. }
    unfold quantityClick at 1. rewrite Hnext, cart_saveCart. cbn [cart quantity set_quantity].
    unfold increment. replace (quantity item <? 2 ^ 53) with true
      by (symmetry; apply Z.ltb_lt; lia).
    replace (quantity item + 1 >? 1) with true by (symmetry; apply Z.gtb_lt; lia).
    unfold quantityClick. rewrite Hfound, cart_saveCart. cbn [cart].
    rewrite update_found_twice by (intros x Hx; exact Hx).
    apply (update_found_same _ _ _ item Hfound).
    unfold decrement. cbn [set_quantity id name price image].
    replace (quantity item + 1 - 1) with (quantity item) by lia.
    destruct item; reflexivity.
  - assert (Hnext : find (fun i => id i === productId)
                      (cart (quantityClick decrease productId st))
                    = Some (set_quantity (decrement (quantity item)) item)).
    { unfold quantityClick at 1. rewrite Hfound, cart_saveCart. cbn [cart].
      replace (quantity item >? 1) with true by (symmetry; apply Z.gtb_lt; lia).
      apply find_update_found; [exact Hfound|exact Hp]. }
    unfold quantityClick at 1. rewrite Hnext, cart_saveCart. cbn [cart quantity set_quantity].
    unfold quantityClick. rewrite Hfound, cart_saveCart. cbn [cart].
    replace (quantity item >? 1) with true by (symmetry; apply Z.gtb_lt; lia).
    rewrite update_found_twice by (intros x Hx; exact Hx).
    apply (update_found_same _ _ _ item Hfound).
    unfold decrement, increment. cbn [set_quantity id name price image].
    replace (quantity item - 1 <? 2 ^ 53) with true by (symmetry; apply Z.ltb_lt; lia).
    replace (quantity item - 1 + 1) with (quantity item) by lia.
    destruct item; reflexivity.
Qed.

Lemma quantity_clicks_cancel_witness :
  let st := {| cart := [mkItem (js "X") (js "Tea") (Z2Num 10) (js "u") 2];
               localStorage := [] |} in
  cart (quantityClick decrease (js "X") (quantityClick increase (js "X") st)) = cart st /\
  cart (quantityClick increase (js "X") (quantityClick decrease (js "X") st)) = cart st.
Proof.
  destruct (quantity_clicks_cancel
              {| cart := [mkItem (js "X") (js "Tea") (Z2Num 10) (js "u") 2];
                 localStorage := [] |} (js "X")
              (mkItem (js "X") (js "Tea") (Z2Num 10) (js "u") 2) eq_refl)
    as [H1 H2].
  - simpl. lia.
  - split; [apply H1|apply H2]; simpl; lia.
Defined.


(** X5. Adding a product the cart has not and then removing it gives back
    the cart as it was. *)
Theorem add_then_remove_restores (st : State) (productId n p im : jsstring)
    (Hfresh : forall item, In item (cart st) -> id item <> productId) :
  cart (removeClick productId (addToCart productId n p im st)) = cart st.
Proof.
  assert (Hnone : find (fun item => id item === productId) (cart st) = None).
  { apply find_all_false. intros x Hx. apply str_eqb_neq. apply Hfresh. exact Hx. }
  unfold removeClick. rewrite cart_saveCart. cbn [cart].
  rewrite addToCart_cart, Hnone, filter_app. cbn [filter id].
  rewrite str_eqb_refl. cbn [negb]. rewrite app_nil_r.
  clear Hnone. induction (cart st) as [|x r IH]; simpl; [reflexivity|].
  replace (id x === productId) with false
    by (symmetry; apply str_eqb_neq; apply Hfresh; left; reflexivity).
  simpl. rewrite IH; [reflexivity|]. intros y Hy. apply Hfresh. right. exact Hy.
Qed.

Lemma add_then_remove_restores_witness :
  let st := {| cart := [mkItem (js "Y") (js "Jam") (Z2Num 3) (js "v") 3];
               localStorage := [] |} in
  cart (removeClick (js "X") (addToCart (js "X") (js "Tea") (js "10.00") (js "u") st))
  = cart st.
Proof.
  apply (add_then_remove_restores
           {| cart := [mkItem (js "Y") (js "Jam") (Z2Num 3) (js "v") 3];
              localStorage := [] |}).
  simpl. intros item [<-|[]]. vm_compute. discriminate.
Defined.

(** X6. Checkout of a cart that is not empty empties it and stores the
    text of the empty array: the cart page then shows the empty state, a
    later load gives the empty cart, and a second checkout does nothing. *)
Theorem checkout_empties (st : State) (Hnonempty : cart st <> []) :
  let st' := checkoutClick st in
  cart st' = [] /\
  getItem (localStorage st') (js "cart") = Some (js "[]") /\
  load (localStorage st') = Returns (JArr []) /\
  checkoutButton_disabled (renderCart (cart st')) = true /\
  checkoutClick st' = st'.
Proof.
  cbv zeta.
  assert (Hclick : checkoutClick st
                   = saveCart {| cart := []; localStorage := localStorage st |}).
  { unfold checkoutClick. destruct (cart st); [contradiction|reflexivity]. }
  rewrite Hclick.
  assert (Hget : getItem (localStorage (saveCart {| cart := []; localStorage := localStorage st |}))
                   (js "cart") = Some (js "[]")).
  { unfold saveCart. cbn [cart localStorage]. apply getItem_setItem. }
  split; [reflexivity|]. split; [exact Hget|]. split.
  - unfold load. rewrite Hget. reflexivity.
  - split; reflexivity.
Qed.

Lemma checkout_empties_witness :
  let st := {| cart := [mkItem (js "X") (js "Tea") (Z2Num 10) (js "u") 2];
               localStorage := [(js "cart", js "stale")] |} in
  load (localStorage (checkoutClick st)) = Returns (JArr []).
Proof.
  apply (checkout_empties
           {| cart := [mkItem (js "X") (js "Tea") (Z2Num 10) (js "u") 2];
              localStorage := [(js "cart", js "stale")] |}).
  discriminate.
Defined.

(** Every operation leaves the state as it was or ends with [saveCart] on
    the store it found. *)
Lemma step_shape (st : State) (op : Operation) :
  step st op = st \/
  exists c, step st op = saveCart {| cart := c; localStorage := localStorage st |}.
Proof.
  destruct op as [productId n p im|productId|productId|productId|]; cbn [step].
  - right. eexists. reflexivity.
  - unfold quantityClick. destruct (find _ (cart st)); [right; eexists|left]; reflexivity.
  - unfold quantityClick. destruct (find _ (cart st)); [right; eexists|left]; reflexivity.
  - right. eexists. reflexivity.
  - unfold checkoutClick. destruct (0 <? length (cart st))%nat; [right; eexists|left];
      reflexivity.
Qed.

(** X7. No operation of the cart engine touches what the store holds under
    another key than 'cart'. *)
Theorem other_keys_untouched (st : State) (op : Operation) (key : jsstring)
    (Hkey : key <> js "cart") :
  getItem (localStorage (step st op)) key = getItem (localStorage st) key.
Proof.
  destruct (step_shape st op) as [->|[c ->]]; [reflexivity|].
  unfold saveCart. cbn [localStorage cart]. apply getItem_setItem_other. exact Hkey.
Qed.

Lemma other_keys_untouched_witness :
  getItem (localStorage
             (step {| cart := []; localStorage := [(js "theme", js "dark")] |}
                (Add (js "X") (js "Tea") (js "10.00") (js "u"))))
    (js "theme") = Some (js "dark").
Proof.
  apply (other_keys_untouched
           {| cart := []; localStorage := [(js "theme", js "dark")] |}
           (Add (js "X") (js "Tea") (js "10.00") (js "u")) (js "theme")).
  vm_compute. discriminate.
Defined.

(** *** Reloading the page *)

Lemma prices_update_found (p : CartItem -> bool) (q : CartItem -> Z) (cart : Cart) :
  Forall (fun item => is_decimal (price item) = true) cart ->
  Forall (fun item => is_decimal (price item) = true)
    (update_found p (fun item => set_quantity (q item) item) cart).
Proof.
  intros Hall. apply update_found_Forall; [|exact Hall]. intros x _ _ Hx. exact Hx.
Qed.

Lemma step_prices (st : State) (op : Operation) :
  prices_decimal [op] ->
  Forall (fun item => is_decimal (price item) = true) (cart st) ->
  Forall (fun item => is_decimal (price item) = true) (cart (step st op)).
Proof.
  intros Hop Hall. inversion Hop as [|? ? Hprice _]; subst. clear Hop.
  destruct op as [productId n p im|productId|productId|productId|]; cbn [step].
  - rewrite addToCart_cart.
    destruct (find (fun item => id item === productId) (cart st)).
    + apply prices_update_found. exact Hall.
    + apply Forall_app. split; [exact Hall|]. constructor; [exact Hprice|constructor].
  - unfold quantityClick. destruct (find _ (cart st)) as [item|]; [|exact Hall].
    rewrite cart_saveCart. cbn [cart].
    apply (prices_update_found _ (fun _ => increment (quantity item))). exact Hall.
  - unfold quantityClick. destruct (find _ (cart st)) as [item|]; [|exact Hall].
    rewrite cart_saveCart. cbn [cart]. destruct (quantity item >? 1).
    + apply (prices_update_found _ (fun _ => decrement (quantity item))). exact Hall.
    + apply Forall_filter. exact Hall.
  - unfold removeClick. rewrite cart_saveCart. cbn [cart]. apply Forall_filter. exact Hall.
  - unfold checkoutClick. destruct (0 <? length (cart st))%nat; [|exact Hall].
    rewrite cart_saveCart. constructor.
Qed.

Lemma storable_of_invariant (cart : Cart) :
  cart_invariant cart ->
  Forall (fun item => is_decimal (price item) = true) cart ->
  cart_storable cart.
Proof.
  intros [_ Hq] Hp. unfold cart_storable. rewrite Forall_forall in *.
  intros item Hin. split; [apply Hp|apply Hq]; exact Hin.
Qed.

Lemma run_reloadable (ops : list Operation) :
  forall st,
    prices_decimal ops ->
    cart_invariant (cart st) ->
    Forall (fun item => is_decimal (price item) = true) (cart st) ->
    load (localStorage st) = Returns (cart_value (cart st)) ->
    let st' := run ops st in
    cart_storable (cart st') /\
    load (localStorage st') = Returns (cart_value (cart st')).
Proof.
  induction ops as [|op ops IH]; intros st Hops Hinv Hprices Hload; cbv zeta.
  - split; [apply storable_of_invariant; assumption|exact Hload].
  - inversion Hops as [|? ? Hop Hrest]; subst. cbn [run fold_left].
    assert (Hinv' : cart_invariant (cart (step st op))) by (apply step_invariant; exact Hinv).
    assert (Hprices' : Forall (fun item => is_decimal (price item) = true) (cart (step st op))).
    { apply step_prices; [constructor; [exact Hop|constructor]|exact Hprices]. }
    apply (IH (step st op) Hrest Hinv' Hprices').
    destruct (step_shape st op) as [E|[c E]].
    + rewrite E. exact Hload.
    + rewrite E in *. rewrite cart_saveCart in *. cbn [cart] in *.
      apply (load_saveCart {| cart := c; localStorage := localStorage st |}).
      apply storable_of_invariant; assumption.
Qed.

(** X8. From a page opened with nothing stored, and so with an empty cart,
    after any sequence of operations whose adds are given numeric price
    texts, loading from the store returns the value of the cart in memory,
    which reads back, item by item, as that cart: a reload at any moment
    restores the cart. *)
Theorem reload_restores_cart (ops : list Operation) (store : Storage)
    (Hnothing : getItem store (js "cart") = None)
    (Hprices : prices_decimal ops) :
  let st := run ops {| cart := []; localStorage := store |} in
  load (localStorage st) = Returns (cart_value (cart st)) /\
  value_cart (cart_value (cart st)) = Some (cart st).
Proof.
  cbv zeta.
  destruct (run_reloadable ops {| cart := []; localStorage := store |} Hprices)
    as [Hstorable Hload].
  - split; constructor.
  - constructor.
  - unfold load. cbn [localStorage cart]. rewrite Hnothing. reflexivity.
  - split; [exact Hload|apply value_cart_value; exact Hstorable].
Qed.

Lemma reload_restores_cart_witness :
  let st := run [Add (js "X") (js "Tea") (js "10.00") (js "u");
                 Add (js "Y") (js "Jam") (js "3.33") (js "v");
                 Increment (js "Y"); Decrement (js "X")]
              {| cart := []; localStorage := [] |} in
  load (localStorage st) = Returns (cart_value (cart st)).
Proof.
  apply (reload_restores_cart
           [Add (js "X") (js "Tea") (js "10.00") (js "u");
            Add (js "Y") (js "Jam") (js "3.33") (js "v");
            Increment (js "Y"); Decrement (js "X")] []).
  - reflexivity.
  - repeat constructor.
Defined.

(** *** The rows of the cart page *)

Lemma render_items_rows (items : Cart) (subtotal : Number) (rows : list jsstring) :
  snd (render_items items subtotal rows)
  = rows ++ map (fun item => toFixed (nmul (price item) (Z2Num (quantity item))) 2) items.
Proof.
  revert subtotal rows. induction items as [|item rest IH]; intros subtotal rows; simpl.
  - symmetry. apply app_nil_r.
  - rewrite IH, <- app_assoc. reflexivity.
Qed.

(** *** The item count *)

(** A mantissa and exponent with the value of a canonical pair are rounded
    to that pair, whether the mantissa is longer or shorter. *)
Lemma binary_round_value (sx : bool) (P m : positive) (E e : Z) :
  bounded prec emax m e = true ->
  (E <= e /\ Zpos P = Zpos m * 2 ^ (e - E)) \/ (e <= E /\ Zpos m = Zpos P * 2 ^ (E - e)) ->
  binary_round prec emax sx P E = S754_finite sx m e.
Proof.
  intros Hb H. pose proof (bounded_spec m e Hb) as [Hf _]. unfold binary_round.
  destruct H as [[HE HP]|[HE HP]].
  - destruct (e - E) as [|k|k] eqn:Ek; [| |lia].
    + rewrite Z.pow_0_r, Z.mul_1_r in HP. injection HP as ->.
      assert (E = e) by lia. subst E.
      rewrite Hf. unfold shl_align. rewrite Z.sub_diag.
      apply binary_round_aux_canonical. exact Hb.
    + rewrite <- Zpos_shift in HP. injection HP as ->. rewrite digits2_pos_shift.
      replace (Zpos (digits2_pos m + k) + E) with (Zpos (digits2_pos m) + e) by lia.
      rewrite Hf. unfold shl_align. rewrite Ek.
      pose proof (binary_round_aux_shifted sx m k e Hb) as R.
      replace (e - Zpos k) with E in R by lia. exact R.
  - destruct (E - e) as [|k|k] eqn:Ek; [| |lia].
    + rewrite Z.pow_0_r, Z.mul_1_r in HP. injection HP as ->.
      assert (E = e) by lia. subst E.
      rewrite Hf. unfold shl_align. rewrite Z.sub_diag.
      apply binary_round_aux_canonical. exact Hb.
    + rewrite <- Zpos_shift in HP. injection HP as ->. rewrite digits2_pos_shift in Hf.
      replace (Zpos (digits2_pos P) + E) with (Zpos (digits2_pos P + k) + e) by lia.
      rewrite Hf. unfold shl_align.
      replace (e - E) with (Zneg k) by lia.
      apply binary_round_aux_canonical. exact Hb.
Qed.

(** The Number of an integer from 1 to 2^53. *)
Lemma Z2Num_represent (z : Z) :
  1 <= z <= 2 ^ 53 ->
  exists m e,
    Z2Num z = S754_finite false m e /\ bounded prec emax m e = true /\
    -52 <= e <= 1 /\ Zpos m * 2 ^ (e + 52) = z * 2 ^ 52.
Proof.
  intros Hz. destruct (Z.eq_dec z (2 ^ 53)) as [->|Hneq].
  - exists 4503599627370496%positive, 1. repeat split; try reflexivity; lia.
  - destruct z as [|p|p]; try lia.
    destruct (Z2Num_canonical p ltac:(lia)) as (m & e & Heq & Hb & _ & He & Hm).
    exists m, e. repeat split; try assumption; try lia.
    rewrite Hm, <- Z.mul_assoc, <- Z.pow_add_r by lia. f_equal. f_equal. lia.
Qed.

(** An integer from 1 to 2^53 given with a scale is normalized to the
    Number of the integer. *)
Lemma normalize_integer (z k : Z) :
  1 <= z <= 2 ^ 53 -> 0 <= k ->
  binary_normalize prec emax (z * 2 ^ k) (- k) false = Z2Num z.
Proof.
  intros Hz Hk. destruct (Z2Num_represent z Hz) as (m & e & -> & Hb & He & Hv).
  assert (Hpos : 0 < z * 2 ^ k) by (apply Z.mul_pos_pos; [lia|apply Z.pow_pos_nonneg; lia]).
  destruct (z * 2 ^ k) as [|P|P] eqn:EP; try lia. cbn [binary_normalize].
  apply binary_round_value; [exact Hb|].
  destruct (Z_le_gt_dec (- k) e) as [Hle|Hgt].
  - left. split; [exact Hle|].
    apply (Z.mul_reg_r _ _ (2 ^ 52)); [apply Z.pow_nonzero; lia|].
    rewrite <- EP.
    replace (z * 2 ^ k * 2 ^ 52) with (z * 2 ^ 52 * 2 ^ k) by ring.
    rewrite <- Hv, <- !Z.mul_assoc, <- !Z.pow_add_r by lia.
    f_equal. f_equal. lia.
  - right. split; [lia|].
    apply (Z.mul_reg_r _ _ (2 ^ (e + 52))); [apply Z.pow_nonzero; lia|].
    rewrite Hv, <- EP, <- !Z.mul_assoc, <- !Z.pow_add_r by lia.
    f_equal. f_equal. lia.
Qed.

(** The sum of two integer Numbers is the Number of the sum, as long as
    the sum is 2^53 at most. *)
Lemma number_add_integers (a b : Z) :
  1 <= a -> 1 <= b -> a + b <= 2 ^ 53 ->
  nadd (Z2Num a) (Z2Num b) = Z2Num (a + b).
Proof.
  intros Ha Hb Hab.
  destruct a as [|pa|pa]; try lia. destruct b as [|pb|pb]; try lia.
  destruct (Z2Num_canonical pa ltac:(lia)) as (m1 & e1 & -> & _ & _ & He1 & Hm1).
  destruct (Z2Num_canonical pb ltac:(lia)) as (m2 & e2 & -> & _ & _ & He2 & Hm2).
  unfold nadd. cbn [SFadd cond_Zopp].
  rewrite !shl_align_value by lia. rewrite Hm1, Hm2.
  rewrite <- !Z.mul_assoc, <- !Z.pow_add_r by lia.
  replace (- e1 + (e1 - Z.min e1 e2)) with (- Z.min e1 e2) by lia.
  replace (- e2 + (e2 - Z.min e1 e2)) with (- Z.min e1 e2) by lia.
  rewrite <- Z.mul_add_distr_r.
  rewrite <- (Z.opp_involutive (Z.min e1 e2)) at 2.
  apply normalize_integer; lia.
Qed.

Lemma total_quantity_positive (cart : Cart) :
  Forall (fun item => 1 <= quantity item) cart -> 0 <= total_quantity cart.
Proof.
  induction 1 as [|x r Hx _ IH]; simpl; lia.
Qed.

Lemma totalItems_from (cart : Cart) :
  forall acc,
    0 <= acc -> Forall (fun item => 1 <= quantity item) cart ->
    acc + total_quantity cart <= 2 ^ 53 ->
    fold_left (fun sum item => nadd sum (Z2Num (quantity item))) cart (Z2Num acc)
    = Z2Num (acc + total_quantity cart).
Proof.
  induction cart as [|x r IH]; intros acc Hacc Hall Hsum.
  - simpl. rewrite Z.add_0_r. reflexivity.
  - inversion Hall as [|? ? Hx Hr]; subst. cbn [fold_left total_quantity fold_right] in *.
    fold (total_quantity r) in *.
    pose proof (total_quantity_positive r Hr) as Hpos.
    assert (Hstep : nadd (Z2Num acc) (Z2Num (quantity x)) = Z2Num (acc + quantity x)).
    { destruct (Z.eq_dec acc 0) as [->|Hne].
      - destruct (Z2Num_represent (quantity x) ltac:(lia)) as (m & e & Heq & _).
        rewrite Z.add_0_l, Heq. reflexivity.
      - apply number_add_integers; lia. }
    rewrite Hstep, IH by (assumption || lia). f_equal. lia.
Qed.

(** X10. The count in the navigation bar is the total of the quantities
    (not the number of line items), as long as that total is 2^53 at most,
    where integer Numbers stop being exact. *)
Theorem count_is_total_quantity (cart : Cart)
    (Hquantities : Forall (fun item => 1 <= quantity item) cart)
    (Hexact : total_quantity cart <= 2 ^ 53) :
  totalItems cart = Z2Num (total_quantity cart) /\
  updateCartCount cart = NumberToString (Z2Num (total_quantity cart)).
Proof.
  assert (H : totalItems cart = Z2Num (total_quantity cart)).
  { unfold totalItems. change (S754_zero false) with (Z2Num 0).
    rewrite totalItems_from by (assumption || lia). reflexivity. }
  split; [exact H|]. unfold updateCartCount. rewrite H. reflexivity.
Qed.

Lemma count_is_total_quantity_witness :
  updateCartCount [mkItem (js "X") (js "Tea") (Z2Num 10) (js "u") 2;
                   mkItem (js "Y") (js "Jam") (Z2Num 3) (js "v") 3]
  = js "5".
Proof.
  destruct (count_is_total_quantity
              [mkItem (js "X") (js "Tea") (Z2Num 10) (js "u") 2;
               mkItem (js "Y") (js "Jam") (Z2Num 3) (js "v") 3]) as [_ H].
  - repeat constructor; simpl; lia.
  - simpl. lia.
  - rewrite H. vm_compute. reflexivity.
Defined.

(** *** Product cards and listings *)

Lemma present_or_else (p : ProductRecord) (key : jsstring) :
  present p key = true ->
  exists v, get p key = Some v /\ truthy v = true /\
            forall fallback, or_else (get p key) fallback = v.
Proof.
  unfold present, or_else. destruct (get p key) as [v|]; [|discriminate].
  intros H. exists v. rewrite H. repeat split.
Qed.


(** X11. A card of either listing shows the record's own name and image,
    never the fallbacks 'Unknown Product' and the placeholder image, since
    the listing's filter has let the record through; a card of the
    featured listing shows the record's own brand too, while in the general
    listing a record without brand gets 'Unknown Brand'. *)
Theorem listed_cards_show_own_fields (data_products : list ProductRecord)
    (p : ProductRecord) (random_id random_price : jsstring)
    (Hlisted : In p (fetchAllProducts data_products)) :
  let card := createProductCard p random_id random_price in
  get p (js "product_name") = Some (productName card) /\
  truthy (productName card) = true /\
  get p (js "image_url") = Some (imageUrl card) /\
  truthy (imageUrl card) = true /\
  (In p (fetchFeaturedProducts data_products) ->
   get p (js "brands") = Some (brand card) /\ truthy (brand card) = true) /\
  (present p (js "brands") = false -> brand card = JStr (js "Unknown Brand")).
Proof.
  cbv zeta. rewrite fetchAllProducts_firstn in Hlisted.
  apply in_firstn, filter_In in Hlisted. destruct Hlisted as [_ Hadm].
  unfold general_admits in Hadm. apply andb_true_iff in Hadm as [Hn Hi].
  destruct (present_or_else p _ Hn) as (n & Hgn & Htn & Hon).
  destruct (present_or_else p _ Hi) as (i & Hgi & Hti & Hoi).
  cbn [productName imageUrl brand createProductCard]. rewrite Hon, Hoi.
  split; [exact Hgn|]. split; [exact Htn|]. split; [exact Hgi|]. split; [exact Hti|].
  split.
  - intros Hf. rewrite fetchFeaturedProducts_firstn in Hf.
    apply in_firstn, filter_In in Hf. destruct Hf as [_ Hadm].
    unfold featured_admits in Hadm. apply andb_true_iff in Hadm as [_ Hb].
    destruct (present_or_else p _ Hb) as (b & Hgb & Htb & Hob).
    rewrite Hob. split; assumption.
  - unfold present, or_else. destruct (get p (js "brands")) as [v|]; [|reflexivity].
    intros ->. reflexivity.
Qed.

Lemma listed_cards_show_own_fields_witness :
  let p := [(js "product_name", JStr (js "Oat bar")); (js "image_url", JStr (js "i.png"));
            (js "brands", JStr [])] in
  let card := createProductCard p (js "k3j9x0q1z") (js "4.20") in
  productName card = JStr (js "Oat bar") /\ brand card = JStr (js "Unknown Brand").
Proof.
  destruct (listed_cards_show_own_fields
              [[(js "product_name", JStr (js "Oat bar")); (js "image_url", JStr (js "i.png"));
                (js "brands", JStr [])]]
              [(js "product_name", JStr (js "Oat bar")); (js "image_url", JStr (js "i.png"));
               (js "brands", JStr [])]
              (js "k3j9x0q1z") (js "4.20")) as (_ & _ & _ & _ & _ & Hb).
  - left. reflexivity.
  - split; [reflexivity|apply Hb; reflexivity].
Defined.






(** *** The contact form *)

Lemma matches_many_cons (class : N -> bool) (rest : list Piece) (d : N) (s : jsstring) :
  matches (Many class :: rest) (d :: s)
  = class d && (matches (Many class :: rest) s || matches rest s).
Proof. reflexivity. Qed.

(** One or more characters of the class, and then the rest of the pattern. *)
Lemma matches_many (class : N -> bool) (rest : list Piece) (s : jsstring) :
  matches (Many class :: rest) s = true <->
  exists a b, s = a ++ b /\ a <> [] /\ forallb class a = true /\ matches rest b = true.
Proof.
  induction s as [|d s IH].
  - split; [discriminate|]. intros (a & b & Hs & Ha & _).
    destruct a; [contradiction|discriminate].
  - rewrite matches_many_cons, andb_true_iff, orb_true_iff, IH. split.
    + intros [Hd [(a & b & -> & Ha & Hall & Hb)|Hb]].
      * exists (d :: a), b. cbn [forallb]. rewrite Hd, Hall.
        repeat split; [discriminate|exact Hb].
      * exists [d], s. cbn [forallb]. rewrite Hd.
        repeat split; [discriminate|exact Hb].
    + intros (a & b & Hs & Ha & Hall & Hb).
      destruct a as [|d' a]; [contradiction|]. injection Hs as <- ->.
      cbn [forallb] in Hall. apply andb_true_iff in Hall as [Hd Hall].
      split; [exact Hd|]. destruct a as [|d'' a].
      * right. exact Hb.
      * left. exists (d'' :: a), b. repeat split; [discriminate|exact Hall|exact Hb].
Qed.

Lemma matches_one (c : N) (rest : list Piece) (s : jsstring) :
  matches (One c :: rest) s = true <-> exists b, s = c :: b /\ matches rest b = true.
Proof.
  destruct s as [|d s]; cbn [matches].
  - split; [discriminate|]. intros (b & H & _). discriminate.
  - rewrite andb_true_iff, N.eqb_eq. split.
    + intros [-> H]. exists s. split; [reflexivity|exact H].
    + intros (b & H & Hb). injection H as -> ->. split; [reflexivity|exact Hb].
Qed.

Lemma accepted_email_parts (s : jsstring) :
  matches emailPattern s = true ->
  exists local domain rest,
    s = local ++ 64%N :: domain ++ 46%N :: rest /\
    email_part local /\ email_part domain /\ email_part rest.
Proof.
  unfold emailPattern, email_part. intros H.
  apply matches_many in H as (l & b1 & -> & Hl & Hlall & H).
  apply matches_one in H as (b2 & -> & H).
  apply matches_many in H as (d & b3 & -> & Hd & Hdall & H).
  apply matches_one in H as (b4 & -> & H).
  apply matches_many in H as (t & b5 & -> & Ht & Htall & H).
  destruct b5; [|discriminate]. rewrite app_nil_r.
  exists l, d, t. repeat split; assumption.
Qed.

(** X15. The e-mail pattern accepts exactly the strings of the form
    local [@] domain [.] rest, where the three parts are not empty and hold
    neither white space nor [@]. *)
Theorem email_pattern_accepts (s : jsstring) :
  matches emailPattern s = true <->
  exists local domain rest,
    s = local ++ 64%N :: domain ++ 46%N :: rest /\
    email_part local /\ email_part domain /\ email_part rest.
Proof.
  split; [apply accepted_email_parts|].
  unfold emailPattern, email_part.
  intros (l & d & t & -> & [Hl Hlall] & [Hd Hdall] & [Ht Htall]).
  apply matches_many. exists l, (64%N :: d ++ 46%N :: t). repeat split; try assumption.
  apply matches_one. eexists. split; [reflexivity|].
  apply matches_many. exists d, (46%N :: t). repeat split; try assumption.
  apply matches_one. eexists. split; [reflexivity|].
  apply matches_many. exists t, []. rewrite app_nil_r. repeat split; assumption.
Qed.

Lemma email_part_chars (a : jsstring) :
  forallb not_space_at a = true ->
  filter (N.eqb 64) a = [] /\ forallb (fun c => negb (is_str_whitespace c)) a = true.
Proof.
  induction a as [|c a IH]; cbn [forallb filter]; [split; reflexivity|].
  intros H. apply andb_true_iff in H as [Hc Ha]. destruct (IH Ha) as [IH1 IH2].
  unfold not_space_at in Hc. apply andb_true_iff in Hc as [Hws Hat].
  rewrite Hws, IH2. rewrite N.eqb_sym. apply negb_true_iff in Hat. rewrite Hat.
  split; [exact IH1|reflexivity].
Qed.

(** X16. An accepted e-mail address holds exactly one [@] and no white
    space, and is 5 characters long at least. *)
Theorem accepted_email_shape (s : jsstring) (Haccepted : matches emailPattern s = true) :
  length (filter (N.eqb 64) s) = 1%nat /\
  forallb (fun c => negb (is_str_whitespace c)) s = true /\
  (5 <= length s)%nat.
Proof.
  apply accepted_email_parts in Haccepted
    as (l & d & t & -> & [Hl Hlall] & [Hd Hdall] & [Ht Htall]).
  destruct (email_part_chars l Hlall) as [Fl Wl].
  destruct (email_part_chars d Hdall) as [Fd Wd].
  destruct (email_part_chars t Htall) as [Ft Wt].
  split; [|split].
  - rewrite filter_app. cbn [filter N.eqb Pos.eqb]. rewrite filter_app.
    cbn [filter N.eqb Pos.eqb]. rewrite Fl, Fd, Ft. reflexivity.
  - rewrite forallb_app. cbn [forallb]. rewrite forallb_app. cbn [forallb].
    rewrite Wl, Wd, Wt. reflexivity.
  - rewrite length_app. cbn [length]. rewrite length_app. cbn [length].
    destruct l; [contradiction|]. destruct d; [contradiction|]. destruct t; [contradiction|].
    cbn [length]. lia.
Qed.

Lemma accepted_email_shape_witness :
  length (filter (N.eqb 64) (js "a@b.com")) = 1%nat /\
  forallb (fun c => negb (is_str_whitespace c)) (js "a@b.com") = true /\
  (5 <= length (js "a@b.com"))%nat.
Proof. apply (accepted_email_shape (js "a@b.com")). reflexivity. Defined.

Lemma validateForm_texts (nameInput emailInput messageInput : jsstring) :
  let v := validateForm nameInput emailInput messageInput in
  isValid v = true <-> nameError v = [] /\ emailError v = [] /\ messageError v = [].
Proof.
  cbv zeta. unfold validateForm. cbn [isValid nameError emailError messageError].
  destruct (trim nameInput === []); destruct (trim emailInput === []);
    destruct (trim messageInput === []);
    destruct (negb (matches emailPattern (trim emailInput))); cbn [negb andb orb];
    (split; [intros H|intros (H1 & H2 & H3)]);
    try discriminate; repeat split.
Qed.

(** X17. [validateForm] returns true exactly when it leaves the three error
    texts empty, and exactly when name and message hold something besides
    white space and the trimmed e-mail matches the pattern. *)
Theorem validateForm_verdict (nameInput emailInput messageInput : jsstring) :
  let v := validateForm nameInput emailInput messageInput in
  (isValid v = true <-> nameError v = [] /\ emailError v = [] /\ messageError v = []) /\
  (isValid v = true <->
   trim nameInput <> [] /\ matches emailPattern (trim emailInput) = true /\
   trim messageInput <> []).
Proof.
  cbv zeta. split; [apply validateForm_texts|].
  unfold validateForm. cbn [isValid].
  assert (Hempty : matches emailPattern [] = false) by reflexivity.
  destruct (trim nameInput) as [|c1 n]; destruct (trim emailInput) as [|c2 e];
    destruct (trim messageInput) as [|c3 m]; cbn [str_eqb negb andb orb];
    try rewrite Hempty;
    try destruct (matches emailPattern (c2 :: e)); cbn [negb andb orb];
    (split; [intros H|intros (H1 & H2 & H3)]);
    try discriminate; try reflexivity; try contradiction;
    repeat split; try discriminate; try reflexivity.
Qed.

Lemma trim_start_padding (w s : jsstring) :
  forallb is_str_whitespace w = true -> trim_start (w ++ s) = trim_start s.
Proof.
  unfold trim_start. induction w as [|c w IH]; cbn [forallb app]; [reflexivity|].
  intros H. apply andb_true_iff in H as [Hc Hw]. cbn [span]. rewrite Hc.
  specialize (IH Hw). destruct (span is_str_whitespace (w ++ s)). exact IH.
Qed.

Lemma trim_start_all_space (w : jsstring) :
  forallb is_str_whitespace w = true -> trim_start w = [].
Proof.
  intros H. rewrite <- (app_nil_r w). rewrite trim_start_padding by exact H. reflexivity.
Qed.

Lemma trim_start_app (s w : jsstring) :
  trim_start s <> [] -> trim_start (s ++ w) = trim_start s ++ w.
Proof.
  unfold trim_start. induction s as [|c s IH]; cbn [app span snd]; [contradiction|].
  destruct (is_str_whitespace c).
  - destruct (span is_str_whitespace s) as [a b] eqn:E1.
    destruct (span is_str_whitespace (s ++ w)) as [a' b'] eqn:E2.
    cbn [snd] in *. exact IH.
  - reflexivity.
Qed.

(** White space around a string does not change what [trim] returns. *)
Lemma trim_padding (w1 w2 s : jsstring) :
  forallb is_str_whitespace w1 = true -> forallb is_str_whitespace w2 = true ->
  trim (w1 ++ s ++ w2) = trim s.
Proof.
  intros H1 H2. unfold trim. rewrite trim_start_padding by exact H1.
  assert (Hrev : forallb is_str_whitespace (rev w2) = true).
  { rewrite forallb_forall in *. intros c Hc. apply H2. apply in_rev. exact Hc. }
  destruct (trim_start s) as [|c t] eqn:E.
  - assert (Hs : trim_start (s ++ w2) = []).
    { clear - E H2. unfold trim_start in *.
      induction s as [|c s IH]; cbn [app].
      - apply (trim_start_all_space w2 H2).
      - cbn [span] in *. destruct (is_str_whitespace c); [|discriminate].
        destruct (span is_str_whitespace s) as [a b].
        destruct (span is_str_whitespace (s ++ w2)) as [a' b'].
        cbn [snd] in *. apply IH. exact E. }
    rewrite Hs. reflexivity.
  - rewrite trim_start_app by (rewrite E; discriminate).
    rewrite E, rev_app_distr, trim_start_padding by exact Hrev. reflexivity.
Qed.

Lemma trim_all_space (w : jsstring) : forallb is_str_whitespace w = true -> trim w = [].
Proof.
  intros H. pose proof (trim_padding w [] [] H eq_refl) as T.
  cbn [app] in T. rewrite app_nil_r in T. exact T.
Qed.

(** X18. White space before and after what is typed into a field does not
    change the outcome of the validation; a field of white space only is
    reported like an empty one. *)
Theorem validation_ignores_padding
    (nameInput emailInput messageInput w1 w2 w3 w4 w5 w6 : jsstring)
    (H1 : forallb is_str_whitespace w1 = true) (H2 : forallb is_str_whitespace w2 = true)
    (H3 : forallb is_str_whitespace w3 = true) (H4 : forallb is_str_whitespace w4 = true)
    (H5 : forallb is_str_whitespace w5 = true) (H6 : forallb is_str_whitespace w6 = true) :
  validateForm (w1 ++ nameInput ++ w2) (w3 ++ emailInput ++ w4) (w5 ++ messageInput ++ w6)
  = validateForm nameInput emailInput messageInput /\
  validateForm w1 w3 w5 = validateForm [] [] [].
Proof.
  unfold validateForm. rewrite !trim_padding by assumption. split; [reflexivity|].
  rewrite !trim_all_space by assumption. reflexivity.
Qed.

Lemma validation_ignores_padding_witness :
  validateForm (js "  Ann ") (js " a@b.com") (js "hello  ")
  = validateForm (js "Ann") (js "a@b.com") (js "hello").
Proof.
  apply (validation_ignores_padding (js "Ann") (js "a@b.com") (js "hello")
           (js "  ") (js " ") (js " ") [] [] (js "  ")); reflexivity.
Defined.

Lemma submit_valid (form : ContactForm) :
  isValid (validateForm (name_value form) (email_value form) (message_value form)) = true ->
  submit form = reset (show_success (input form)).
Proof. intros H. unfold submit. cbn [input errors]. rewrite H. reflexivity. Qed.

Lemma submit_invalid (form : ContactForm) :
  isValid (validateForm (name_value form) (email_value form) (message_value form)) = false ->
  submit form = input form.
Proof. intros H. unfold submit. cbn [input errors]. rewrite H. reflexivity. Qed.

Lemma empty_field_refused (nameInput emailInput messageInput : jsstring) :
  nameInput = [] \/ emailInput = [] \/ messageInput = [] ->
  isValid (validateForm nameInput emailInput messageInput) = false.
Proof.
  intros H. unfold validateForm. cbn [isValid].
  destruct H as [-> | [-> | ->]].
  - reflexivity.
  - apply andb_false_iff. left. apply andb_false_iff. right. reflexivity.
  - apply andb_false_iff. right. reflexivity.
Qed.

(** X19. Submitting an invalid form changes no input and not the success
    message, and writes an error text; submitting a valid form leaves the
    three error texts empty, shows the success message and resets the
    inputs.  When the inputs are empty at first, a second submission right
    after a successful one is refused. *)
Theorem submit_outcomes (form : ContactForm) :
  let verdict := validateForm (name_value form) (email_value form) (message_value form) in
  errors (submit form) = verdict /\
  (isValid verdict = false ->
   name_value (submit form) = name_value form /\
   email_value (submit form) = email_value form /\
   message_value (submit form) = message_value form /\
   formSuccessMessage_display (submit form) = formSuccessMessage_display form /\
   (nameError verdict <> [] \/ emailError verdict <> [] \/ messageError verdict <> [])) /\
  (isValid verdict = true ->
   nameError verdict = [] /\ emailError verdict = [] /\ messageError verdict = [] /\
   formSuccessMessage_display (submit form) = js "block" /\
   name_value (submit form) = name_default form /\
   email_value (submit form) = email_default form /\
   message_value (submit form) = message_default form /\
   (name_default form = [] \/ email_default form = [] \/ message_default form = [] ->
    isValid (errors (submit (submit form))) = false /\
    name_value (submit (submit form)) = name_default form /\
    email_value (submit (submit form)) = email_default form /\
    message_value (submit (submit form)) = message_default form)).
Proof.
  cbv zeta.
  pose proof (validateForm_texts (name_value form) (email_value form) (message_value form))
    as Htexts. cbv zeta in Htexts.
  destruct (isValid (validateForm (name_value form) (email_value form) (message_value form)))
    eqn:E.
  - rewrite (submit_valid form E). split; [reflexivity|]. split; [discriminate|]. intros _.
    destruct Htexts as [Htexts _]. destruct (Htexts eq_refl) as (T1 & T2 & T3).
    repeat (split; [first [assumption|reflexivity]|]).
    intros Hempty. rewrite submit_invalid.
    + repeat split. cbn [input reset show_success errors name_value email_value
                         message_value]. apply empty_field_refused. exact Hempty.
    + cbn [input reset show_success errors name_value email_value message_value].
      apply empty_field_refused. exact Hempty.
  - rewrite (submit_invalid form E). split; [reflexivity|]. split; [|discriminate]. intros _.
    repeat (split; [reflexivity|]). cbn [input errors].
    destruct Htexts as [_ Htexts].
    destruct (nameError _) eqn:N1; [|left; discriminate].
    destruct (emailError _) eqn:N2; [|right; left; discriminate].
    destruct (messageError _) eqn:N3; [|right; right; discriminate].
    specialize (Htexts (conj eq_refl (conj eq_refl eq_refl))). congruence.
Qed.

Lemma submit_outcomes_witness :
  let form := {| name_value := js " Ann"; email_value := js "a@b.com";
                 message_value := js "hello"; name_default := []; email_default := [];
                 message_default := []; errors := validateForm [] [] [];
                 formSuccessMessage_display := js "none" |} in
  formSuccessMessage_display (submit form) = js "block" /\
  name_value (submit form) = [] /\
  isValid (errors (submit (submit form))) = false.
Proof.
  cbv zeta.
  destruct (submit_outcomes
              {| name_value := js " Ann"; email_value := js "a@b.com";
                 message_value := js "hello"; name_default := []; email_default := [];
                 message_default := []; errors := validateForm [] [] [];
                 formSuccessMessage_display := js "none" |}) as (_ & _ & Hvalid).
  destruct (Hvalid eq_refl) as (_ & _ & _ & Hshown & Hname & _ & _ & Hsecond).
  destruct (Hsecond (or_introl eq_refl)) as (Hrefused & _).
  repeat split; assumption.
Defined.

(** ** The totals in decimal arithmetic

    The script computes the rows, the subtotal and the total on binary64
    Numbers.  This part bounds the rounding errors of the three operations
    involved (reading a decimal, the product, the sum) and shows that, for
    prices in cents and amounts within a bound, the texts shown are those
    of exact decimal arithmetic. *)

(** *** Rounding to nearest *)

Lemma shr_1_located (mrs : shr_record) (N D : Z) :
  located mrs N D -> located (shr_1 mrs) N (2 * D).
Proof.
  destruct mrs as [m r s]. unfold located. cbn [shr_m shr_r shr_s].
  intros (HD & Hm & Hr & Hloc).
  destruct m as [|p|p]; [| |lia].
  - cbn [shr_1 shr_m shr_r shr_s]. destruct r, s; cbn [orb] in *; lia.
  - destruct p as [p|p|].
    + cbn [shr_1 shr_m shr_r shr_s]. rewrite Pos2Z.inj_xI in *.
      set (P := Zpos p) in *. assert (0 < P) by (unfold P; lia).
      destruct r, s; cbn [orb] in *; nia.
    + cbn [shr_1 shr_m shr_r shr_s]. rewrite Pos2Z.inj_xO in *.
      set (P := Zpos p) in *. assert (0 < P) by (unfold P; lia).
      destruct r, s; cbn [orb] in *; nia.
    + cbn [shr_1 shr_m shr_r shr_s]. destruct r, s; cbn [orb] in *; lia.
Qed.

Lemma iter_shr_1_located (n : positive) (mrs : shr_record) (N D : Z) :
  located mrs N D -> located (iter_pos shr_1 n mrs) N (D * 2 ^ Zpos n).
Proof.
  intros H. rewrite iter_pos_iter.
  induction n as [|n IH] using Pos.peano_ind.
  - cbn [Pos.iter]. replace (D * 2 ^ 1) with (2 * D) by lia. apply shr_1_located. exact H.
  - rewrite Pos.iter_succ, Pos2Z.inj_succ, Z.pow_succ_r by lia.
    replace (D * (2 * 2 ^ Zpos n)) with (2 * (D * 2 ^ Zpos n)) by ring.
    apply shr_1_located. exact IH.
Qed.

Lemma shr_located (mrs : shr_record) (e n N D : Z) :
  located mrs N D -> 0 <= n ->
  snd (shr mrs e n) = e + n /\ located (fst (shr mrs e n)) N (D * 2 ^ n).
Proof.
  intros H Hn. destruct n as [|n|n]; [| |lia]; cbn [shr fst snd].
  - rewrite Z.add_0_r, Z.pow_0_r, Z.mul_1_r. split; [reflexivity|exact H].
  - split; [reflexivity|]. apply iter_shr_1_located. exact H.
Qed.

(** Rounding to nearest, ties to even: one of the two neighbours, half a
    unit away at most. *)
Lemma round_nearest_even_located (mrs : shr_record) (N D : Z) :
  located mrs N D ->
  let m1 := round_nearest_even (shr_m mrs) (loc_of_shr_record mrs) in
  shr_m mrs <= m1 <= shr_m mrs + 1 /\ - D <= 2 * (m1 * D - N) <= D.
Proof.
  destruct mrs as [m r s]. unfold located. cbn [shr_m shr_r shr_s loc_of_shr_record].
  intros (HD & Hm & Hr & Hloc). cbv zeta.
  destruct r, s; cbn [round_nearest_even].
  - split; [lia|]. nia.
  - destruct (Z.even m); split; try lia; nia.
  - split; [lia|]. nia.
  - split; [lia|]. nia.
Qed.

Lemma digits2_pos_unique (m : positive) (k : Z) :
  2 ^ (k - 1) <= Zpos m < 2 ^ k -> Zpos (digits2_pos m) = k.
Proof.
  intros [Hlo Hhi]. pose proof (digits2_pos_bounds m) as [Dlo Dhi].
  set (d := Zpos (digits2_pos m)) in *. assert (0 < d) by (unfold d; lia).
  destruct (Z.lt_trichotomy d k) as [Hlt|[Heq|Hgt]]; [|exact Heq|].
  - assert (2 ^ d <= 2 ^ (k - 1)) by (apply Z.pow_le_mono_r; lia). lia.
  - assert (0 <= k).
    { destruct (Z_le_gt_dec 0 k) as [Hk|Hk]; [exact Hk|].
      rewrite (Z.pow_neg_r 2 k) in Hhi by lia. lia. }
    assert (2 ^ k <= 2 ^ (d - 1)) by (apply Z.pow_le_mono_r; lia). lia.
Qed.

Lemma shr_m_record_of_loc (m : Z) (l : location) : shr_m (shr_record_of_loc m l) = m.
Proof. destruct l as [|[| |]]; reflexivity. Qed.

(** The rounding of the fraction [N/D * 2^ex], given by a mantissa [p] of
    53 bits at least and the place of the fraction above it, in the range
    of the normal Numbers: a Number of 53 bits, at most half a unit of its
    last place away from the fraction. *)
Lemma binary_round_aux_located (sx : bool) (p : positive) (ex : Z) (lx : location)
    (N D : Z) :
  let d := Zpos (digits2_pos p) in
  located (shr_record_of_loc (Zpos p) lx) N D ->
  53 <= d -> -1074 <= ex + d - 53 -> ex + d - 53 < 971 ->
  exists m2 e2,
    binary_round_aux prec emax sx (Zpos p) ex lx = S754_finite sx m2 e2 /\
    Zpos (digits2_pos m2) = 53 /\
    ex + d - 53 <= e2 <= ex + d - 52 /\
    2 ^ 52 * (D * 2 ^ (d - 53)) <= N /\
    - (D * 2 ^ (d - 53))
    <= 2 * (Zpos m2 * 2 ^ (e2 - (ex + d - 53)) * (D * 2 ^ (d - 53)) - N)
    <= D * 2 ^ (d - 53).
Proof.
  intros d Hloc Hd Hlo Hhi.
  pose proof (digits2_pos_bounds p) as [Plo Phi]. fold d in Plo, Phi.
  set (n := d - 53) in *. assert (Hn : 0 <= n) by (unfold n; lia).
  set (X := 2 ^ n). assert (HX : 0 < X) by (apply Z.pow_pos_nonneg; lia).
  assert (Hd1 : 2 ^ (d - 1) = 2 ^ 52 * X).
  { unfold X. rewrite <- Z.pow_add_r by lia. f_equal. unfold n. lia. }
  assert (Hd2 : 2 ^ d = 2 ^ 53 * X).
  { unfold X. rewrite <- Z.pow_add_r by lia. f_equal. unfold n. lia. }
  rewrite Hd1 in Plo. rewrite Hd2 in Phi.
  assert (Hfexp : fexp prec emax (Zdigits2 (Zpos p) + ex) - ex = n).
  { cbn [Zdigits2]. fold d. unfold fexp, emin, prec, emax, n. lia. }
  unfold binary_round_aux, shr_fexp at 1. rewrite Hfexp.
  pose proof (shr_located (shr_record_of_loc (Zpos p) lx) ex n N D Hloc Hn) as [He' Hloc'].
  destruct (shr (shr_record_of_loc (Zpos p) lx) ex n) as [mrs' e']. cbn [fst snd] in He', Hloc'.
  fold X in Hloc'.
  pose proof (round_nearest_even_located mrs' N (D * X) Hloc') as [Hm1 Herr]. cbv zeta in Hm1, Herr.
  set (m1 := round_nearest_even (shr_m mrs') (loc_of_shr_record mrs')) in *.
  destruct Hloc as (HD & _ & HpN & _). rewrite shr_m_record_of_loc in HpN.
  destruct Hloc' as (HDX & Hm' & Hm'N & _).
  set (m' := shr_m mrs') in *.
  assert (Hm'hi : m' < 2 ^ 53).
  { assert (m' * X * D < (Zpos p + 1) * D) by nia.
    assert (m' * X < Zpos p + 1) by (apply (Z.mul_lt_mono_pos_r D); [exact HD|assumption]).
    assert (m' * X < 2 ^ 53 * X) by lia.
    apply (Z.mul_lt_mono_pos_r X); [exact HX|assumption]. }
  assert (Hm'lo : 2 ^ 52 <= m').
  { assert (Zpos p * D < (m' + 1) * X * D) by nia.
    assert (Zpos p < (m' + 1) * X) by (apply (Z.mul_lt_mono_pos_r D); [exact HD|assumption]).
    assert (2 ^ 52 * X < (m' + 1) * X) by lia.
    assert (2 ^ 52 < m' + 1) by (apply (Z.mul_lt_mono_pos_r X); [exact HX|assumption]).
    lia. }
  assert (HN : 2 ^ 52 * (D * X) <= N) by nia.
  destruct (Z.eq_dec m1 (2 ^ 53)) as [Heq|Hneq].
  - (* the mantissa was rounded up to 2^53 *)
    rewrite Heq in *. unfold shr_fexp.
    change (Zdigits2 (2 ^ 53)) with 54.
    replace (fexp prec emax (54 + e') - e') with 1
      by (unfold fexp, emin, prec, emax; lia).
    cbn [shr_record_of_loc shr iter_pos]. change (2 ^ 53) with (Zpos 9007199254740992).
    cbn [shr_1 orb shr_m].
    replace (e' + 1 <=? emax - prec) with true
      by (symmetry; apply Z.leb_le; unfold emax, prec; lia).
    exists 4503599627370496%positive, (e' + 1).
    split; [reflexivity|]. split; [reflexivity|]. split; [lia|]. split; [exact HN|].
    replace (e' + 1 - (ex + d - 53)) with 1 by (unfold n in He'; lia).
    change (Zpos 4503599627370496 * 2 ^ 1) with (2 ^ 53). exact Herr.
  - assert (Hm1pos : 0 < m1) by lia.
    destruct m1 as [|q|q] eqn:Em1; try lia.
    assert (Hdq : Zpos (digits2_pos q) = 53) by (apply digits2_pos_unique; lia).
    unfold shr_fexp. cbn [Zdigits2]. rewrite Hdq.
    replace (fexp prec emax (53 + e') - e') with 0
      by (unfold fexp, emin, prec, emax; unfold n in He'; lia).
    cbn [shr_record_of_loc shr shr_m].
    replace (e' <=? emax - prec) with true
      by (symmetry; apply Z.leb_le; unfold emax, prec; unfold n in He'; lia).
    exists q, e'. split; [reflexivity|]. split; [exact Hdq|]. split; [unfold n in He'; lia|].
    split; [exact HN|].
    replace (e' - (ex + d - 53)) with 0 by (unfold n in He'; lia).
    rewrite Z.pow_0_r, Z.mul_1_r. exact Herr.
Qed.

(** The same in units of 2^-1074: the result is within 2^-53 of the
    fraction, relatively. *)
Lemma binary_round_aux_error (p : positive) (ex : Z) (lx : location) (N D : Z) :
  let d := Zpos (digits2_pos p) in
  located (shr_record_of_loc (Zpos p) lx) N D ->
  53 <= d -> -1074 <= ex + d - 53 -> ex + d - 53 < 971 ->
  let x := binary_round_aux prec emax false (Zpos p) ex lx in
  let E := 2 ^ (ex + d - 53 + 1074) in
  let D' := D * 2 ^ (d - 53) in
  normal x /\ - (N * E) <= 2 ^ 53 * (scaled x * D' - N * E) <= N * E.
Proof.
  intros d Hloc Hd Hlo Hhi. cbv zeta.
  destruct (binary_round_aux_located false p ex lx N D Hloc Hd Hlo Hhi)
    as (m2 & e2 & -> & Hdig & He2 & HN & Herr).
  fold d in He2, HN, Herr.
  split; [exists m2, e2; split; [reflexivity|split; [exact Hdig|lia]]|].
  cbn [scaled].
  replace (e2 + 1074) with ((e2 - (ex + d - 53)) + (ex + d - 53 + 1074)) by lia.
  rewrite (Z.pow_add_r 2 (e2 - (ex + d - 53)) (ex + d - 53 + 1074)) by lia.
  set (E := 2 ^ (ex + d - 53 + 1074)).
  assert (HE : 0 < E) by (apply Z.pow_pos_nonneg; lia).
  set (D' := D * 2 ^ (d - 53)) in *.
  set (R := Zpos m2 * 2 ^ (e2 - (ex + d - 53))) in *.
  replace (Zpos m2 * (2 ^ (e2 - (ex + d - 53)) * E) * D' - N * E)
    with ((R * D' - N) * E) by (unfold R; ring).
  set (t := R * D' - N) in *.
  assert (Ht : - N <= 2 ^ 53 * t <= N) by lia.
  split.
  - replace (- (N * E)) with ((- N) * E) by ring.
    replace (2 ^ 53 * (t * E)) with (2 ^ 53 * t * E) by ring.
    apply Z.mul_le_mono_nonneg_r; lia.
  - replace (2 ^ 53 * (t * E)) with (2 ^ 53 * t * E) by ring.
    apply Z.mul_le_mono_nonneg_r; lia.
Qed.

(** The exponent of a normal Number is bounded by its size. *)
Lemma normal_exponent (m : positive) (e k : Z) :
  Zpos (digits2_pos m) = 53 -> -1074 <= e -> 0 <= k ->
  Zpos m * 2 ^ (e + 1074) <= 2 ^ k * 2 ^ 1074 -> e <= k - 52.
Proof.
  intros Hd He Hk H. pose proof (digits2_pos_bounds m) as [Hlo _]. rewrite Hd in Hlo.
  change (2 ^ (53 - 1)) with (2 ^ 52) in Hlo.
  assert (H1 : 2 ^ 52 * 2 ^ (e + 1074) <= 2 ^ k * 2 ^ 1074).
  { apply Z.le_trans with (Zpos m * 2 ^ (e + 1074)); [|exact H].
    apply Z.mul_le_mono_nonneg_r; [apply Z.pow_nonneg; lia|exact Hlo]. }
  rewrite <- !Z.pow_add_r in H1 by lia.
  apply Z.pow_le_mono_r_iff in H1; lia.
Qed.

Lemma scaled_normal (x : Number) : normal x -> 0 < scaled x.
Proof.
  intros (m & e & -> & _ & He). cbn [scaled].
  apply Z.mul_pos_pos; [lia|apply Z.pow_pos_nonneg; lia].
Qed.

(** The Number of an integer from 1 to 2^53 is normal and has its value. *)
Lemma Z2Num_normal (q : Z) :
  1 <= q <= 2 ^ 53 ->
  exists m e,
    Z2Num q = S754_finite false m e /\ Zpos (digits2_pos m) = 53 /\
    -52 <= e <= 1 /\ Zpos m * 2 ^ (e + 52) = q * 2 ^ 52.
Proof.
  intros Hq. destruct (Z2Num_represent q Hq) as (m & e & Heq & Hb & He & Hv).
  exists m, e. split; [exact Heq|]. split; [|split; assumption].
  apply bounded_spec in Hb as [Hf _]. unfold fexp, emin, prec, emax in Hf. lia.
Qed.

(** The product of a normal Number and a quantity: within 2^-53 of the
    exact product, relatively. *)
Lemma nmul_error (x : Number) (q : Z) :
  normal x -> scaled x <= 2 ^ 900 * 2 ^ 1074 -> 1 <= q <= 2 ^ 53 ->
  let y := nmul x (Z2Num q) in
  normal y /\ - (scaled x * q) <= 2 ^ 53 * (scaled y - scaled x * q) <= scaled x * q.
Proof.
  intros (mp & ep & -> & Hdp & Hep) Hsize Hq. cbv zeta. cbn [scaled] in *.
  destruct (Z2Num_normal q Hq) as (mq & eq & -> & Hdq & Heq & Hvq).
  pose proof (normal_exponent mp ep 900 Hdp ltac:(lia) ltac:(lia) Hsize) as Hep'.
  unfold nmul. cbn [SFmul xorb].
  pose proof (digits2_pos_bounds mp) as [Plo Phi]. rewrite Hdp in Plo, Phi.
  pose proof (digits2_pos_bounds mq) as [Qlo Qhi]. rewrite Hdq in Qlo, Qhi.
  change (2 ^ (53 - 1)) with (2 ^ 52) in Plo, Qlo.
  pose proof (digits2_pos_bounds (mp * mq)) as [Mlo Mhi].
  set (d := Zpos (digits2_pos (mp * mq))) in *.
  assert (Hpq : 2 ^ 104 <= Zpos (mp * mq) < 2 ^ 106) by (rewrite Pos2Z.inj_mul; nia).
  assert (Hd : 105 <= d <= 106).
  { assert (0 < d) by (unfold d; lia). split.
    - assert (H1 : 2 ^ 104 < 2 ^ d) by lia. apply Z.pow_lt_mono_r_iff in H1; lia.
    - assert (H1 : 2 ^ (d - 1) < 2 ^ 106) by lia. apply Z.pow_lt_mono_r_iff in H1; lia. }
  assert (Hloc : located (shr_record_of_loc (Zpos (mp * mq)) loc_Exact) (Zpos (mp * mq)) 1).
  { unfold located. cbn [shr_record_of_loc shr_m shr_r shr_s]. lia. }
  pose proof (binary_round_aux_error (mp * mq) (ep + eq) loc_Exact (Zpos (mp * mq)) 1 Hloc)
    as H. fold d in H. cbv zeta in H.
  destruct H as [Hnorm Herr]; try lia.
  split; [exact Hnorm|].
  set (y := binary_round_aux prec emax false (Zpos (mp * mq)) (ep + eq) loc_Exact) in *.
  set (D' := 2 ^ (d - 53)) in *.
  assert (HD' : 0 < D') by (apply Z.pow_pos_nonneg; lia).
  assert (HNE : Zpos (mp * mq) * 2 ^ (ep + eq + d - 53 + 1074)
                = Zpos mp * 2 ^ (ep + 1074) * q * D').
  { rewrite Pos2Z.inj_mul.
    replace (ep + eq + d - 53 + 1074) with ((ep + 1074) + (eq + d - 53)) by lia.
    rewrite Z.pow_add_r by lia.
    assert (Hq' : Zpos mq * 2 ^ (eq + d - 53) = q * D').
    { unfold D'. replace (eq + d - 53) with ((eq + 52) + (d - 105)) by lia.
      replace (d - 53) with (52 + (d - 105)) by lia.
      rewrite (Z.pow_add_r 2 (eq + 52) (d - 105)), (Z.pow_add_r 2 52 (d - 105)) by lia.
      rewrite !Z.mul_assoc, Hvq. reflexivity. }
    transitivity (Zpos mp * 2 ^ (ep + 1074) * (Zpos mq * 2 ^ (eq + d - 53))); [ring|].
    rewrite Hq'. ring. }
  rewrite HNE, Z.mul_1_l in Herr.
  set (S := Zpos mp * 2 ^ (ep + 1074)) in *.
  replace (scaled y * D' - S * q * D') with ((scaled y - S * q) * D') in Herr by ring.
  split.
  - apply (Z.mul_le_mono_pos_r _ _ D'); [exact HD'|]. nia.
  - apply (Z.mul_le_mono_pos_r _ _ D'); [exact HD'|]. nia.
Qed.


(** The Number of a positive decimal with two fraction digits, [a] its
    amount of cents: within 2^-53 of [a / 100], relatively. *)
Lemma cents_error (a : positive) :
  Zpos a < 2 ^ 58 ->
  let y := decimal_to_number (Npos a) (-2) in
  normal y /\
  - (Zpos a * 2 ^ 1074) <= 2 ^ 53 * (100 * scaled y - Zpos a * 2 ^ 1074)
  <= Zpos a * 2 ^ 1074.
Proof.
  intros Ha. cbv zeta.
  change (decimal_to_number (Npos a) (-2))
    with (SFdiv prec emax (S754_finite false a (-2)) (S754_finite false 25 0)).
  cbn [SFdiv xorb]. unfold SFdiv_core_binary. cbv zeta. cbn [Zdigits2].
  pose proof (digits2_pos_bounds a) as [Alo Ahi].
  set (d1 := Zpos (digits2_pos a)) in *.
  assert (Hd1 : 1 <= d1 <= 58).
  { assert (0 < d1) by (unfold d1; lia). split; [lia|].
    assert (H1 : 2 ^ (d1 - 1) < 2 ^ 58) by lia. apply Z.pow_lt_mono_r_iff in H1; lia. }
  change (Zpos (digits2_pos 25)) with 5.
  replace (Z.min (fexp prec emax (d1 + -2 - (5 + 0))) (-2 - 0)) with (d1 - 60)
    by (unfold fexp, emin, prec, emax; lia).
  replace (-2 - 0 - (d1 - 60)) with (58 - d1) by lia.
  set (s := 58 - d1). assert (Hs : 0 <= s) by (unfold s; lia).
  assert (Hm' : match s with
                | 0 => Zpos a
                | Zpos _ => Z.shiftl (Zpos a) s
                | Zneg _ => 0
                end = Zpos a * 2 ^ s).
  { destruct s as [|k|k] eqn:Es; [| |lia].
    - rewrite Z.pow_0_r. lia.
    - rewrite Z.shiftl_mul_pow2 by lia. reflexivity. }
  rewrite Hm'. set (N := Zpos a * 2 ^ s).
  assert (HN : 2 ^ 57 <= N < 2 ^ 58).
  { assert (H57 : 2 ^ 57 = 2 ^ (d1 - 1) * 2 ^ s).
    { rewrite <- Z.pow_add_r by lia. f_equal. unfold s. lia. }
    assert (H58 : 2 ^ 58 = 2 ^ d1 * 2 ^ s).
    { rewrite <- Z.pow_add_r by lia. f_equal. unfold s. lia. }
    rewrite H57, H58. unfold N.
    assert (0 < 2 ^ s) by (apply Z.pow_pos_nonneg; lia). split; nia. }
  pose proof (Z_div_mod N 25 ltac:(lia)) as Hdiv.
  destruct (Z.div_eucl N 25) as [q r]. destruct Hdiv as [HNq Hr].
  assert (Hq : 2 ^ 52 <= q < 2 ^ 54) by lia.
  destruct q as [|qp|qp]; try lia.
  pose proof (digits2_pos_bounds qp) as [Qlo Qhi].
  set (dq := Zpos (digits2_pos qp)) in *.
  assert (Hdq : 53 <= dq <= 54).
  { assert (0 < dq) by (unfold dq; lia). split.
    - assert (H1 : 2 ^ 52 < 2 ^ dq) by lia. apply Z.pow_lt_mono_r_iff in H1; lia.
    - assert (H1 : 2 ^ (dq - 1) < 2 ^ 54) by lia. apply Z.pow_lt_mono_r_iff in H1; lia. }
  assert (Hloc : located (shr_record_of_loc (Zpos qp) (new_location 25 r)) N 25).
  { unfold new_location. change (Z.even 25) with false. cbv iota.
    unfold new_location_odd. unfold located.
    destruct (r =? 0) eqn:Er.
    - apply Z.eqb_eq in Er. cbn [shr_record_of_loc shr_m shr_r shr_s]. lia.
    - apply Z.eqb_neq in Er. destruct (2 * r + 1 ?= 25) eqn:Ec.
      + rewrite Z.compare_eq_iff in Ec. cbn [shr_record_of_loc shr_m shr_r shr_s]. lia.
      + rewrite Z.compare_lt_iff in Ec. cbn [shr_record_of_loc shr_m shr_r shr_s]. lia.
      + rewrite Z.compare_gt_iff in Ec. cbn [shr_record_of_loc shr_m shr_r shr_s]. lia. }
  pose proof (binary_round_aux_error qp (d1 - 60) (new_location 25 r) N 25 Hloc) as H.
  fold dq in H. cbv zeta in H.
  destruct H as [Hnorm Herr]; try lia.
  split; [exact Hnorm|].
  set (y := binary_round_aux prec emax false (Zpos qp) (d1 - 60) (new_location 25 r)) in *.
  set (X := 2 ^ (dq - 53)) in *.
  assert (HX : 0 < X) by (apply Z.pow_pos_nonneg; lia).
  assert (HNE : N * 2 ^ (d1 - 60 + dq - 53 + 1074) = Zpos a * 2 ^ 1072 * X).
  { unfold N, X.
    replace (d1 - 60 + dq - 53 + 1074) with ((1072 - s) + (dq - 53)) by (unfold s; lia).
    rewrite (Z.pow_add_r 2 (1072 - s) (dq - 53)) by (unfold s; lia).
    replace 1072 with (s + (1072 - s)) at 2 by lia.
    rewrite (Z.pow_add_r 2 s (1072 - s)) by (unfold s; lia). ring. }
  rewrite HNE in Herr.
  change (2 ^ 1074) with (4 * 2 ^ 1072).
  set (V := 2 ^ 1072) in *.
  replace (scaled y * (25 * X) - Zpos a * V * X)
    with ((25 * scaled y - Zpos a * V) * X) in Herr by ring.
  assert (H1 : - (Zpos a * V) <= 2 ^ 53 * (25 * scaled y - Zpos a * V) <= Zpos a * V).
  { split.
    - apply (Z.mul_le_mono_pos_r _ _ X); [exact HX|]. nia.
    - apply (Z.mul_le_mono_pos_r _ _ X); [exact HX|]. nia. }
  lia.
Qed.

(** *** The text of an amount *)

(** [toFixed(2)] of a Number that is within half a cent of [a] cents (the
    upper half excluded) writes [a] cents. *)
Lemma toFixed_cents (x : Number) (a : Z) :
  regular x -> 0 <= a < 10 ^ 22 ->
  - 2 ^ 1074 <= 2 * (100 * scaled x - a * 2 ^ 1074) < 2 ^ 1074 ->
  toFixed x 2 = fixed_digits (Z.to_N a) 2.
Proof.
  intros [->|(m & e & -> & Hd & He)] Ha Herr.
  - cbn [scaled] in Herr. assert (a = 0) by lia. subst a. reflexivity.
  - cbn [scaled] in Herr. unfold toFixed, fraction.
    change (10 ^ Z.of_nat 2) with 100.
    set (W := 2 ^ 1074) in *. assert (HW : 0 < W) by (unfold W; lia).
    destruct (0 <=? e) eqn:Ee.
    + apply Z.leb_le in Ee.
      assert (Hs : Zpos m * 2 ^ (e + 1074) = Zpos m * 2 ^ e * W).
      { unfold W. rewrite Z.pow_add_r by lia. ring. }
      rewrite Hs in Herr. set (num := Zpos m * 2 ^ e) in *.
      assert (H1 : -1 <= 2 * (100 * num - a) < 1) by nia.
      replace (10 ^ 21 * 1 <=? num) with false by (symmetry; apply Z.leb_gt; lia).
      cbn [app]. f_equal. f_equal.
      symmetry. apply (Z.div_unique _ _ _ 1); lia.
    + apply Z.leb_gt in Ee.
      set (den := 2 ^ (- e)). assert (Hden : 0 < den) by (apply Z.pow_pos_nonneg; lia).
      assert (Hs : Zpos m * 2 ^ (e + 1074) * den = Zpos m * W).
      { unfold den, W. rewrite <- Z.mul_assoc, <- Z.pow_add_r by lia.
        f_equal. f_equal. lia. }
      set (S := Zpos m * 2 ^ (e + 1074)) in *.
      assert (H1 : - den <= 2 * (100 * Zpos m - a * den) < den).
      { assert (H2 : - (W * den) <= 2 * (100 * (S * den) - a * W * den) < W * den) by nia.
        rewrite Hs in H2. split.
        - apply (Z.mul_le_mono_pos_r _ _ W); [exact HW|]. nia.
        - apply (Z.mul_lt_mono_pos_r W); [exact HW|]. nia. }
      replace (10 ^ 21 * den <=? Zpos m) with false by (symmetry; apply Z.leb_gt; nia).
      cbn [app]. f_equal. f_equal.
      symmetry. apply (Z.div_unique _ _ _ (2 * Zpos m * 100 + den - 2 * den * a)); lia.
Qed.

Lemma digit_range (d : N) :
  is_digit d = true ->
  (d = 48 \/ d = 49 \/ d = 50 \/ d = 51 \/ d = 52 \/ d = 53 \/ d = 54 \/ d = 55 \/
   d = 56 \/ d = 57)%N.
Proof.
  unfold is_digit. intros H. apply andb_true_iff in H as [H1 H2].
  apply N.leb_le in H1. apply N.leb_le in H2. lia.
Qed.

(** A text that starts with a digit has no white space, no sign and no
    [Infinity] at its head. *)
Lemma parseFloat_unsigned (d : N) (r : jsstring) :
  is_digit d = true ->
  parseFloat (d :: r)
  = let (int, r1) := span is_digit (d :: r) in
    let (frac, r2) :=
      match r1 with
      | 46%N :: r => span is_digit r
      | _ => ([], r1)
      end in
    if is_nil int && is_nil frac then NaN
    else decimal_to_number (digits_value (int ++ frac))
           (prefix_exponent r2 - Z.of_nat (length frac)).
Proof.
  intros H.
  destruct (digit_range d H) as [->|[->|[->|[->|[->|[->|[->|[->|[->| ->]]]]]]]]];
    reflexivity.
Qed.

(** [parseFloat] of digits, a point and digits. *)
Lemma parseFloat_digits (int frac : jsstring) :
  int <> [] -> forallb is_digit int = true -> forallb is_digit frac = true ->
  parseFloat (int ++ 46%N :: frac)
  = decimal_to_number (digits_value (int ++ frac)) (- Z.of_nat (length frac)).
Proof.
  intros Hint Hi Hf. destruct int as [|d int']; [contradiction|].
  assert (Hd : is_digit d = true) by (cbn [forallb] in Hi; apply andb_true_iff in Hi; tauto).
  cbn [app]. rewrite (parseFloat_unsigned d _ Hd).
  change (d :: int' ++ 46%N :: frac) with ((d :: int') ++ 46%N :: frac).
  rewrite (span_app is_digit (d :: int') (46%N :: frac) Hi eq_refl).
  cbv iota beta.
  pose proof (span_app is_digit frac [] Hf I) as Hs. rewrite app_nil_r in Hs. rewrite Hs.
  cbn [is_nil andb prefix_exponent]. rewrite Z.sub_0_l. reflexivity.
Qed.

Lemma digits_value_zeros (k : nat) (ds : jsstring) :
  digits_value (repeat 48%N k ++ ds) = digits_value ds.
Proof.
  unfold digits_value. induction k as [|k IH]; [reflexivity|].
  cbn [repeat app fold_left]. exact IH.
Qed.

Lemma forallb_repeat_zero (k : nat) : forallb is_digit (repeat 48%N k) = true.
Proof. induction k as [|k IH]; [reflexivity|]. cbn [repeat forallb]. rewrite IH. reflexivity. Qed.

Lemma forallb_firstn {A : Type} (p : A -> bool) (n : nat) (l : list A) :
  forallb p l = true -> forallb p (firstn n l) = true.
Proof.
  rewrite !forallb_forall. intros H x Hx. apply H.
  rewrite <- (firstn_skipn n l). apply in_or_app. left. exact Hx.
Qed.

Lemma forallb_skipn {A : Type} (p : A -> bool) (n : nat) (l : list A) :
  forallb p l = true -> forallb p (skipn n l) = true.
Proof.
  rewrite !forallb_forall. intros H x Hx. apply H.
  rewrite <- (firstn_skipn n l). apply in_or_app. right. exact Hx.
Qed.

(** The text [toFixed(2)] writes for [n] cents reads back as the Number of
    the decimal with these two fraction digits. *)
Lemma parseFloat_fixed_digits (n : N) :
  parseFloat (fixed_digits n 2) = decimal_to_number n (-2).
Proof.
  unfold fixed_digits.
  destruct (decimal_digits_spec n) as (Hall & Hval & Hne & _).
  set (m := decimal_digits n) in *.
  set (m' := repeat 48%N (3 - length m) ++ m).
  assert (Hlen : (3 <= length m')%nat).
  { unfold m'. rewrite length_app, repeat_length. lia. }
  assert (Hall' : forallb is_digit m' = true).
  { unfold m'. rewrite forallb_app, forallb_repeat_zero, Hall. reflexivity. }
  set (k := length m') in *.
  rewrite parseFloat_digits.
  - rewrite firstn_skipn. unfold m' at 1. rewrite digits_value_zeros, Hval.
    rewrite length_skipn. fold k. replace (k - (k - 2))%nat with 2%nat by lia. reflexivity.
  - intros H. apply (f_equal (@length N)) in H. rewrite length_firstn in H.
    fold k in H. cbn [length] in H. lia.
  - apply forallb_firstn. exact Hall'.
  - apply forallb_skipn. exact Hall'.
Qed.

(** *** The totals in decimal arithmetic *)

Lemma fraction_scaled (m : positive) (e : Z) :
  -1074 <= e ->
  0 < snd (fraction m e) /\
  fst (fraction m e) * 2 ^ 1074 = Zpos m * 2 ^ (e + 1074) * snd (fraction m e).
Proof.
  intros He. unfold fraction. destruct (0 <=? e) eqn:Ee; cbn [fst snd].
  - apply Z.leb_le in Ee. split; [lia|]. rewrite Z.pow_add_r by lia. ring.
  - apply Z.leb_gt in Ee. split; [apply Z.pow_pos_nonneg; lia|].
    rewrite <- (Z.mul_assoc (Zpos m)), <- Z.pow_add_r by lia.
    f_equal. f_equal. lia.
Qed.

Lemma rounded_nonneg (m : positive) (e k : Z) :
  0 <= k -> 0 <= rounded (S754_finite false m e) k.
Proof.
  intros Hk. unfold rounded, fraction.
  destruct (0 <=? e) eqn:Ee.
  - apply Z.div_pos; [|lia].
    assert (0 <= 2 ^ e) by (apply Z.pow_nonneg; lia). nia.
  - assert (0 < 2 ^ (- e)) by (apply Z.pow_pos_nonneg; apply Z.leb_gt in Ee; lia).
    apply Z.div_pos; [nia|lia].
Qed.

(** A price in cents is zero or the Number of a positive amount of cents
    (which is then a normal Number). *)
Lemma cent_amount_cases (x : Number) :
  cent_amount x = true ->
  x = S754_zero false \/
  exists m e, x = S754_finite false m e /\ 0 < rounded x 100 /\
              x = decimal_to_number (Z.to_N (rounded x 100)) (-2).
Proof.
  unfold cent_amount. intros H. apply Number_eqb_eq in H.
  destruct x as [s|s| |s m e].
  - destruct s; [discriminate H|]. left. reflexivity.
  - discriminate H.
  - discriminate H.
  - destruct s.
    + exfalso. pose proof (rounded_nonneg m e 100 ltac:(lia)) as Hr.
      assert (Hneg : rounded (S754_finite true m e) 100 = - rounded (S754_finite false m e) 100).
      { unfold rounded. destruct (fraction m e). reflexivity. }
      rewrite Hneg in H.
      destruct (rounded (S754_finite false m e) 100) as [|p|p]; try lia; discriminate H.
    + right. exists m, e. split; [reflexivity|].
      pose proof (rounded_nonneg m e 100 ltac:(lia)) as Hr.
      split; [|exact H].
      destruct (rounded (S754_finite false m e) 100) as [|p|p]; try lia. discriminate H.
Qed.



Lemma fraction_pos (m : positive) (e : Z) :
  0 < fst (fraction m e) /\ 0 < snd (fraction m e).
Proof.
  unfold fraction. destruct (0 <=? e) eqn:Ee; cbn [fst snd].
  - apply Z.leb_le in Ee. split; [|lia].
    apply Z.mul_pos_pos; [lia|apply Z.pow_pos_nonneg; lia].
  - apply Z.leb_gt in Ee. split; [lia|apply Z.pow_pos_nonneg; lia].
Qed.

(** The row of an item priced in cents: the code's Number arithmetic
    writes the exact amount, price times quantity, as long as that is
    2^50 cents at most; and the Number read back from the text is within
    2^-53 of the amount, relatively. *)
Lemma line_exact (item : CartItem) :
  item_priced item -> line_cents item <= 2 ^ 50 ->
  let text := toFixed (nmul (price item) (Z2Num (quantity item))) 2 in
  text = decimal_text (line_cents item) /\
  regular (parseFloat text) /\
  - (line_cents item * 2 ^ 1074)
  <= 2 ^ 53 * (100 * scaled (parseFloat text) - line_cents item * 2 ^ 1074)
  <= line_cents item * 2 ^ 1074.
Proof.
  intros [Hc Hq] Hbound. cbv zeta. unfold line_cents in *.
  set (q := quantity item) in *.
  destruct (cent_amount_cases _ Hc) as [Hx|(m & e & Hx & Hpos & Hparse)].
  - rewrite Hx. destruct (Z2Num_normal q Hq) as (mq & eq & -> & _).
    cbn [rounded nmul SFmul xorb toFixed].
    change (decimal_text 0) with (fixed_digits 0 2).
    rewrite parseFloat_fixed_digits. cbn [decimal_to_number scaled].
    split; [reflexivity|]. split; [left; reflexivity|lia].
  - set (x := price item) in *.
    set (c := rounded x 100) in *. set (L := rounded x (100 * q)) in *.
    set (W := 2 ^ 1074). assert (HW : 0 < W) by (unfold W; lia).
    pose proof (fraction_pos m e) as [Hnum0 Hden].
    assert (HcL : c <= L).
    { unfold c, L. rewrite Hx. unfold rounded. destruct (fraction m e) as [num den].
      cbn [fst snd] in *. apply Z.div_le_mono; [lia|]. nia. }
    destruct (Z_to_N_pos c Hpos) as (a & Ha & Hac).
    rewrite Ha in Hparse.
    pose proof (cents_error a ltac:(lia)) as [Hnorm F0]. rewrite <- Hparse, Hac in *.
    fold W in F0.
    destruct Hnorm as (m' & e' & Hx' & Hd & He).
    rewrite Hx in Hx'. injection Hx' as <- <-.
    pose proof (fraction_scaled m e ltac:(lia)) as [_ Hfs]. fold W in Hfs.
    assert (HS : scaled x = Zpos m * 2 ^ (e + 1074)) by (rewrite Hx; reflexivity).
    rewrite <- HS in Hfs. set (S := scaled x) in *.
    assert (HL : L = (2 * fst (fraction m e) * (100 * q) + snd (fraction m e))
                     / (2 * snd (fraction m e))).
    { unfold L. rewrite Hx. unfold rounded. destruct (fraction m e). reflexivity. }
    set (num := fst (fraction m e)) in *. set (den := snd (fraction m e)) in *.
    set (Aq := 100 * q * num).
    assert (F1 : 2 * (den * L) <= 2 * Aq + den < 2 * (den * L) + 2 * den).
    { pose proof (Z.div_mod (2 * num * (100 * q) + den) (2 * den) ltac:(lia)) as Hdm.
      pose proof (Z.mod_pos_bound (2 * num * (100 * q) + den) (2 * den) ltac:(lia)) as Hmb.
      rewrite <- HL in Hdm. unfold Aq. lia. }
    set (K := c * q). set (P := K * den).
    assert (HK0 : 0 < K) by (unfold K; nia).
    assert (F2 : - P <= 2 ^ 53 * (Aq - P) <= P).
    { assert (E1 : (Aq - P) * W = (100 * S - c * W) * (q * den)).
      { unfold Aq, P, K.
        transitivity (100 * q * (num * W) - c * q * den * W); [ring|].
        rewrite Hfs. ring. }
      assert (Hk : 0 <= q * den) by nia.
      assert (F2' : - (P * W) <= 2 ^ 53 * ((Aq - P) * W) <= P * W).
      { rewrite E1. replace (P * W) with (c * W * (q * den)) by (unfold P, K; ring).
        split.
        - replace (- (c * W * (q * den))) with (- (c * W) * (q * den)) by ring.
          rewrite (Z.mul_assoc (2 ^ 53)). apply Z.mul_le_mono_nonneg_r; [exact Hk|lia].
        - rewrite (Z.mul_assoc (2 ^ 53)). apply Z.mul_le_mono_nonneg_r; [exact Hk|lia]. }
      split.
      - apply (Z.mul_le_mono_pos_r _ _ W); [exact HW|]. lia.
      - apply (Z.mul_le_mono_pos_r _ _ W); [exact HW|]. lia. }
    assert (HDL : den * L <= 2 ^ 50 * den).
    { rewrite (Z.mul_comm den L). apply Z.mul_le_mono_nonneg_r; lia. }
    assert (HK51 : K < 2 ^ 51).
    { assert (H1 : (2 ^ 54 - 2) * K * den < 2 ^ 53 * (2 ^ 51 + 1) * den).
      { replace ((2 ^ 54 - 2) * K * den) with ((2 ^ 54 - 2) * P) by (unfold P; ring). lia. }
      apply Z.mul_lt_mono_pos_r in H1; [lia|exact Hden]. }
    assert (HP51 : P < 2 ^ 51 * den) by (unfold P; apply Z.mul_lt_mono_pos_r; lia).
    assert (HLK : L = K).
    { assert (H1 : den * L < den * (K + 1)).
      { replace (den * (K + 1)) with (P + den) by (unfold P; ring). lia. }
      assert (H2 : den * K < den * (L + 1)).
      { replace (den * K) with P by (unfold P; ring).
        replace (den * (L + 1)) with (den * L + den) by ring. lia. }
      apply Z.mul_lt_mono_pos_l in H1; [|exact Hden].
      apply Z.mul_lt_mono_pos_l in H2; [|exact Hden]. lia. }
    assert (HK50 : K <= 2 ^ 50) by lia.
    assert (Hsize : S <= 2 ^ 900 * 2 ^ 1074).
    { assert (c * W <= 2 ^ 50 * W) by (apply Z.mul_le_mono_nonneg_r; lia). fold W. lia. }
    assert (Hnx : normal x).
    { exists m, e. split; [exact Hx|]. split; [exact Hd|exact He]. }
    pose proof (nmul_error x q Hnx Hsize Hq) as [Hnp F3]. cbv zeta in Hnp, F3.
    fold S in F3. set (u := scaled (nmul x (Z2Num q))) in *.
    assert (F0q : - (K * W) <= 2 ^ 53 * (100 * (S * q) - K * W) <= K * W).
    { replace (K * W) with (c * W * q) by (unfold K; ring).
      replace (100 * (S * q) - c * W * q) with ((100 * S - c * W) * q) by ring.
      split.
      - replace (- (c * W * q)) with (- (c * W) * q) by ring.
        rewrite (Z.mul_assoc (2 ^ 53)). apply Z.mul_le_mono_nonneg_r; lia.
      - rewrite (Z.mul_assoc (2 ^ 53)). apply Z.mul_le_mono_nonneg_r; lia. }
    assert (HKW : K * W <= 2 ^ 50 * W) by (apply Z.mul_le_mono_nonneg_r; lia).
    assert (Htext : toFixed (nmul x (Z2Num q)) 2 = fixed_digits (Z.to_N K) 2).
    { apply toFixed_cents; [right; exact Hnp|lia|]. fold W. fold u. lia. }
    rewrite Htext, HLK.
    assert (Hdt : decimal_text K = fixed_digits (Z.to_N K) 2).
    { unfold decimal_text. replace (K <? 0) with false by (symmetry; apply Z.ltb_ge; lia).
      reflexivity. }
    rewrite Hdt. split; [reflexivity|].
    rewrite parseFloat_fixed_digits.
    destruct (Z_to_N_pos K HK0) as (b & Hb & HbK). rewrite Hb.
    pose proof (cents_error b ltac:(lia)) as [Hny Fy]. rewrite HbK in Fy.
    split; [right; exact Hny|exact Fy].
Qed.




Lemma decimal_text_nonneg (cents : Z) :
  0 <= cents -> decimal_text cents = fixed_digits (Z.to_N cents) 2.
Proof.
  intros H. unfold decimal_text.
  replace (cents <? 0) with false by (symmetry; apply Z.ltb_ge; exact H). reflexivity.
Qed.





(** X9. The cart page has one row for each line item, in the order of the
    cart, showing [(price * quantity).toFixed(2)], a product of Numbers.
    For prices that are amounts of cents and rows of 2^50 cents at most,
    the row shows the exact product, with two decimal places.  The
    checkout button is disabled, and the empty-cart message displayed,
    exactly when the cart is empty. *)
Theorem cart_page_rows (cart : Cart) :
  itemTotalPrices (renderCart cart)
  = map (fun item => toFixed (nmul (price item) (Z2Num (quantity item))) 2) cart /\
  (cart_priced cart -> Forall (fun item => line_cents item <= 2 ^ 50) cart ->
   itemTotalPrices (renderCart cart)
   = map (fun item => decimal_text (line_cents item)) cart) /\
  checkoutButton_disabled (renderCart cart) = is_nil cart /\
  emptyCartMessage_display (renderCart cart)
  = (if is_nil cart then js "block" else js "none").
Proof.
  assert (Hrows : itemTotalPrices (renderCart cart)
                  = map (fun item => toFixed (nmul (price item) (Z2Num (quantity item))) 2)
                      cart).
  { destruct cart as [|item rest]; [reflexivity|].
    unfold renderCart. cbn [length Nat.eqb].
    pose proof (render_items_rows (item :: rest) (S754_zero false) []) as H.
    destruct (render_items (item :: rest) (S754_zero false) []) as [subtotal rows].
    cbn [snd app] in H. rewrite H. reflexivity. }
  split; [exact Hrows|]. split.
  - intros Hp Hb. rewrite Hrows. clear Hrows.
    induction cart as [|item rest IH]; [reflexivity|].
    inversion Hp as [|? ? Hitem Hrest]; subst. inversion Hb as [|? ? Hline Hlines]; subst.
    cbn [map]. destruct (line_exact item Hitem Hline) as (Htext & _).
    rewrite Htext, (IH Hrest Hlines). reflexivity.
  - clear Hrows. destruct cart as [|item rest]; [split; reflexivity|].
    unfold renderCart. cbn [length Nat.eqb is_nil].
    destruct (render_items (item :: rest) (S754_zero false) []) as [subtotal rows].
    split; reflexivity.
Qed.

Lemma cart_page_rows_witness :
  itemTotalPrices
    (renderCart [mkItem (js "A") (js "a") (parseFloat (js "10.00")) (js "a.png") 2;
                 mkItem (js "B") (js "b") (parseFloat (js "3.33")) (js "b.png") 3])
  = [decimal_text 2000; decimal_text 999].
Proof.
  destruct (cart_page_rows
              [mkItem (js "A") (js "a") (parseFloat (js "10.00")) (js "a.png") 2;
               mkItem (js "B") (js "b") (parseFloat (js "3.33")) (js "b.png") 3])
    as (_ & Hexact & _).
  apply Hexact.
  - repeat constructor; try (vm_compute; reflexivity); simpl; lia.
  - repeat constructor; vm_compute; discriminate.
Defined.

(** *** The prices the page makes *)

Lemma Number_eqb_refl (x : Number) : Number_eqb x x = true.
Proof.
  destruct x as [s|s| |s m e]; cbn [Number_eqb].
  - destruct s; reflexivity.
  - destruct s; reflexivity.
  - reflexivity.
  - rewrite Pos.eqb_refl, Z.eqb_refl. destruct s; reflexivity.
Qed.

(** A Number within half a cent of [a] cents (the upper half excluded)
    rounds to [a] cents. *)
Lemma rounded_cents (x : Number) (a : Z) :
  regular x -> 0 <= a ->
  - 2 ^ 1074 <= 2 * (100 * scaled x - a * 2 ^ 1074) < 2 ^ 1074 ->
  rounded x 100 = a.
Proof.
  intros [->|(m & e & -> & Hd & He)] Ha Herr.
  - cbn [scaled] in Herr. cbn [rounded]. lia.
  - cbn [scaled] in Herr. unfold rounded.
    pose proof (fraction_scaled m e ltac:(lia)) as [Hden Hfs].
    destruct (fraction m e) as [num den]. cbn [fst snd] in *.
    set (W := 2 ^ 1074) in *. assert (HW : 0 < W) by (unfold W; lia).
    set (S := Zpos m * 2 ^ (e + 1074)) in *.
    assert (H1 : - den <= 2 * (100 * num - a * den) < den).
    { assert (H2 : - (W * den) <= 2 * (100 * (S * den) - a * W * den) < W * den).
      { replace (100 * (S * den) - a * W * den) with ((100 * S - a * W) * den) by ring.
        rewrite (Z.mul_assoc 2). split.
        - replace (- (W * den)) with (- W * den) by ring.
          apply Z.mul_le_mono_nonneg_r; lia.
        - apply Z.mul_lt_mono_pos_r; lia. }
      rewrite <- Hfs in H2. split.
      - apply (Z.mul_le_mono_pos_r _ _ W); [exact HW|]. lia.
      - apply (Z.mul_lt_mono_pos_r W); [exact HW|]. lia. }
    symmetry. apply (Z.div_unique _ _ _ (2 * num * 100 + den - 2 * den * a)); lia.
Qed.

(** [toFixed(2)] writes the amount of cents the Number rounds to. *)
Lemma toFixed_rounded (m : positive) (e : Z) :
  rounded (S754_finite false m e) 100 < 10 ^ 23 ->
  toFixed (S754_finite false m e) 2
  = decimal_text (rounded (S754_finite false m e) 100).
Proof.
  intros Hr. rewrite decimal_text_nonneg by (apply rounded_nonneg; lia).
  unfold toFixed, rounded in *. pose proof (fraction_pos m e) as [Hnum Hden].
  destruct (fraction m e) as [num den]. cbn [fst snd] in *.
  change (10 ^ Z.of_nat 2) with 100.
  destruct (10 ^ 21 * den <=? num) eqn:E; [|reflexivity].
  exfalso. apply Z.leb_le in E.
  assert (10 ^ 23 <= (2 * num * 100 + den) / (2 * den)); [|lia].
  apply Z.div_le_lower_bound; lia.
Qed.

(** X20. The price of a product card is the text [toFixed(2)] writes, and
    [addToCart] keeps [parseFloat] of that text.  For whatever positive
    finite Number the text is made from (up to 2^50 cents), the price kept
    is a price in cents, of the amount the Number rounds to, and the cart
    page writes it with the same text as the card.  So the carts the page
    builds meet the condition on prices of the totals. *)
Theorem page_prices_are_cent_amounts (m : positive) (e : Z)
    (Hsize : rounded (S754_finite false m e) 100 <= 2 ^ 50) :
  let random := S754_finite false m e in
  let price := parseFloat (toFixed random 2) in
  cent_amount price = true /\
  rounded price 100 = rounded random 100 /\
  toFixed price 2 = toFixed random 2.
Proof.
  cbv zeta. rewrite toFixed_rounded by lia.
  pose proof (rounded_nonneg m e 100 ltac:(lia)) as Hc0.
  set (c := rounded (S754_finite false m e) 100) in *.
  rewrite decimal_text_nonneg by exact Hc0. rewrite parseFloat_fixed_digits.
  destruct (Z.eq_dec c 0) as [->|Hc]; [repeat split; reflexivity|].
  destruct (Z_to_N_pos c ltac:(lia)) as (a & Ha & Hac). rewrite Ha.
  pose proof (cents_error a ltac:(lia)) as [Hn F]. rewrite Hac in F.
  set (price := decimal_to_number (Npos a) (-2)) in *.
  set (W := 2 ^ 1074) in *. assert (HW : 0 < W) by (unfold W; lia).
  assert (HcW : c * W <= 2 ^ 50 * W) by (apply Z.mul_le_mono_nonneg_r; lia).
  assert (Hr : rounded price 100 = c).
  { apply rounded_cents; [right; exact Hn|exact Hc0|]. fold W. lia. }
  split; [|split].
  - unfold cent_amount. rewrite Hr, Ha. apply Number_eqb_refl.
  - exact Hr.
  - rewrite <- Ha. apply toFixed_cents; [right; exact Hn|lia|]. fold W. lia.
Qed.

(** The Number 15.754112358269998, written 15.75. *)
Lemma page_prices_are_cent_amounts_witness :
  cent_amount (parseFloat (toFixed (S754_finite false 8868776818282201 (-49)) 2)) = true.
Proof.
  apply (page_prices_are_cent_amounts 8868776818282201 (-49)).
  vm_compute. discriminate.
Defined.
